(** * xtralien: command dispatch, response formatting and discovery

    A shallow embedding of [src/xtralien/__init__.py].

    Conventions of the embedding:
    - a Python [str] is a [string]; the characters that matter are ASCII;
    - a Python [int] is a [Z];
    - a Python [float] obtained from a decimal literal is the rational number
      that the literal denotes, kept in lowest terms ([Qred]), so that two
      literals denoting the same real are equal.  Rounding to binary64 and
      overflow are outside the model: equality here implies equality of the
      rounded floats, not the converse;
    - an exception is a value of [exn]; code that may raise returns a
      [result];
    - the sockets, serial ports and clocks of the platform are scripts that
      say what each successive primitive call does. *)

From Stdlib Require Import String Ascii List Bool Arith ZArith NArith QArith Lia.
From Stdlib Require Import DecimalString Qpower Qfield.
Import ListNotations.

Set Implicit Arguments.

Local Open Scope string_scope.

(* ================================================================== *)
(** * Exceptions and results *)

Inductive exn : Type :=
| ConnectionError   (* ConnectionError and its subclasses *)
| SocketTimeout     (* socket.timeout *)
| OSError           (* any other OSError, SerialException included *)
| RuntimeError
| TypeError
| ValueError
| AttributeError
| IndexError.

(** [Hang] is a call that never returns (a loop that spins for ever). *)
Inductive result (A : Type) : Type :=
| Return (a : A)
| Raise (e : exn)
| Hang.

Arguments Return {A} a.
Arguments Raise {A} e.
Arguments Hang {A}.

Definition is_connection_error (e : exn) : bool :=
  match e with ConnectionError => true | _ => false end.

Definition rbind {A B : Type} (r : result A) (k : A -> result B) : result B :=
  match r with
  | Return a => k a
  | Raise e => Raise e
  | Hang => Hang
  end.

(** A list comprehension whose element expression may raise. *)
Fixpoint rmap {A B : Type} (f : A -> result B) (l : list A) : result (list B) :=
  match l with
  | [] => Return []
  | a :: l' => rbind (f a) (fun b => rbind (rmap f l') (fun bs => Return (b :: bs)))
  end.

(* ================================================================== *)
(** * The string methods the module uses *)

Module PyStr.

Definition newline : ascii := "010"%char.

(** [c in chars] *)
Fixpoint mem (c : ascii) (chars : string) : bool :=
  match chars with
  | EmptyString => false
  | String d r => if Ascii.eqb c d then true else mem c r
  end.

Definition is_empty (s : string) : bool :=
  match s with EmptyString => true | String _ _ => false end.

Fixpoint lstrip (chars s : string) : string :=
  match s with
  | EmptyString => EmptyString
  | String c r => if mem c chars then lstrip chars r else s
  end.

(** Trailing characters are dropped from the right end: a character goes
    exactly when everything after it went and it is itself in [chars]. *)
Fixpoint rstrip (chars s : string) : string :=
  match s with
  | EmptyString => EmptyString
  | String c r =>
      let r' := rstrip chars r in
      if is_empty r' && mem c chars then EmptyString else String c r'
  end.

(** [s.strip(chars)] *)
Definition strip (chars s : string) : string := rstrip chars (lstrip chars s).

(** [s.split(sep)] for a separator of one character. *)
Fixpoint split (sep : ascii) (s : string) : list string :=
  match s with
  | EmptyString => [EmptyString]
  | String c r =>
      if Ascii.eqb c sep then EmptyString :: split sep r
      else match split sep r with
           | h :: t => String c h :: t
           | [] => [String c EmptyString]
           end
  end.

(** [sep.join(l)] *)
Fixpoint join (sep : string) (l : list string) : string :=
  match l with
  | [] => EmptyString
  | [s] => s
  | s :: l' => s ++ sep ++ join sep l'
  end.

End PyStr.

(* ================================================================== *)
(** * Regular expressions and [fullmatch]

    The patterns of the module use literals, one character class,
    grouping, [?] and [+] only.  For such patterns the backtracking search
    of [re] finds a match whenever one exists, so [fullmatch] decides
    membership in the language of the pattern; it is computed here with
    derivatives. *)

Module Re.

Inductive regex : Type :=
| Void                              (* matches nothing *)
| Eps                               (* the empty string *)
| Chr (c : ascii)                   (* a literal character *)
| Rng (lo hi : ascii)               (* a class [lo-hi] *)
| Cat (r1 r2 : regex)
| Alt (r1 r2 : regex)
| Star (r : regex).

Definition Opt (r : regex) : regex := Alt r Eps.      (* r? *)
Definition Plus (r : regex) : regex := Cat r (Star r). (* r+ *)

Definition in_range (lo hi c : ascii) : bool :=
  (nat_of_ascii lo <=? nat_of_ascii c)%nat && (nat_of_ascii c <=? nat_of_ascii hi)%nat.

Fixpoint nullable (r : regex) : bool :=
  match r with
  | Void => false
  | Eps => true
  | Chr _ => false
  | Rng _ _ => false
  | Cat r1 r2 => nullable r1 && nullable r2
  | Alt r1 r2 => nullable r1 || nullable r2
  | Star _ => true
  end.

Fixpoint deriv (c : ascii) (r : regex) : regex :=
  match r with
  | Void => Void
  | Eps => Void
  | Chr d => if Ascii.eqb c d then Eps else Void
  | Rng lo hi => if in_range lo hi c then Eps else Void
  | Cat r1 r2 =>
      if nullable r1 then Alt (Cat (deriv c r1) r2) (deriv c r2)
      else Cat (deriv c r1) r2
  | Alt r1 r2 => Alt (deriv c r1) (deriv c r2)
  | Star r1 => Cat (deriv c r1) (Star r1)
  end.

(** [pattern.fullmatch(s)], as a truth value. *)
Fixpoint fullmatch (r : regex) (s : string) : bool :=
  match s with
  | EmptyString => nullable r
  | String c s' => fullmatch (deriv c r) s'
  end.

(** The language of a pattern. *)
Inductive matches : regex -> string -> Prop :=
| MEps : matches Eps EmptyString
| MChr c : matches (Chr c) (String c EmptyString)
| MRng lo hi c : in_range lo hi c = true -> matches (Rng lo hi) (String c EmptyString)
| MCat r1 r2 s1 s2 : matches r1 s1 -> matches r2 s2 -> matches (Cat r1 r2) (s1 ++ s2)
| MAltL r1 r2 s : matches r1 s -> matches (Alt r1 r2) s
| MAltR r1 r2 s : matches r2 s -> matches (Alt r1 r2) s
| MStar0 r : matches (Star r) EmptyString
| MStarS r s1 s2 : matches r s1 -> matches (Star r) s2 -> matches (Star r) (s1 ++ s2).

End Re.

Import Re.

(** [number_regex = r"(\-|\+)?[0-9]+(\.[0-9]+)?(e-?[0-9]+(\.[0-9]+)?)?"] *)
Definition digit_class : regex := Rng "0" "9".

Definition number_regex : regex :=
  Cat (Opt (Alt (Chr "-") (Chr "+")))
 (Cat (Plus digit_class)
 (Cat (Opt (Cat (Chr ".") (Plus digit_class)))
      (Opt (Cat (Chr "e")
           (Cat (Opt (Chr "-"))
           (Cat (Plus digit_class)
                (Opt (Cat (Chr ".") (Plus digit_class))))))))).

(** [re_matrix = r'(\[({number},{number}(;?))+\])\n?'] *)
Definition re_matrix : regex :=
  Cat (Cat (Chr "[")
      (Cat (Plus (Cat number_regex
                 (Cat (Chr ",")
                 (Cat number_regex (Opt (Chr ";"))))))
           (Chr "]")))
      (Opt (Chr PyStr.newline)).

(** [re_array = r'(\[({number}(;?))+\])\n?'] *)
Definition re_array : regex :=
  Cat (Cat (Chr "[")
      (Cat (Plus (Cat number_regex (Opt (Chr ";"))))
           (Chr "]")))
      (Opt (Chr PyStr.newline)).

(** [re_number = r'{number}\n?'] *)
Definition re_number : regex :=
  Cat number_regex (Opt (Chr PyStr.newline)).

(* ================================================================== *)
(** * [float(x)] on a string

    Modelled: optional surrounding white space, an optional sign, digits
    with an optional point (digits on at least one side of it), an optional
    exponent [e] or [E] with an optional sign.  Everything else is a
    [ValueError].  The literals [inf], [nan] and digit-group underscores,
    which [float] also accepts, contain characters that none of
    the patterns above admits; they are outside the model. *)

Module PyFloat.

Definition whitespace : string :=
  String " " (String "009" (String "010" (String "011" (String "012"
    (String "013" EmptyString))))).

Definition is_digit (c : ascii) : bool := Re.in_range "0" "9" c.

Definition digit_val (c : ascii) : Z := Z.of_nat (nat_of_ascii c) - 48.

(** The longest prefix made of digits, and what follows it. *)
Fixpoint span_digits (s : string) : string * string :=
  match s with
  | EmptyString => (EmptyString, EmptyString)
  | String c r =>
      if is_digit c then let (ds, rest) := span_digits r in (String c ds, rest)
      else (EmptyString, s)
  end.

Fixpoint digits_val (acc : Z) (ds : string) : Z :=
  match ds with
  | EmptyString => acc
  | String c r => digits_val (10 * acc + digit_val c) r
  end.

Definition take_sign (s : string) : bool * string :=
  match s with
  | String c r =>
      if Ascii.eqb c "-" then (true, r)
      else if Ascii.eqb c "+" then (false, r)
      else (false, s)
  | EmptyString => (false, s)
  end.

Definition signed (neg : bool) (z : Z) : Z := if neg then (- z)%Z else z.

(** [m * 10^e], in lowest terms. *)
Definition scale10 (m e : Z) : Q := Qred (inject_Z m * Qpower 10 e).

(** The exponent part: nothing, or [e], a sign and digits up to the end. *)
Definition exponent (s : string) : option Z :=
  match s with
  | EmptyString => Some 0%Z
  | String c r =>
      if Ascii.eqb c "e" || Ascii.eqb c "E" then
        let (neg, r1) := take_sign r in
        let (ds, r2) := span_digits r1 in
        if PyStr.is_empty ds || negb (PyStr.is_empty r2) then None
        else Some (signed neg (digits_val 0 ds))
      else None
  end.

Definition parse (s : string) : option Q :=
  let (neg, s1) := take_sign (PyStr.strip whitespace s) in
  let (ip, s2) := span_digits s1 in
  let (fp, s3) :=
    match s2 with
    | String c r => if Ascii.eqb c "." then span_digits r else (EmptyString, s2)
    | EmptyString => (EmptyString, s2)
    end in
  if PyStr.is_empty ip && PyStr.is_empty fp then None
  else match exponent s3 with
       | None => None
       | Some e =>
           Some (scale10 (signed neg (digits_val 0 (ip ++ fp)))
                         (e - Z.of_nat (String.length fp)))
       end.

End PyFloat.

(** What [Device.command] hands to a formatter: [None] or the text read. *)
Definition raw : Type := option string.

(** [float(x)] *)
Definition py_float (x : raw) : result Q :=
  match x with
  | None => Raise TypeError
  | Some s => match PyFloat.parse s with
              | Some q => Return q
              | None => Raise ValueError
              end
  end.

(* ================================================================== *)
(** * Response formatters *)

(** The values a formatter returns.  For a list of numbers, and for rows
    of one common length, [numpy.array(data)] and the plain [data] of the
    fallback hold the same numbers; both are [VArray] or [VMatrix] of those
    numbers.  What [numpy.array] makes of rows of different lengths depends
    on the library and is not stated here. *)
Inductive value : Type :=
| VNone
| VStr (s : string)
| VFloat (q : Q)
| VArray (data : list Q)
| VMatrix (data : list (list Q))
| VLines (l : list string).

Definition value_of_raw (x : raw) : value :=
  match x with None => VNone | Some s => VStr s end.

(** A method call on the response: [None] has no [strip]. *)
Definition as_str (x : raw) : result string :=
  match x with None => Raise AttributeError | Some s => Return s end.

Definition framing : string := String PyStr.newline "[];".       (* '\n[];' *)
Definition text_framing : string := String PyStr.newline ";[]".  (* '\n;[]' *)

Definition process_strip (x : raw) : result value :=
  rbind (as_str x) (fun s => Return (VStr (PyStr.strip framing s))).

Definition process_array (x : raw) : result value :=
  rbind (as_str x) (fun s =>
  rbind (rmap (fun y => py_float (Some y))
              (PyStr.split ";" (PyStr.strip framing s))) (fun data =>
  Return (VArray data))).

Definition process_matrix (x : raw) : result value :=
  rbind (as_str x) (fun s =>
  rbind (rmap (fun y => rmap (fun z => py_float (Some z)) (PyStr.split "," y))
              (PyStr.split ";" (PyStr.strip framing s))) (fun data =>
  Return (VMatrix data))).

Definition process_auto (x : raw) : result value :=
  match x with
  | None => Return VNone
  | Some s =>
      if Re.fullmatch re_matrix s then process_matrix x
      else if Re.fullmatch re_array s then process_array x
      else if Re.fullmatch re_number s then rbind (py_float x) (fun q => Return (VFloat q))
      else if PyStr.mem PyStr.newline s then
        let split_string :=
          PyStr.split PyStr.newline (PyStr.strip text_framing s) in
        if (List.length split_string <? 2)%nat then
          match split_string with
          | h :: _ => Return (VStr h)
          | [] => Raise IndexError
          end
        else Return (VLines split_string)
      else Return (VStr s)
  end.

Definition formatter : Type := raw -> result value.

Definition _default_formatter : formatter := fun x => Return (value_of_raw x).

(** [Device.formatters], in the order of the dict literal. *)
Definition formatters : list (string * formatter) :=
  [ ("strip", process_strip);
    ("array", process_array);
    ("matrix", process_matrix);
    ("number", fun x => rbind (py_float x) (fun q => Return (VFloat q)));
    ("none", fun x => Return (value_of_raw x));
    ("auto", process_auto) ].

(** [d.get(key, default)]; the key may be any object, [None] included. *)
Fixpoint dict_get {V : Type} (d : list (string * V)) (key : option string) (default : V) : V :=
  match key, d with
  | Some k, (k', v) :: d' => if String.eqb k k' then v else dict_get d' key default
  | _, _ => default
  end.

(* ================================================================== *)
(** * Transports

    The stream under a transport is a script: [conn_send] says what the
    coming [send]/[write] calls do, [conn_recv] what the coming
    [recv]/[readline] calls do.  When a script is used up, sending succeeds
    and receiving finds nothing more (a time-out for ever). *)

Inductive send_step : Type :=
| SendOk
| SendRaise (e : exn).

Inductive recv_step : Type :=
| RecvData (s : string)
| RecvRaise (e : exn).

Inductive endpoint : Type :=
| SocketEnd (host : string) (port : Z)
| SerialEnd (port : string).

Record Connection : Type := mkConnection {
  conn_id : nat;                 (* which object this is *)
  conn_end : endpoint;
  conn_open : bool;
  conn_send : list send_step;
  conn_recv : list recv_step
}.

Definition set_send (k : list send_step) (c : Connection) : Connection :=
  mkConnection (conn_id c) (conn_end c) (conn_open c) k (conn_recv c).

Definition set_recv (k : list recv_step) (c : Connection) : Connection :=
  mkConnection (conn_id c) (conn_end c) (conn_open c) (conn_send c) k.

(** [socket.send(cmd)] and [Serial.write(cmd)]: a closed stream fails at
    once. *)
Definition stream_send (c : Connection) : result unit * Connection :=
  if negb (conn_open c) then (Raise OSError, c)
  else match conn_send c with
       | [] => (Return tt, c)
       | SendOk :: k => (Return tt, set_send k c)
       | SendRaise e :: k => (Raise e, set_send k c)
       end.

(** [SocketConnection.read], first loop:
    [while retval is empty: try: retval = retval + recv() except timeout: continue] *)
Fixpoint socket_wait (script : list recv_step) : result string * list recv_step :=
  match script with
  | [] => (Hang, [])
  | RecvData s :: k => if PyStr.is_empty s then socket_wait k else (Return s, k)
  | RecvRaise SocketTimeout :: k => socket_wait k
  | RecvRaise e :: k => (Raise e, k)
  end.

(** Second loop:
    [while True: try: retval = retval + recv() except timeout: break] *)
Fixpoint socket_drain (retval : string) (script : list recv_step)
  : result string * list recv_step :=
  match script with
  | [] => (Return retval, [])
  | RecvData s :: k => socket_drain (retval ++ s) k
  | RecvRaise SocketTimeout :: k => (Return retval, k)
  | RecvRaise e :: k => (Raise e, k)
  end.

Definition SocketConnection_read (c : Connection) (wait : bool)
  : result string * Connection :=
  if negb (conn_open c) then (Raise OSError, c)
  else
    let (first, k) :=
      if wait then socket_wait (conn_recv c) else (Return EmptyString, conn_recv c) in
    match first with
    | Return retval => let (r, k') := socket_drain retval k in (r, set_recv k' c)
    | Raise e => (Raise e, set_recv k c)
    | Hang => (Hang, set_recv k c)
    end.

(** [SerialConnection.read]: one [readline] when waiting, nothing otherwise. *)
Definition SerialConnection_read (c : Connection) (wait : bool)
  : result string * Connection :=
  if wait then
    if negb (conn_open c) then (Raise OSError, c)
    else match conn_recv c with
         | [] => (Return EmptyString, c)
         | RecvData s :: k => (Return s, set_recv k c)
         | RecvRaise e :: k => (Raise e, set_recv k c)
         end
  else (Return EmptyString, c).

Definition conn_write (c : Connection) (cmd : string) : result unit * Connection :=
  stream_send c.

Definition conn_read (c : Connection) (wait : bool) : result string * Connection :=
  match conn_end c with
  | SocketEnd _ _ => SocketConnection_read c wait
  | SerialEnd _ => SerialConnection_read c wait
  end.

Definition conn_close (c : Connection) : Connection :=
  mkConnection (conn_id c) (conn_end c) false (conn_send c) (conn_recv c).

(** [connections.remove(conn)]: the first entry that is the object [conn]. *)
Fixpoint remove_conn (id : nat) (l : list Connection) : list Connection :=
  match l with
  | [] => []
  | c :: l' => if Nat.eqb (conn_id c) id then l' else c :: remove_conn id l'
  end.

(* ================================================================== *)
(** * Command tokens *)

Inductive token : Type :=
| TStr (s : string)
| TInt (z : Z).

(** [str(x)] *)
Definition str (t : token) : string :=
  match t with
  | TStr s => s
  | TInt z => NilZero.string_of_int (Z.to_int z)
  end.

(* ================================================================== *)
(** * Device *)

(** A task handed to the worker pool: [_async_call(command, formatter)],
    and the callback (named by a number) to run on its result. *)
Record task : Type := mkTask {
  task_command : string;
  task_formatter : formatter;
  task_callback : option nat
}.

(** The device object, with a record of what it did to the outside:
    [sent] lists the data written to transports (with the transport's
    [conn_id]), [closed] the transports closed, [slept] the calls of
    [time.sleep] (in microseconds), [logged] the error messages.  Delays
    are non-negative by type; [time.sleep] of a negative number would
    raise. *)
Record Device : Type := mkDevice {
  connections : list Connection;
  lock_held : bool;                (* _in_progress_lock *)
  pool_shutdown : bool;            (* _thread_pool *)
  pool_queue : list task;
  sent : list (nat * string);
  closed : list nat;
  slept : list N;
  logged : list string
}.

Definition set_connections (l : list Connection) (d : Device) : Device :=
  mkDevice l (lock_held d) (pool_shutdown d) (pool_queue d) (sent d) (closed d) (slept d) (logged d).

Definition set_lock (b : bool) (d : Device) : Device :=
  mkDevice (connections d) b (pool_shutdown d) (pool_queue d) (sent d) (closed d) (slept d) (logged d).

Definition enqueue (t : task) (d : Device) : Device :=
  mkDevice (connections d) (lock_held d) (pool_shutdown d) (pool_queue d ++ [t])%list
           (sent d) (closed d) (slept d) (logged d).

Definition record_sent (id : nat) (data : string) (d : Device) : Device :=
  mkDevice (connections d) (lock_held d) (pool_shutdown d) (pool_queue d)
           (sent d ++ [(id, data)])%list (closed d) (slept d) (logged d).

Definition sleep (t : N) (d : Device) : Device :=
  mkDevice (connections d) (lock_held d) (pool_shutdown d) (pool_queue d)
           (sent d) (closed d) (slept d ++ [t])%list (logged d).

Definition record_closed (id : nat) (d : Device) : Device :=
  mkDevice (connections d) (lock_held d) (pool_shutdown d) (pool_queue d)
           (sent d) (closed d ++ [id])%list (slept d) (logged d).

Definition log_error (msg : string) (d : Device) : Device :=
  mkDevice (connections d) (lock_held d) (pool_shutdown d) (pool_queue d)
           (sent d) (closed d) (slept d) (logged d ++ [msg])%list.

(** [Device.__init__(addr, port)]: a socket when [port] is truthy, else a
    serial port when [addr] is truthy, else no transport. *)
Definition Device_init (addr : option string) (port : option Z) : result Device :=
  let fresh conns := mkDevice conns false false [] [] [] [] [] in
  let port_given := match port with Some p => negb (p =? 0)%Z | None => false end in
  let addr_given := match addr with Some a => negb (PyStr.is_empty a) | None => false end in
  if port_given then
    match addr, port with
    | Some a, Some p => Return (fresh [mkConnection 0 (SocketEnd a p) true [] []])
    | _, _ => Raise TypeError
    end
  else if addr_given then
    match addr with
    | Some a => Return (fresh [mkConnection 0 (SerialEnd a) true [] []])
    | None => Raise TypeError
    end
  else Return (fresh []).

Definition add_connection (c : Connection) (d : Device) : Device :=
  set_connections (connections d ++ [c])%list d.

Definition no_connection_message (cmd : string) : string :=
  "Can't send command '" ++ cmd ++ "'            because there are no open connections".

(** The [except ConnectionError] clause of [command]. *)
Definition command_failed {A : Type} (e : exn) (conn : Connection) (rest : list Connection)
    (d : Device) : result A * Device :=
  if is_connection_error e then
    (Raise e, set_connections (remove_conn (conn_id conn) (conn_close conn :: rest))
                              (record_closed (conn_id conn) d))
  else (Raise e, set_connections (conn :: rest) d).

(** [Device.command(command, returns, sleep_time)].  The body of the [for]
    loop returns or raises in its first iteration, so the loop is a case on
    the list. *)
Definition command (cmd : string) (returns : bool) (sleep_time : option N) (d : Device)
  : result raw * Device :=
  let d0 := match sleep_time with Some t => sleep t d | None => d end in
  match connections d0 with
  | [] => (Return None, log_error (no_connection_message cmd) d0)
  | conn :: rest =>
      match conn_write conn cmd with
      | (Return _, c1) =>
          let d1 := record_sent (conn_id conn) cmd d0 in
          match conn_read c1 returns with
          | (Return text, c2) => (Return (Some text), set_connections (c2 :: rest) d1)
          | (Raise e, c2) => command_failed e c2 rest d1
          | (Hang, c2) => (Hang, set_connections (c2 :: rest) d1)
          end
      | (Raise e, c1) => command_failed e c1 rest d0
      | (Hang, c1) => (Hang, set_connections (c1 :: rest) d0)
      end
  end.

(** [with self._in_progress_lock: return body].  A lock that is already
    held, with nobody else running to release it, blocks for ever. *)
Definition with_lock {A : Type} (body : Device -> result A * Device) (d : Device)
  : result A * Device :=
  if lock_held d then (Hang, d)
  else
    let (r, d') := body (set_lock true d) in
    match r with
    | Hang => (Hang, d')
    | _ => (r, set_lock false d')
    end.

Definition apply_formatter (f : formatter) (p : result raw * Device)
  : result value * Device :=
  (rbind (fst p) f, snd p).

(** The keyword arguments of [Device.__call__]. *)
Record call_opts : Type := mkOpts {
  format : option string;
  response : bool;
  callback : option nat;
  spawn_thread : bool;
  sleep_time : option N
}.

Definition default_sleep : option N := Some 1000%N.   (* 0.001 s *)

Definition default_opts : call_opts := mkOpts (Some "auto") true None false default_sleep.

Definition is_some {A : Type} (o : option A) : bool :=
  match o with Some _ => true | None => false end.

(** What [__call__] returns: a formatted value, or the future of a task. *)
Inductive returned : Type :=
| Value (v : value)
| Future (t : task).

(** [ThreadPoolExecutor.submit] *)
Definition submit (t : task) (d : Device) : result returned * Device :=
  if pool_shutdown d then (Raise RuntimeError, d)
  else (Return (Future t), enqueue t d).

(** [Device._async_call(command, formatter)] *)
Definition _async_call (cmd : string) (f : formatter) (d : Device) : result value * Device :=
  with_lock (fun d' => apply_formatter f (command cmd true default_sleep d')) d.

(** The synchronous branch of [__call__], once the command string and the
    formatter are chosen. *)
Definition sync_call (cmd : string) (f : formatter) (returns : bool) (st : option N)
    (d : Device) : result value * Device :=
  with_lock (fun d' => apply_formatter f (command cmd returns st d')) d.

Definition command_string (args : list token) : string :=
  PyStr.join " " (map str args).

Definition chosen_formatter (o : call_opts) : formatter :=
  if response o || is_some (callback o)
  then dict_get formatters (format o) _default_formatter
  else _default_formatter.

(** [Device.__call__( *args, format, response, callback, spawn_thread, sleep_time)] *)
Definition Device_call (args : list token) (o : call_opts) (d : Device)
  : result returned * Device :=
  let returns := response o || is_some (callback o) in
  let cmd := command_string args in
  let f := chosen_formatter o in
  if spawn_thread o || is_some (callback o) then
    submit (mkTask cmd f (callback o)) d
  else
    let (r, d') := sync_call cmd f returns (sleep_time o) d in
    (rbind r (fun v => Return (Value v)), d').

(** A worker of the pool runs a task. *)
Definition run_task (t : task) (d : Device) : result value * Device :=
  _async_call (task_command t) (task_formatter t) d.

Definition set_queue (q : list task) (d : Device) : Device :=
  mkDevice (connections d) (lock_held d) (pool_shutdown d) q
           (sent d) (closed d) (slept d) (logged d).

(** A worker takes the oldest task of the queue and runs it; [None] when
    the queue is empty. *)
Definition run_next (d : Device) : option (result value * Device) :=
  match pool_queue d with
  | [] => None
  | t :: q => Some (run_task t (set_queue q d))
  end.

(* ================================================================== *)
(** * CommandBuilder

    A builder holds a reference to a list object and appends to it in
    place; several builders may hold the same list.  The lists live in a
    heap. *)

Record heap : Type := mkHeap {
  cells : nat -> list token;
  next : nat                         (* the first unused reference *)
}.

Definition alloc (v : list token) (h : heap) : nat * heap :=
  (next h, mkHeap (fun l => if Nat.eqb l (next h) then v else cells h l) (S (next h))).

(** [list.append], in place. *)
Definition append_at (l : nat) (t : token) (h : heap) : heap :=
  mkHeap (fun l' => if Nat.eqb l' l then (cells h l ++ [t])%list else cells h l') (next h).

(** The owning device is the one whose state is threaded through
    [builder_call]; the record keeps the reference to the token list. *)
Record CommandBuilder : Type := mkBuilder {
  cb_command : nat
}.

(** [b.command], the token sequence held now. *)
Definition tokens (h : heap) (b : CommandBuilder) : list token :=
  cells h (cb_command b).

(** ['__' in name] *)
Fixpoint has_dunder (name : string) : bool :=
  match name with
  | String a r =>
      match r with
      | String b _ => (Ascii.eqb a "_" && Ascii.eqb b "_") || has_dunder r
      | EmptyString => false
      end
  | EmptyString => false
  end.

Fixpoint name_in (name : string) (l : list string) : bool :=
  match l with
  | [] => false
  | n :: l' => String.eqb name n || name_in name l'
  end.

(** The names of [object.__dir__(self)] without a double underscore. *)
Definition builder_dir : list string := ["device"; "command"; "dup"].

Definition device_dir : list string :=
  ["connections"; "_in_progress_lock"; "_thread_pool"; "formatters";
   "connection"; "in_progress"; "add_connection"; "command"; "close";
   "serial"; "_default_formatter"; "_async_call"; "discover";
   "USB"; "fromUSB"; "openUSB"; "COM"; "fromCOM"; "openCOM";
   "Network"; "fromNetwork"; "openNetwork"; "first"].

(** An attribute access gives a builder or an ordinary member. *)
Inductive attribute : Type :=
| Builder (b : CommandBuilder)
| Member (name : string).

(** [CommandBuilder.__init__(device, command)]: [self.command = command or []] *)
Definition CommandBuilder_init (command : option nat) (h : heap) : CommandBuilder * heap :=
  match command with
  | Some l =>
      match cells h l with
      | [] => let (l', h') := alloc [] h in (mkBuilder l', h')
      | _ :: _ => (mkBuilder l, h)
      end
  | None => let (l', h') := alloc [] h in (mkBuilder l', h')
  end.

(** [Device.__getitem__(x)]: [CommandBuilder(self, [x])] *)
Definition Device_getitem (x : token) (h : heap) : CommandBuilder * heap :=
  let (l, h1) := alloc [x] h in CommandBuilder_init (Some l) h1.

(** [Device.__getattribute__(x)] *)
Definition Device_getattribute (x : string) (h : heap) : attribute * heap :=
  if has_dunder x || name_in x device_dir then (Member x, h)
  else let (b, h') := Device_getitem (TStr x) h in (Builder b, h').

(** [CommandBuilder.__getitem__(value)] *)
Definition CommandBuilder_getitem (b : CommandBuilder) (v : token) (h : heap)
  : CommandBuilder * heap :=
  (b, append_at (cb_command b) v h).

(** [CommandBuilder.__getattribute__(name)] *)
Definition CommandBuilder_getattribute (b : CommandBuilder) (name : string) (h : heap)
  : attribute * heap :=
  if has_dunder name || name_in name builder_dir then (Member name, h)
  else (Builder b, append_at (cb_command b) (TStr name) h).

(** [CommandBuilder.dup()]: [CommandBuilder(self.device, list(self.command))] *)
Definition dup (b : CommandBuilder) (h : heap) : CommandBuilder * heap :=
  let (l, h1) := alloc (tokens h b) h in CommandBuilder_init (Some l) h1.

(** [CommandBuilder.__call__( *args, **kwargs)]:
    [self.device( *self.command, *args, **kwargs)] *)
Definition builder_call (b : CommandBuilder) (args : list token) (o : call_opts)
    (h : heap) (d : Device) : result returned * Device :=
  Device_call (tokens h b ++ args)%list o d.

(** One step of a chain: an attribute access or an index. *)
Inductive step_op : Type :=
| ByAttr (name : string)
| ByIndex (v : token).

Definition step (b : CommandBuilder) (op : step_op) (h : heap) : heap :=
  match op with
  | ByAttr name => snd (CommandBuilder_getattribute b name h)
  | ByIndex v => snd (CommandBuilder_getitem b v h)
  end.

(** The tokens a step appends: none for a name that is a member. *)
Definition appended (op : step_op) : list token :=
  match op with
  | ByAttr name => if has_dunder name || name_in name builder_dir then [] else [TStr name]
  | ByIndex v => [v]
  end.

(** Steps taken on two builders in any interleaving: [true] steps the
    first, [false] the second. *)
Fixpoint steps (b1 b2 : CommandBuilder) (ops : list (bool * step_op)) (h : heap) : heap :=
  match ops with
  | [] => h
  | (which, op) :: ops' => steps b1 b2 ops' (step (if which then b1 else b2) op h)
  end.

Definition appended_to (which : bool) (ops : list (bool * step_op)) : list token :=
  flat_map (fun p => if Bool.eqb (fst p) which then appended (snd p) else []) ops.

(* ================================================================== *)
(** * The serial number *)

Local Open Scope Z_scope.

Record serial_fields : Type := mkSerial {
  board_number : Z;
  week : Z;
  year : Z;
  model : Z;
  product : Z
}.

(** The getter of [Device.serial], from the integer read off the device. *)
Definition serial_decode (_serial : Z) : serial_fields :=
  mkSerial (Z.land _serial 0x00000000FFFF)
           (Z.shiftr (Z.land _serial 0x0000003F0000) 16)
           (Z.shiftr (Z.land _serial 0x00003FC00000) 22)
           (Z.shiftr (Z.land _serial 0x003FC0000000) 30)
           (Z.shiftr (Z.land _serial 0xFFC000000000) 38).

(** [serial_dict]: any key may be absent. *)
Record serial_dict : Type := mkSerialDict {
  sd_board_number : option Z;
  sd_week : option Z;
  sd_year : option Z;
  sd_model : option Z;
  sd_product : option Z
}.

Definition get_or (o : option Z) (default : Z) : Z :=
  match o with Some v => v | None => default end.

(** The setter of [Device.serial] up to the packed word; [now_week] and
    [now_year] are [int(dt.strftime('%W'))] and [dt.year]. *)
Definition serial_encode (now_week now_year : Z) (sd : serial_dict) : Z :=
  let week := get_or (sd_week sd) now_week in
  let year := get_or (sd_year sd) (now_year - 2000) in
  let model := get_or (sd_model sd) 0 in
  let product := get_or (sd_product sd) 0 in
  let board := get_or (sd_board_number sd) 0 in
  let _serial := 0x000000000000 in
  let _serial := Z.lor _serial (Z.land board 0xffff) in
  let _serial := Z.lor _serial (Z.shiftl (Z.land week 0x3f) 16) in
  let _serial := Z.lor _serial (Z.shiftl (Z.land year 0xff) 22) in
  let _serial := Z.lor _serial (Z.shiftl (Z.land model 0xff) 30) in
  let _serial := Z.lor _serial (Z.shiftl (Z.land product 0x3ff) 38) in
  _serial.

Definition dict_of_fields (f : serial_fields) : serial_dict :=
  mkSerialDict (Some (board_number f)) (Some (week f)) (Some (year f))
               (Some (model f)) (Some (product f)).

(** The loop of the setter: [eeprom.set(16383-i, _serial & 0xff)] for
    [i] in [range(6)], as (address, byte) pairs. *)
Fixpoint eeprom_writes (n : nat) (i : Z) (_serial : Z) : list (Z * Z) :=
  match n with
  | O => []
  | S n' => (16383 - i, Z.land _serial 0xff) :: eeprom_writes n' (i + 1) (Z.shiftr _serial 8)
  end.

(* ================================================================== *)
(** * Discovery

    Time is a number of clock ticks.  The platform is a list of the reply
    datagrams in order of arrival; each says when it arrives, from where,
    and how the connection that [Device(addr, port=8888)] opens to its
    sender goes. *)

Record reply : Type := mkReply {
  reply_at : Z;                      (* arrival time *)
  reply_from : string * Z;           (* ip_addr = (host, port) *)
  connect_takes : Z;                 (* duration of the TCP connect *)
  connect_fails : option exn
}.

(** The loop of [discover].  [now] is the clock, [start_time] the variable
    of that name.  [recvfrom] returns the next datagram if it arrives
    within [timeout] of the call, and raises [socket.timeout] otherwise,
    which ends the loop.  An address pair is never falsy, so [start_time]
    is reset at every reply.  [Device(...)] is built inside the [try]: a
    connection that fails raises out of [discover], unless the error is
    [socket.timeout], which the [except] clause takes like the one of
    [recvfrom]: the loop ends and the devices found are returned. *)
Fixpoint discover_loop (timeout now start_time : Z) (inbox : list reply)
    (devices : list Device) : result (list Device) :=
  if now >? start_time + timeout then Return devices
  else
    match inbox with
    | [] => Return devices
    | r :: inbox' =>
        if reply_at r >? now + timeout then Return devices
        else
          let now1 := Z.max now (reply_at r) in
          match connect_fails r with
          | Some SocketTimeout => Return devices
          | Some e => Raise e
          | None =>
              rbind (Device_init (Some (fst (reply_from r))) (Some 8888)) (fun dev =>
              discover_loop timeout (now1 + connect_takes r) now1 inbox'
                            (devices ++ [dev])%list)
          end
    end.

(** [Device.discover(broadcast_address, timeout)], the probe being sent at
    time [t0]. *)
Definition discover (timeout t0 : Z) (inbox : list reply) : result (list Device) :=
  discover_loop timeout t0 t0 inbox [].

(** The host a discovered device is connected to. *)
Definition device_host (d : Device) : option (string * Z) :=
  match connections d with
  | c :: _ => match conn_end c with
              | SocketEnd h p => Some (h, p)
              | SerialEnd _ => None
              end
  | [] => None
  end.

Local Close Scope Z_scope.

(* ================================================================== *)
(** * Concurrent callers

    Several callers use one device, each through the synchronous branch of
    [__call__] or through [_async_call] on a worker of the pool.  Both run

      [with self._in_progress_lock: return formatter(self.command(...))]

    and [command] sleeps, writes, then reads.  A caller is at one of the
    points below; a scheduler picks which caller moves next.  A step of a
    caller inside a transport call is the return of that call; a call that
    never returns is a caller that no schedule picks again, so the
    automaton says what can be observed at any moment, not that callers
    finish. *)

Module Interleaving.

Inductive path : Type :=
| SyncCall        (* the last three lines of [__call__] *)
| AsyncCall.      (* [_async_call], run by the pool *)

Inductive pc : Type :=
| AtAcquire       (* before [with]: waiting for the lock *)
| AtSleep         (* lock taken; [time.sleep] *)
| AtWrite         (* about to call [conn.write] *)
| InWrite         (* inside [conn.write] *)
| AtRead          (* about to call [conn.read] *)
| InRead          (* inside [conn.read] *)
| AtRelease       (* leaving [with], normally or by an exception *)
| Finished.

Inductive io : Type := WriteCall | ReadCall.

Inductive event : Type :=
| Acq (i : nat)
| Rel (i : nat)
| Begin (op : io) (i : nat)
| End (op : io) (i : nat).

Record state : Type := mkState {
  callers : list (path * pc);
  lock : option nat;             (* the caller holding the lock, if any *)
  trace : list event             (* oldest first *)
}.

(** The next point of a caller and the event it leaves.  [ok] says whether
    the call in progress succeeds; [has_conn] whether the device has a
    transport when [command] looks.  The two paths take the same steps. *)
Definition advance (i : nat) (p : path) (at_ : pc) (ok has_conn : bool)
  : option (pc * list event) :=
  match at_ with
  | AtAcquire => Some (AtSleep, [Acq i])
  | AtSleep => Some (if has_conn then AtWrite else AtRelease, [])
  | AtWrite => Some (InWrite, [Begin WriteCall i])
  | InWrite => Some (if ok then AtRead else AtRelease, [End WriteCall i])
  | AtRead => Some (InRead, [Begin ReadCall i])
  | InRead => Some (AtRelease, [End ReadCall i])
  | AtRelease => Some (Finished, [Rel i])
  | Finished => None
  end.

Fixpoint update {A : Type} (i : nat) (x : A) (l : list A) : list A :=
  match l, i with
  | [], _ => []
  | _ :: l', O => x :: l'
  | y :: l', S i' => y :: update i' x l'
  end.

(** Caller [i] takes one step, if it can: a caller at the [with] statement
    moves only when the lock is free. *)
Definition step (i : nat) (ok has_conn : bool) (s : state) : state :=
  match nth_error (callers s) i with
  | None => s
  | Some (p, at_) =>
      match at_, lock s with
      | AtAcquire, Some _ => s
      | _, _ =>
          match advance i p at_ ok has_conn with
          | None => s
          | Some (at', evs) =>
              mkState (update i (p, at') (callers s))
                      (match at_ with
                       | AtAcquire => Some i
                       | AtRelease => None
                       | _ => lock s
                       end)
                      (trace s ++ evs)
          end
      end
  end.

(** A schedule: who moves, and how the pending call and the transport
    list turn out. *)
Definition schedule : Type := list (nat * bool * bool).

Fixpoint run (sch : schedule) (s : state) : state :=
  match sch with
  | [] => s
  | (i, ok, has_conn) :: sch' => run sch' (step i ok has_conn s)
  end.

Definition initial (paths : list path) : state :=
  mkState (map (fun p => (p, AtAcquire)) paths) None [].

(** A caller is inside its cycle from taking the lock to giving it back. *)
Definition inside (at_ : pc) : bool :=
  match at_ with
  | AtAcquire | Finished => false
  | _ => true
  end.

Definition caller_inside (s : state) (i : nat) : bool :=
  match nth_error (callers s) i with
  | Some (_, at_) => inside at_
  | None => false
  end.

(** Reading a trace from the start: [Some h] when every event so far came
    from the caller that held the lock at that moment, [h] being the
    holder at the end; [None] as soon as one did not. *)
Definition scan_event (h : option (option nat)) (e : event) : option (option nat) :=
  match h, e with
  | Some None, Acq i => Some (Some i)
  | Some (Some j), Rel i => if Nat.eqb i j then Some None else None
  | Some (Some j), Begin _ i => if Nat.eqb i j then Some (Some j) else None
  | Some (Some j), End _ i => if Nat.eqb i j then Some (Some j) else None
  | _, _ => None
  end.

Definition scan (tr : list event) : option (option nat) :=
  fold_left scan_event tr (Some None).

(** No event of one caller falls inside the cycle of another. *)
Definition exclusive (tr : list event) : bool :=
  match scan tr with Some _ => true | None => false end.

(** The lock says who is inside, and the trace agrees with the lock. *)
Definition invariant (s : state) : Prop :=
  (forall i, caller_inside s i = true <-> lock s = Some i)
  /\ scan (trace s) = Some (lock s).

End Interleaving.

(* ================================================================== *)
(** * Decimal numerals

    The strings of the shape [sign] digits [. digits] [e [-] digits], built
    from their parts, and the number each one denotes. *)

Inductive digit : Type := D0 | D1 | D2 | D3 | D4 | D5 | D6 | D7 | D8 | D9.

Definition digit_char (d : digit) : ascii :=
  match d with
  | D0 => "0" | D1 => "1" | D2 => "2" | D3 => "3" | D4 => "4"
  | D5 => "5" | D6 => "6" | D7 => "7" | D8 => "8" | D9 => "9"
  end%char.

Definition digit_Z (d : digit) : Z :=
  match d with
  | D0 => 0 | D1 => 1 | D2 => 2 | D3 => 3 | D4 => 4
  | D5 => 5 | D6 => 6 | D7 => 7 | D8 => 8 | D9 => 9
  end%Z.

Fixpoint digits_string (ds : list digit) : string :=
  match ds with
  | [] => EmptyString
  | d :: ds' => String (digit_char d) (digits_string ds')
  end.

(** The natural number written by a row of digits, most significant first. *)
Definition number_of (ds : list digit) : Z :=
  fold_left (fun acc d => (10 * acc + digit_Z d)%Z) ds 0%Z.

(** One or more digits. *)
Definition digits1 : Type := (digit * list digit)%type.

Definition row (ds : digits1) : list digit := fst ds :: snd ds.

Inductive sign : Type := Minus | Plus_.

Record decimal : Type := mkDecimal {
  dec_sign : option sign;
  dec_int : digits1;
  dec_frac : option digits1;
  dec_exp : option (bool * digits1)      (* [true]: the exponent has a minus *)
}.

Definition sign_string (s : option sign) : string :=
  match s with
  | None => EmptyString
  | Some Minus => "-"
  | Some Plus_ => "+"
  end.

Definition render (n : decimal) : string :=
  sign_string (dec_sign n)
  ++ digits_string (row (dec_int n))
  ++ match dec_frac n with
     | Some f => "." ++ digits_string (row f)
     | None => EmptyString
     end
  ++ match dec_exp n with
     | Some (neg, e) => "e" ++ (if neg then "-" else EmptyString) ++ digits_string (row e)
     | None => EmptyString
     end.

(** The number denoted: sign * (integer part + fraction) * 10^exponent. *)
Definition decimal_value (n : decimal) : Q :=
  let sgn := match dec_sign n with Some Minus => (-1)%Z | _ => 1%Z end in
  let int_part := inject_Z (number_of (row (dec_int n))) in
  let frac_part :=
    match dec_frac n with
    | Some f => inject_Z (number_of (row f)) / inject_Z (10 ^ Z.of_nat (List.length (row f)))
    | None => 0
    end in
  let expo :=
    match dec_exp n with
    | Some (neg, e) => if neg then (- number_of (row e))%Z else number_of (row e)
    | None => 0%Z
    end in
  Qred (inject_Z sgn * ((int_part + frac_part) * Qpower 10 expo)).

(** The grammar of the specification,
    [sign]digits[.digits][e[sign]digits[.digits]], a sign being [+] or [-]. *)
Definition spec_decimal_grammar : regex :=
  let sign := Opt (Alt (Chr "-") (Chr "+")) in
  let digits := Plus digit_class in
  let fraction := Opt (Cat (Chr ".") digits) in
  Cat sign (Cat digits (Cat fraction
    (Opt (Cat (Chr "e") (Cat sign (Cat digits fraction)))))).

(* ================================================================== *)
(** * Devices used in examples *)

(** [Device()]: no transport. *)
Definition bare_device : Device := mkDevice [] false false [] [] [] [] [].

(** A device whose only transport, a socket, breaks at the next write. *)
Definition broken_device : Device :=
  mkDevice [mkConnection 0 (SocketEnd "10.0.0.5" 8888) true
                         [SendRaise ConnectionError] []]
           false false [] [] [] [] [].

(** A device on a serial port with one line, [ok], waiting to be read. *)
Definition serial_device : Device :=
  mkDevice [mkConnection 0 (SerialEnd "COM3") true []
                         [RecvData (String "o" (String "k" (String PyStr.newline EmptyString)))]]
           false false [] [] [] [] [].

(** A device on a socket with one answer, 4.98, on its way. *)
Definition ready_device : Device :=
  mkDevice [mkConnection 0 (SocketEnd "10.0.0.5" 8888) true [] [RecvData "4.98"]]
           false false [] [] [] [] [].

Definition empty_heap : heap := mkHeap (fun _ => []) 0.

(** The builder of [device.measure.voltage] and the heap it lives in. *)
Definition chain : CommandBuilder * heap :=
  match Device_getattribute "measure" empty_heap with
  | (Builder b, h1) => (b, snd (CommandBuilder_getattribute b "voltage" h1))
  | (Member _, h1) => (mkBuilder 0, h1)
  end.

(** [response=False, sleep_time=0.005], without and with [spawn_thread]. *)
Definition quiet_opts : call_opts := mkOpts (Some "auto") false None false (Some 5000%N).
Definition quiet_async_opts : call_opts := mkOpts (Some "auto") false None true (Some 5000%N).

(* ================================================================== *)
(** * Discovery: what a run of replies gives *)

(** The device that [Device(addr=host, port=8888)] builds. *)
Definition device_at (host : string) : Device :=
  mkDevice [mkConnection 0 (SocketEnd host 8888) true [] []] false false [] [] [] [] [].

(** Every reply comes within [timeout] of the previous moment of the clock,
    and every connection is made, within [timeout] as well. *)
Fixpoint paced (timeout now : Z) (inbox : list reply) : Prop :=
  match inbox with
  | [] => True
  | r :: inbox' =>
      (reply_at r <= now + timeout)%Z
      /\ (connect_takes r <= timeout)%Z
      /\ connect_fails r = None
      /\ paced timeout (Z.max now (reply_at r) + connect_takes r) inbox'
  end.

(** The hosts that replied, each once. *)
Definition distinct_hosts (inbox : list reply) : list string :=
  nodup string_dec (map (fun r => fst (reply_from r)) inbox).

(** One host answering the probe twice, at ticks 10 and 20. *)
Definition two_replies_one_host : list reply :=
  [mkReply 10 ("192.168.0.7", 8889%Z) 1 None;
   mkReply 20 ("192.168.0.7", 8889%Z) 1 None].

(* ================================================================== *)
(** * Notions used in the proofs *)

(** The pattern mentions no character [x]. *)
Fixpoint avoids (x : ascii) (r : regex) : bool :=
  match r with
  | Void | Eps => true
  | Chr c => negb (Ascii.eqb x c)
  | Rng lo hi => negb (in_range lo hi x)
  | Cat r1 r2 | Alt r1 r2 => avoids x r1 && avoids x r2
  | Star r1 => avoids x r1
  end.

(** The pattern mentions no newline. *)
Definition newline_free (r : regex) : bool := avoids PyStr.newline r.

(** [number_regex] after its optional sign. *)
Definition unsigned_number : regex :=
  match number_regex with
  | Cat _ rest => rest
  | _ => Void
  end.

(** The strings digits e+ digits. *)
Definition plus_exponent (a b : digits1) : string :=
  digits_string (row a) ++ "e+" ++ digits_string (row b).

(** A string that ends in a digit. *)
Definition ends_digit (s : string) : Prop :=
  exists pre d, s = pre ++ String (digit_char d) EmptyString.

(** What may follow a row of digits: nothing, or a character that is not
    a digit. *)
Definition stops (rest : string) : Prop :=
  match rest with
  | EmptyString => True
  | String c _ => PyFloat.is_digit c = false
  end.

(** The factor a sign stands for. *)
Definition sign_factor (s : option sign) : Z :=
  match s with Some Minus => (-1)%Z | _ => 1%Z end.

(** The device as [command] sees it once it has slept. *)
Definition rested (st : option N) (d : Device) : Device :=
  match st with Some t => sleep t d | None => d end.

(** The word that the setter packs from five fields. *)
Definition packed_word (b w y m p now_week now_year : Z) : Z :=
  serial_encode now_week now_year (dict_of_fields (mkSerial b w y m p)).

(* ================================================================== *)
(** * Framed numeric responses *)

(** An optional line terminator. *)
Definition terminator (nl : bool) : string :=
  if nl then String PyStr.newline EmptyString else EmptyString.

(** The text [n1;n2;...;nk] of a one-dimensional response. *)
Definition array_text (ns : list decimal) (nl : bool) : string :=
  "[" ++ PyStr.join ";" (map render ns) ++ "]" ++ terminator nl.

(** One row, n1,n2,...,nk. *)
Definition row_text (ns : list decimal) : string :=
  PyStr.join "," (map render ns).

(** The text [r1;r2;...;rk] of a two-dimensional response. *)
Definition matrix_text (rows : list (list decimal)) (nl : bool) : string :=
  "[" ++ PyStr.join ";" (map row_text rows) ++ "]" ++ terminator nl.

(** A row of exactly two numbers. *)
Definition pair_row (p : decimal * decimal) : list decimal := [fst p; snd p].

(** The characters a numeral is written with. *)
Definition numeral_char (c : ascii) : bool :=
  PyFloat.is_digit c || Ascii.eqb c "+" || Ascii.eqb c "-"
  || Ascii.eqb c "." || Ascii.eqb c "e".

(** A string that starts with a character outside [chars]. *)
Definition starts_clean (chars s : string) : Prop :=
  match s with
  | EmptyString => False
  | String c _ => PyStr.mem c chars = false
  end.

(** The groups that the array and the matrix pattern repeat. *)
Definition array_group : regex := Cat number_regex (Opt (Chr ";")).
Definition matrix_group : regex :=
  Cat number_regex (Cat (Chr ",") (Cat number_regex (Opt (Chr ";")))).

(** Numerals used in examples: 1.5e-3, -2 and 10. *)
Definition num_1_5e_3 : decimal :=
  mkDecimal None (D1, []) (Some (D5, [])) (Some (true, (D3, []))).
Definition num_minus_2 : decimal := mkDecimal (Some Minus) (D2, []) None None.
Definition num_10 : decimal := mkDecimal None (D1, [D0]) None None.

(** A string that ends with a character outside [chars]. *)
Definition ends_clean (chars s : string) : Prop :=
  exists pre c, s = pre ++ String c EmptyString /\ PyStr.mem c chars = false.

(** Every character of [s] is in [chars]. *)
Fixpoint all_in (chars s : string) : bool :=
  match s with
  | EmptyString => true
  | String c r => PyStr.mem c chars && all_in chars r
  end.

(* ================================================================== *)
(** * Closing a device *)

(** [Device.close()]: [_thread_pool.shutdown(wait=False, cancel_futures=True)],
    which refuses new tasks and cancels the queued ones, then [conn.close()]
    for every transport; the transports stay in the list. *)
Definition Device_close (d : Device) : Device :=
  mkDevice (map conn_close (connections d)) (lock_held d) true []
           (sent d) (closed d ++ map conn_id (connections d))%list
           (slept d) (logged d).

(** The names registered in [Device.formatters]. *)
Definition formatter_names : list string :=
  ["strip"; "array"; "matrix"; "number"; "none"; "auto"].

(** A device with two transports: a socket first, a serial port second. *)
Definition two_transport_device : Device :=
  mkDevice [mkConnection 0 (SocketEnd "10.0.0.5" 8888) true [] [RecvData "4.98"];
            mkConnection 1 (SerialEnd "COM3") true [] []]
           false false [] [] [] [] [].

(** A device whose socket times out at the next write. *)
Definition stalled_device : Device :=
  mkDevice [mkConnection 0 (SocketEnd "10.0.0.5" 8888) true
                         [SendRaise SocketTimeout] []]
           false false [] [] [] [] [].

(** [n] time-outs in a row. *)
Definition timeouts (n : nat) : list recv_step := repeat (RecvRaise SocketTimeout) n.

(** A step of a receive script that brings no data. *)
Definition brings_nothing (s : recv_step) : bool :=
  match s with
  | RecvData d => PyStr.is_empty d
  | RecvRaise SocketTimeout => true
  | RecvRaise _ => false
  end.

(** A socket with two time-outs, then the chunks 4., 9 and 8, a time-out,
    and one more chunk for later. *)
Definition chunked_socket : Connection :=
  mkConnection 0 (SocketEnd "10.0.0.5" 8888) true []
    (timeouts 2 ++ RecvData "4." :: map RecvData ["9"; "8"]
       ++ RecvRaise SocketTimeout :: [RecvData "later"]).

(** A device that has a task waiting in the queue of its pool. *)
Definition busy_device : Device :=
  mkDevice [mkConnection 0 (SocketEnd "10.0.0.5" 8888) true [] [RecvData "4.98"]]
           false false [mkTask "cloi" process_auto None] [] [] [] [].

(* ================================================================== *)
(** * Discovery: the clock *)

(** The clock once the loop of [discover], started at [now], has taken the
    replies of [inbox]. *)
Fixpoint clock_after (now : Z) (inbox : list reply) : Z :=
  match inbox with
  | [] => now
  | r :: inbox' => clock_after (Z.max now (reply_at r) + connect_takes r)%Z inbox'
  end.

(** The value of [start_time] at that moment. *)
Fixpoint start_after (now start_time : Z) (inbox : list reply) : Z :=
  match inbox with
  | [] => start_time
  | r :: inbox' =>
      start_after (Z.max now (reply_at r) + connect_takes r)%Z (Z.max now (reply_at r)) inbox'
  end.

(** The devices for the senders of [inbox], in order. *)
Definition devices_for (inbox : list reply) : list Device :=
  map (fun r => device_at (fst (reply_from r))) inbox.

(** Two hosts answer at ticks 10 and 20; a third answers at tick 500. *)
Definition early_replies : list reply :=
  [mkReply 10 ("192.168.0.7", 8889%Z) 1 None;
   mkReply 20 ("192.168.0.9", 8889%Z) 1 None].
Definition late_reply : reply := mkReply 500 ("192.168.0.11", 8889%Z) 1 None.
(** A host that answers at tick 30 and refuses the connection. *)
Definition refusing_reply : reply :=
  mkReply 30 ("192.168.0.11", 8889%Z) 1 (Some ConnectionError).
(** A host that answers at tick 30; the connection to it times out. *)
Definition unreachable_reply : reply :=
  mkReply 30 ("192.168.0.11", 8889%Z) 1 (Some SocketTimeout).
(** A host that answers at tick 30 and takes 150 ticks to connect to. *)
Definition slow_reply : reply := mkReply 30 ("192.168.0.11", 8889%Z) 150 None.

(* ================================================================== *)
(** * The bytes of the serial number *)

(** The number held by bytes, the least significant first. *)
Fixpoint bytes_value (bs : list Z) : Z :=
  match bs with
  | [] => 0
  | b :: bs' => b + 256 * bytes_value bs'
  end%Z.

(** The memory after the writes of the setter: the byte at each address,
    the last write to an address winning. *)
Definition eeprom_after (writes : list (Z * Z)) (mem : Z -> Z) : Z -> Z :=
  fold_left (fun m w addr => if (addr =? fst w)%Z then snd w else m addr) writes mem.

(** The word held at the six addresses of the serial number, the byte at
    16383 being the least significant. *)
Definition eeprom_word (mem : Z -> Z) : Z :=
  bytes_value (map mem [16383; 16382; 16381; 16380; 16379; 16378]%Z).

(* ================================================================== *)
(** * Chains of attributes *)

(** [b.n1.n2...nk]: each access gives the object on which the next one is
    made; a name that is a member ends the chain of builders. *)
Fixpoint chain_from (b : CommandBuilder) (names : list string) (h : heap)
  : attribute * heap :=
  match names with
  | [] => (Builder b, h)
  | n :: names' =>
      match CommandBuilder_getattribute b n h with
      | (Builder b', h') => chain_from b' names' h'
      | (Member m, h') => (Member m, h')
      end
  end.

(** [device.first.n1...nk] *)
Definition device_chain (first : string) (names : list string) (h : heap)
  : attribute * heap :=
  match Device_getattribute first h with
  | (Builder b, h') => chain_from b names h'
  | (Member m, h') => (Member m, h')
  end.

(** A name that an attribute access on a builder appends. *)
Definition builder_token (name : string) : bool :=
  negb (has_dunder name || name_in name builder_dir).

(** A name that an attribute access on a device turns into a builder. *)
Definition device_token (name : string) : bool :=
  negb (has_dunder name || name_in name device_dir).

(* ================================================================== *)
(** * The characters of a float *)

(** Every character of [s] satisfies [p]. *)
Fixpoint every (p : ascii -> bool) (s : string) : bool :=
  match s with
  | EmptyString => true
  | String c r => p c && every p r
  end.

(** The characters that [float] can accept in a decimal literal: digits,
    signs, the point, the exponent letter and white space. *)
Definition float_char (c : ascii) : bool :=
  PyFloat.is_digit c
  || Ascii.eqb c "+" || Ascii.eqb c "-" || Ascii.eqb c "."
  || Ascii.eqb c "e" || Ascii.eqb c "E"
  || PyStr.mem c PyFloat.whitespace.

(** The characters that some text accepted by Python's [float] can hold:
    those above, and the ones of the literals left out of [PyFloat]: the
    letters of [inf], [infinity] and [nan] in either case, the underscore
    between digits, the four separators that count as white space, and
    every character that is not ASCII. *)
Definition literal_char (c : ascii) : bool :=
  float_char c
  || PyStr.mem c "_infatyINFATY"
  || Re.in_range "028" "031" c
  || (128 <=? nat_of_ascii c)%nat.

(* ================================================================== *)
(** * Reading the serial number: [int('0x' + text, 16)]

    Modelled: after the prefix that the getter puts in front, hexadecimal
    digits in either case, at least one, then optional white space.
    Everything else is a [ValueError].  Underscores between digits, which
    [int] also accepts, are outside the model. *)

Module PyInt.

Definition hex_val (c : ascii) : option Z :=
  let n := Z.of_nat (nat_of_ascii c) in
  if Re.in_range "0" "9" c then Some (n - 48)%Z
  else if Re.in_range "a" "f" c then Some (n - 87)%Z
  else if Re.in_range "A" "F" c then Some (n - 55)%Z
  else None.

(** The digits read so far give [acc]; [seen] says whether there was one. *)
Fixpoint hex_digits (acc : Z) (seen : bool) (s : string) : option Z :=
  match s with
  | EmptyString => if seen then Some acc else None
  | String c r =>
      match hex_val c with
      | Some v => hex_digits (16 * acc + v)%Z true r
      | None => None
      end
  end.

(** [int('0x' + text, 16)] *)
Definition parse_prefixed (text : string) : option Z :=
  hex_digits 0 false (PyStr.rstrip PyFloat.whitespace text).

End PyInt.

(** The getter of [Device.serial]:
    [_serial = int('0x' + self('serial', format=None), 16)], then the
    fields.  Adding [None] to a string is a type error. *)
Definition serial_getter (d : Device) : result serial_fields * Device :=
  let (r, d') := Device_call [TStr "serial"] (mkOpts None true None false default_sleep) d in
  (rbind r (fun v =>
     match v with
     | Value (VStr text) =>
         match PyInt.parse_prefixed text with
         | Some _serial => Return (serial_decode _serial)
         | None => Raise ValueError
         end
     | _ => Raise TypeError
     end), d').

(** Hexadecimal digits, in either case. *)
Inductive hexit : Type :=
| X0 | X1 | X2 | X3 | X4 | X5 | X6 | X7 | X8 | X9
| Xa | Xb | Xc | Xd | Xe | Xf
| XA | XB | XC | XD | XE | XF.

Definition hexit_char (x : hexit) : ascii :=
  match x with
  | X0 => "0" | X1 => "1" | X2 => "2" | X3 => "3" | X4 => "4"
  | X5 => "5" | X6 => "6" | X7 => "7" | X8 => "8" | X9 => "9"
  | Xa => "a" | Xb => "b" | Xc => "c" | Xd => "d" | Xe => "e" | Xf => "f"
  | XA => "A" | XB => "B" | XC => "C" | XD => "D" | XE => "E" | XF => "F"
  end%char.

Definition hexit_Z (x : hexit) : Z :=
  match x with
  | X0 => 0 | X1 => 1 | X2 => 2 | X3 => 3 | X4 => 4
  | X5 => 5 | X6 => 6 | X7 => 7 | X8 => 8 | X9 => 9
  | Xa | XA => 10 | Xb | XB => 11 | Xc | XC => 12
  | Xd | XD => 13 | Xe | XE => 14 | Xf | XF => 15
  end%Z.

Fixpoint hex_string (xs : list hexit) : string :=
  match xs with
  | [] => EmptyString
  | x :: xs' => String (hexit_char x) (hex_string xs')
  end.

(** The number written by a row of hexadecimal digits. *)
Definition hex_number (xs : list hexit) : Z :=
  fold_left (fun acc x => (16 * acc + hexit_Z x)%Z) xs 0%Z.

(** A device on a serial port, the line [text] waiting to be read. *)
Definition answering_device (text : string) : Device :=
  mkDevice [mkConnection 0 (SerialEnd "COM3") true [] [RecvData text]]
           false false [] [] [] [] [].

(* ================================================================== *)
(** * Writing the serial number *)

(** [self.eeprom.set(addr, byte, response=0)]: the builder of
    [self.eeprom], the step [.set], and the call. *)
Definition eeprom_set (addr byte : Z) (h : heap) (d : Device)
  : (result returned * Device) * heap :=
  match device_chain "eeprom" ["set"] h with
  | (Builder b, h') =>
      (builder_call b [TInt addr; TInt byte]
         (mkOpts (Some "auto") false None false default_sleep) h' d, h')
  | (Member _, h') => ((Raise AttributeError, d), h')
  end.

(** The loop of the setter over the bytes to write, with
    [time.sleep(0.1)] after each. *)
Fixpoint setter_loop (writes : list (Z * Z)) (h : heap) (d : Device)
  : (result unit * Device) * heap :=
  match writes with
  | [] => ((Return tt, d), h)
  | (addr, byte) :: writes' =>
      match eeprom_set addr byte h d with
      | ((Return _, d'), h') => setter_loop writes' h' (sleep 100000 d')
      | ((Raise e, d'), h') => ((Raise e, d'), h')
      | ((Hang, d'), h') => ((Hang, d'), h')
      end
  end.

(** The setter of [Device.serial]: pack, write the six bytes, and
    [return self.serial]. *)
Definition serial_setter (now_week now_year : Z) (sd : serial_dict) (h : heap)
    (d : Device) : (result serial_fields * Device) * heap :=
  match setter_loop (eeprom_writes 6 0 (serial_encode now_week now_year sd)) h d with
  | ((Return _, d'), h') => (serial_getter d', h')
  | ((Raise e, d'), h') => ((Raise e, d'), h')
  | ((Hang, d'), h') => ((Hang, d'), h')
  end.

(** The command that writes one byte. *)
Definition eeprom_command (w : Z * Z) : string :=
  "eeprom set " ++ str (TInt (fst w)) ++ " " ++ str (TInt (snd w)).

(** A transport that takes every write and never has anything to read
    without waiting: an open serial port with nothing scripted to fail. *)
Definition steady_serial (c : Connection) : Prop :=
  (exists port, conn_end c = SerialEnd port)
  /\ conn_open c = true /\ conn_send c = [].

(* ================================================================== *)
(** * A device that does not answer *)

(** A device on a socket that takes the write and then stays silent: three
    time-outs, and nothing after them. *)
Definition silent_device : Device :=
  mkDevice [mkConnection 0 (SocketEnd "10.0.0.5" 8888) true [] (timeouts 3)]
           false false [] [] [] [] [].

(* ================================================================== *)
(** * Facts about strings and patterns *)

Lemma append_nil_r (s : string) : s ++ EmptyString = s.
Proof. induction s as [|c s IH]; simpl; [reflexivity | now rewrite IH]. Qed.

Lemma append_assoc (a b c : string) : (a ++ b) ++ c = a ++ (b ++ c).
Proof. induction a as [|x a IH]; simpl; [reflexivity | now rewrite IH]. Qed.

Lemma append_eq_empty (a b : string) : a ++ b = EmptyString -> a = EmptyString /\ b = EmptyString.
Proof. destruct a; simpl; intros H; [now split | discriminate]. Qed.

Module ReFacts.

Lemma nullable_sound (r : regex) : nullable r = true -> matches r EmptyString.
Proof.
  induction r; simpl; intros H; try discriminate.
  - constructor.
  - apply andb_prop in H as [H1 H2].
    change EmptyString with (EmptyString ++ EmptyString). constructor; auto.
  - apply orb_prop in H as [H | H]; [apply MAltL | apply MAltR]; auto.
  - constructor.
Qed.

Lemma nullable_complete (r : regex) (s : string) :
  matches r s -> s = EmptyString -> nullable r = true.
Proof.
  induction 1; simpl; intros E; try discriminate; auto.
  - apply append_eq_empty in E as [E1 E2]. rewrite IHmatches1, IHmatches2; auto.
  - rewrite IHmatches; auto.
  - rewrite IHmatches; auto using orb_true_r.
Qed.

Lemma deriv_sound (c : ascii) (r : regex) :
  forall s, matches (deriv c r) s -> matches r (String c s).
Proof.
  induction r; simpl; intros s H.
  - inversion H.
  - inversion H.
  - destruct (Ascii.eqb c c0) eqn:E; inversion H; subst.
    apply Ascii.eqb_eq in E; subst. constructor.
  - destruct (in_range lo hi c) eqn:E; inversion H; subst.
    now constructor.
  - destruct (nullable r1) eqn:N.
    + inversion H as [| | | | ? ? ? HL | ? ? ? HR | |]; subst.
      * inversion HL; subst.
        change (String c (s1 ++ s2)) with (String c s1 ++ s2).
        constructor; auto.
      * change (String c s) with (EmptyString ++ String c s).
        constructor; auto using nullable_sound.
    + inversion H; subst.
      change (String c (s1 ++ s2)) with (String c s1 ++ s2).
      constructor; auto.
  - inversion H; subst; [apply MAltL | apply MAltR]; auto.
  - inversion H; subst.
    change (String c (s1 ++ s2)) with (String c s1 ++ s2).
    constructor; auto.
Qed.

Lemma deriv_complete (r : regex) (s' : string) :
  matches r s' -> forall c s, s' = String c s -> matches (deriv c r) s.
Proof.
  induction 1; intros c0 s0 E; simpl; try discriminate.
  - injection E as -> <-. rewrite Ascii.eqb_refl. constructor.
  - injection E as -> <-. rewrite H. constructor.
  - destruct s1 as [|a s1]; simpl in E.
    + rewrite (nullable_complete H eq_refl).
      apply MAltR. auto.
    + injection E as -> <-.
      destruct (nullable r1); [apply MAltL |]; constructor; auto.
  - apply MAltL; auto.
  - apply MAltR; auto.
  - destruct s1 as [|a s1]; simpl in E.
    + apply (IHmatches2 _ _ E).
    + injection E as -> <-. constructor; auto.
Qed.

Lemma fullmatch_iff (s : string) : forall r, fullmatch r s = true <-> matches r s.
Proof.
  induction s as [|c s IH]; intros r; simpl.
  - split; [apply nullable_sound | intros H; apply (nullable_complete H eq_refl)].
  - rewrite IH. split; [apply deriv_sound | intros H; apply (deriv_complete H eq_refl)].
Qed.

Lemma Void_never (s : string) : fullmatch Void s = false.
Proof. induction s; simpl; auto. Qed.

Lemma matches_Cat_inv (r1 r2 : regex) (s : string) :
  matches (Cat r1 r2) s -> exists s1 s2, s = s1 ++ s2 /\ matches r1 s1 /\ matches r2 s2.
Proof. inversion 1; subst; eauto. Qed.

Lemma matches_Chr_inv (c : ascii) (s : string) : matches (Chr c) s -> s = String c EmptyString.
Proof. inversion 1; subst; reflexivity. Qed.

Lemma matches_Opt_Chr_inv (c : ascii) (s : string) :
  matches (Opt (Chr c)) s -> s = EmptyString \/ s = String c EmptyString.
Proof.
  inversion 1 as [| | | | ? ? ? M | ? ? ? M | |]; subst; inversion M; subst; auto.
Qed.

End ReFacts.

Module PyStrFacts.
Import PyStr.

Lemma mem_app (c : ascii) (a b : string) : mem c (a ++ b) = mem c a || mem c b.
Proof.
  induction a as [|x a IH]; simpl; [reflexivity |].
  destruct (Ascii.eqb c x); auto.
Qed.

Lemma is_empty_app (a b : string) : is_empty b = false -> is_empty (a ++ b) = false.
Proof. destruct a; simpl; auto. Qed.

Lemma is_empty_false (s : string) : s <> EmptyString -> is_empty s = false.
Proof. destruct s; simpl; [congruence | reflexivity]. Qed.

Lemma lstrip_length (chars s : string) :
  (String.length (lstrip chars s) <= String.length s)%nat.
Proof.
  induction s as [|c s IH]; simpl; [lia |].
  destruct (mem c chars); simpl; lia.
Qed.

(** A string that [lstrip] leaves alone stays alone with more text after it. *)
Lemma lstrip_app (chars a b : string) :
  a <> EmptyString -> lstrip chars a = a -> lstrip chars (a ++ b) = a ++ b.
Proof.
  destruct a as [|c a]; [congruence |]. intros _. simpl.
  destruct (mem c chars); [| reflexivity].
  intros H. pose proof (lstrip_length chars a) as L.
  rewrite H in L. simpl in L. lia.
Qed.

(** A string that [rstrip] leaves alone stays alone with more text before it. *)
Lemma rstrip_app (chars a b : string) :
  b <> EmptyString -> rstrip chars b = b -> rstrip chars (a ++ b) = a ++ b.
Proof.
  intros Hb H. induction a as [|c a IH]; simpl; [assumption |].
  rewrite IH, is_empty_app by (apply is_empty_false; assumption).
  reflexivity.
Qed.

Lemma rstrip_last (chars : string) (c : ascii) :
  mem c chars = false -> rstrip chars (String c EmptyString) = String c EmptyString.
Proof. intros H. simpl. now rewrite H. Qed.

Lemma split_not_nil (sep : ascii) (s : string) : split sep s <> [].
Proof.
  destruct s as [|c s]; simpl; [discriminate |].
  destruct (Ascii.eqb c sep); [discriminate |].
  destruct (split sep s); discriminate.
Qed.

Lemma split_no_sep (sep : ascii) (s : string) :
  mem sep s = false -> split sep s = [s].
Proof.
  induction s as [|c s IH]; simpl; [reflexivity |].
  rewrite (Ascii.eqb_sym c sep).
  destruct (Ascii.eqb sep c); [discriminate |].
  intros H. now rewrite IH.
Qed.

Lemma split_app (sep : ascii) (a b : string) :
  mem sep a = false -> split sep (a ++ String sep b) = a :: split sep b.
Proof.
  induction a as [|c a IH]; simpl.
  - intros _. now rewrite Ascii.eqb_refl.
  - rewrite (Ascii.eqb_sym c sep).
    destruct (Ascii.eqb sep c); [discriminate |].
    intros H. now rewrite IH.
Qed.

End PyStrFacts.

(** ** Where a newline and a bracket may stand in a numeric response *)

Module PatternFacts.
Import PyStr PyStrFacts ReFacts.

Lemma avoids_matches (x : ascii) (r : regex) (s : string) :
  matches r s -> avoids x r = true -> mem x s = false.
Proof.
  induction 1; cbn [avoids mem]; intros F; auto.
  - apply negb_true_iff in F. now rewrite F.
  - apply negb_true_iff in F.
    destruct (Ascii.eqb x c) eqn:E; [| reflexivity].
    apply Ascii.eqb_eq in E. subst c. congruence.
  - apply andb_prop in F as [F1 F2].
    rewrite mem_app, IHmatches1, IHmatches2; auto.
  - apply andb_prop in F as [F1 F2]. auto.
  - apply andb_prop in F as [F1 F2]. auto.
  - rewrite mem_app, IHmatches1, IHmatches2; auto.
Qed.

Lemma newline_free_matches (r : regex) (s : string) :
  matches r s -> newline_free r = true -> mem newline s = false.
Proof. apply avoids_matches. Qed.

(** A pattern [inner\n?] does not match text with a line break inside. *)
Lemma no_inner_newline (inner : regex) (l1 l2 : string) :
  newline_free inner = true ->
  mem newline l1 = false -> l2 <> EmptyString ->
  fullmatch (Cat inner (Opt (Chr newline))) (l1 ++ String newline l2) = false.
Proof.
  intros F H1 H2.
  destruct (fullmatch _ _) eqn:E; [| reflexivity].
  exfalso. apply fullmatch_iff in E.
  apply matches_Cat_inv in E as (s1 & s2 & Hs & M1 & M2).
  pose proof (newline_free_matches M1 F) as N1.
  assert (S : split newline (s1 ++ s2) = l1 :: split newline l2)
    by (rewrite <- Hs; now apply split_app).
  assert (T : split newline l2 <> [] /\ split newline l2 <> [EmptyString]).
  { destruct l2 as [|a l2]; [congruence |]. simpl.
    pose proof (split_not_nil newline l2) as NN.
    destruct (Ascii.eqb a newline), (split newline l2); split; congruence. }
  destruct T as [T1 T2].
  apply matches_Opt_Chr_inv in M2 as [-> | ->].
  - rewrite append_nil_r, split_no_sep in S by assumption.
    injection S as _ S. symmetry in S. contradiction.
  - rewrite split_app in S by assumption. simpl in S.
    injection S as _ S. symmetry in S. contradiction.
Qed.

Lemma number_regex_newline_free : newline_free number_regex = true.
Proof. reflexivity. Qed.

(** The matrix and the array pattern start with an opening bracket. *)
Lemma bracket_first (r1 r2 : regex) (s : string) :
  fullmatch (Cat (Cat (Chr "[") r1) r2) s = true -> exists s', s = String "[" s'.
Proof.
  intros E. apply fullmatch_iff in E.
  apply matches_Cat_inv in E as (s1 & s2 & -> & M1 & _).
  apply matches_Cat_inv in M1 as (s3 & s4 & -> & M3 & _).
  apply matches_Chr_inv in M3 as ->. simpl. eauto.
Qed.

Lemma no_bracket_no_matrix (s : string) :
  mem "[" s = false -> fullmatch re_matrix s = false /\ fullmatch re_array s = false.
Proof.
  intros H. split.
  - destruct (fullmatch re_matrix s) eqn:E; [| reflexivity].
    apply bracket_first in E as [s' ->]. discriminate.
  - destruct (fullmatch re_array s) eqn:E; [| reflexivity].
    apply bracket_first in E as [s' ->]. discriminate.
Qed.

End PatternFacts.

(* ================================================================== *)
(** * Auto-detection of the response format *)

Module AutoFacts.
Import PyStr PyStrFacts ReFacts PatternFacts.

Lemma text_block_not_numeric (l1 l2 : string) :
  mem newline l1 = false -> l2 <> EmptyString ->
  let x := l1 ++ String newline l2 in
  fullmatch re_matrix x = false /\ fullmatch re_array x = false
  /\ fullmatch re_number x = false.
Proof.
  intros H1 H2 x. repeat split; apply no_inner_newline; auto.
Qed.

Lemma text_block_lines (l1 l2 : string) :
  l1 <> EmptyString -> l2 <> EmptyString ->
  mem newline l1 = false -> mem newline l2 = false ->
  lstrip text_framing l1 = l1 -> rstrip text_framing l2 = l2 ->
  split newline (strip text_framing (l1 ++ String newline l2)) = [l1; l2].
Proof.
  intros N1 N2 M1 M2 L R. unfold strip.
  rewrite lstrip_app by assumption.
  change (String newline l2) with (String newline EmptyString ++ l2).
  rewrite <- append_assoc, rstrip_app by assumption.
  rewrite append_assoc. change (String newline EmptyString ++ l2) with (String newline l2).
  rewrite split_app, split_no_sep by assumption. reflexivity.
Qed.

End AutoFacts.

(** C2.  [process_auto] on the examples of the specification: the matrix
    text [[1,2;3,4]] gives the 2x2 structure [[1.0,2.0],[3.0,4.0]], the array
    text [[1;2;3]] gives [1.0,2.0,3.0], the text 1.5e-3 gives 0.0015; a block
    of two lines (neither empty, no framing character at the start of the
    first or the end of the second) gives the pair of the two lines in
    order; a single line without a bracket that is not a number comes back
    unchanged. *)
Theorem process_auto_round_trips :
  process_auto (Some "[1,2;3,4]") = Return (VMatrix [[1%Q; 2%Q]; [3%Q; 4%Q]])
  /\ process_auto (Some "[1;2;3]") = Return (VArray [1%Q; 2%Q; 3%Q])
  /\ process_auto (Some "1.5e-3") = Return (VFloat (Qred 0.0015%Q))
  /\ (forall l1 l2 : string,
        l1 <> EmptyString -> l2 <> EmptyString ->
        PyStr.mem PyStr.newline l1 = false ->
        PyStr.mem PyStr.newline l2 = false ->
        PyStr.lstrip text_framing l1 = l1 ->
        PyStr.rstrip text_framing l2 = l2 ->
        process_auto (Some (l1 ++ String PyStr.newline l2)) = Return (VLines [l1; l2]))
  /\ (forall s : string,
        PyStr.mem PyStr.newline s = false ->
        PyStr.mem "[" s = false ->
        Re.fullmatch re_number s = false ->
        process_auto (Some s) = Return (VStr s)).
Proof.
  split; [vm_compute; reflexivity |].
  split; [vm_compute; reflexivity |].
  split; [vm_compute; reflexivity |].
  split.
  - intros l1 l2 N1 N2 M1 M2 L R.
    destruct (AutoFacts.text_block_not_numeric l1 M1 N2) as (E1 & E2 & E3).
    unfold process_auto. rewrite E1, E2, E3.
    rewrite PyStrFacts.mem_app. cbn [PyStr.mem]. rewrite Ascii.eqb_refl, orb_true_r.
    rewrite AutoFacts.text_block_lines by assumption. reflexivity.
  - intros s M B E3.
    destruct (PatternFacts.no_bracket_no_matrix s B) as [E1 E2].
    unfold process_auto. now rewrite E1, E2, E3, M.
Qed.

(** The general parts of C2 at the block [hello / world] and at the line
    [hello world]. *)
Lemma process_auto_round_trips_witness :
  process_auto (Some ("hello" ++ String PyStr.newline "world"))
    = Return (VLines ["hello"; "world"])
  /\ process_auto (Some "hello world") = Return (VStr "hello world").
Proof.
  destruct process_auto_round_trips as (_ & _ & _ & H4 & H5).
  split.
  - apply H4; (reflexivity || discriminate).
  - apply H5; reflexivity.
Defined.

(* ================================================================== *)
(** * Decimal numerals are read as numbers *)

Module DecimalFacts.
Import PyStr PyStrFacts ReFacts PatternFacts PyFloat.

Lemma digit_is_digit (d : digit) : is_digit (digit_char d) = true.
Proof. destruct d; reflexivity. Qed.

Lemma digit_not_space (d : digit) : mem (digit_char d) whitespace = false.
Proof. destruct d; reflexivity. Qed.

Lemma digit_val_char (d : digit) : digit_val (digit_char d) = digit_Z d.
Proof. destruct d; reflexivity. Qed.

Lemma digits_string_app (a b : list digit) :
  digits_string (a ++ b) = digits_string a ++ digits_string b.
Proof. induction a as [|d a IH]; simpl; [reflexivity | now rewrite IH]. Qed.

Lemma digits_string_length (ds : list digit) :
  String.length (digits_string ds) = List.length ds.
Proof. induction ds as [|d ds IH]; simpl; [reflexivity | now rewrite IH]. Qed.

(** *** The pattern *)

Lemma matches_digits_star (ds : list digit) :
  matches (Star digit_class) (digits_string ds).
Proof.
  induction ds as [|d ds IH]; simpl; [constructor |].
  change (String (digit_char d) (digits_string ds))
    with (String (digit_char d) EmptyString ++ digits_string ds).
  apply MStarS; [| assumption].
  apply MRng. apply digit_is_digit.
Qed.

Lemma matches_digits_plus (ds : digits1) :
  matches (Plus digit_class) (digits_string (row ds)).
Proof.
  destruct ds as [d ds]. unfold row, Plus. simpl.
  change (String (digit_char d) (digits_string ds))
    with (String (digit_char d) EmptyString ++ digits_string ds).
  constructor; [| apply matches_digits_star].
  apply MRng. apply digit_is_digit.
Qed.

Lemma matches_opt_none (r : regex) : matches (Opt r) EmptyString.
Proof. apply MAltR. constructor. Qed.

Lemma matches_number_regex (n : decimal) : matches number_regex (render n).
Proof.
  unfold number_regex, render.
  constructor.
  { destruct (dec_sign n) as [[|]|]; simpl.
    - apply MAltL, MAltL. constructor.
    - apply MAltL, MAltR. constructor.
    - apply matches_opt_none. }
  constructor; [apply matches_digits_plus |].
  constructor.
  { destruct (dec_frac n) as [f|]; [| apply matches_opt_none].
    apply MAltL.
    change ("." ++ digits_string (row f))
      with (String "." EmptyString ++ digits_string (row f)).
    constructor; [constructor | apply matches_digits_plus]. }
  destruct (dec_exp n) as [[neg e]|]; [| apply matches_opt_none].
  apply MAltL.
  change ("e" ++ (if neg then "-" else EmptyString) ++ digits_string (row e))
    with (String "e" EmptyString
          ++ (if neg then "-" else EmptyString) ++ digits_string (row e)).
  constructor; [constructor |].
  constructor.
  { destruct neg; [apply MAltL; constructor | apply matches_opt_none]. }
  rewrite <- (append_nil_r (digits_string (row e))).
  constructor; [apply matches_digits_plus | apply matches_opt_none].
Qed.

Lemma fullmatch_re_number (n : decimal) : fullmatch re_number (render n) = true.
Proof.
  apply fullmatch_iff. unfold re_number.
  rewrite <- (append_nil_r (render n)).
  constructor; [apply matches_number_regex | apply matches_opt_none].
Qed.

(** *** The first and the last character *)

Lemma render_tail (n : decimal) :
  exists body, render n = sign_string (dec_sign n) ++ String (digit_char (fst (dec_int n))) body.
Proof. unfold render, row. simpl. eauto. Qed.

Lemma render_no_bracket (n : decimal) :
  fullmatch re_matrix (render n) = false /\ fullmatch re_array (render n) = false.
Proof.
  destruct (render_tail n) as [body E].
  split.
  - destruct (fullmatch re_matrix (render n)) eqn:M; [| reflexivity].
    apply bracket_first in M as [s' M]. rewrite E in M.
    destruct (dec_sign n) as [[|]|], (fst (dec_int n)); discriminate.
  - destruct (fullmatch re_array (render n)) eqn:M; [| reflexivity].
    apply bracket_first in M as [s' M]. rewrite E in M.
    destruct (dec_sign n) as [[|]|], (fst (dec_int n)); discriminate.
Qed.

Lemma ends_digit_app (a b : string) : ends_digit b -> ends_digit (a ++ b).
Proof.
  intros (pre & d & ->). exists (a ++ pre), d. now rewrite append_assoc.
Qed.

Lemma ends_digit_row (ds : digits1) : ends_digit (digits_string (row ds)).
Proof.
  destruct ds as [d ds]. unfold row. simpl. revert d.
  induction ds as [|d' ds IH]; intros d; simpl.
  - now exists EmptyString, d.
  - change (String (digit_char d) (String (digit_char d') (digits_string ds)))
      with (String (digit_char d) EmptyString
            ++ String (digit_char d') (digits_string ds)).
    apply ends_digit_app, IH.
Qed.

Lemma render_ends_digit (n : decimal) : ends_digit (render n).
Proof.
  unfold render. apply ends_digit_app.
  destruct (dec_exp n) as [[neg e]|].
  - do 4 apply ends_digit_app. apply ends_digit_row.
  - destruct (dec_frac n) as [f|].
    + rewrite append_nil_r. do 2 apply ends_digit_app. apply ends_digit_row.
    + rewrite !append_nil_r. apply ends_digit_row.
Qed.

Lemma strip_render (n : decimal) : strip whitespace (render n) = render n.
Proof.
  unfold strip.
  assert (L : lstrip whitespace (render n) = render n).
  { destruct (render_tail n) as [body ->].
    destruct (dec_sign n) as [[|]|], (fst (dec_int n)); reflexivity. }
  rewrite L.
  destruct (render_ends_digit n) as (pre & d & ->).
  apply rstrip_app; [discriminate |].
  apply rstrip_last, digit_not_space.
Qed.

(** *** Reading the parts back *)

Lemma span_digits_app (ds : list digit) (rest : string) :
  stops rest -> span_digits (digits_string ds ++ rest) = (digits_string ds, rest).
Proof.
  intros S. induction ds as [|d ds IH]; simpl.
  - destruct rest as [|c r]; simpl in *; [reflexivity | now rewrite S].
  - now rewrite digit_is_digit, IH.
Qed.

Lemma span_digits_all (ds : list digit) :
  span_digits (digits_string ds) = (digits_string ds, EmptyString).
Proof.
  rewrite <- (append_nil_r (digits_string ds)) at 1.
  now apply span_digits_app.
Qed.

Lemma take_sign_render (s : option sign) (d : digit) (body : string) :
  take_sign (sign_string s ++ String (digit_char d) body)
  = (match s with Some Minus => true | _ => false end, String (digit_char d) body).
Proof. destruct s as [[|]|]; [reflexivity | reflexivity | destruct d; reflexivity]. Qed.

Lemma take_sign_exp (neg : bool) (d : digit) (body : string) :
  take_sign ((if neg then "-" else EmptyString) ++ String (digit_char d) body)
  = (neg, String (digit_char d) body).
Proof. destruct neg; [reflexivity | destruct d; reflexivity]. Qed.

Lemma digits_val_string (ds : list digit) (acc : Z) :
  digits_val acc (digits_string ds)
  = fold_left (fun a d => (10 * a + digit_Z d)%Z) ds acc.
Proof.
  revert acc. induction ds as [|d ds IH]; intros acc; simpl; [reflexivity |].
  now rewrite IH, digit_val_char.
Qed.

Lemma fold_digits (ds : list digit) (acc : Z) :
  fold_left (fun a d => (10 * a + digit_Z d)%Z) ds acc
  = (acc * 10 ^ Z.of_nat (List.length ds) + number_of ds)%Z.
Proof.
  unfold number_of. revert acc.
  induction ds as [|d ds IH]; intros acc.
  - simpl. lia.
  - cbn [fold_left List.length]. rewrite IH, (IH (10 * 0 + digit_Z d)%Z).
    rewrite Nat2Z.inj_succ, Z.pow_succ_r by lia. ring.
Qed.

Lemma exponent_render (e : option (bool * digits1)) :
  exponent (match e with
            | Some (neg, ds) =>
                "e" ++ (if neg then "-" else EmptyString) ++ digits_string (row ds)
            | None => EmptyString
            end)
  = Some (match e with
          | Some (neg, ds) => if neg then (- number_of (row ds))%Z else number_of (row ds)
          | None => 0%Z
          end).
Proof.
  destruct e as [[neg [d ds]]|]; [| reflexivity].
  unfold row. cbn [fst snd digits_string].
  change ("e" ++ ?x) with (String "e" x).
  unfold exponent.
  change (Ascii.eqb "e" "e" || Ascii.eqb "e" "E") with true. cbv iota.
  rewrite take_sign_exp.
  change (String (digit_char d) (digits_string ds)) with (digits_string (d :: ds)).
  rewrite span_digits_all. cbn [is_empty digits_string orb negb].
  rewrite (digits_val_string (d :: ds)). 
  fold (number_of (d :: ds)). destruct neg; reflexivity.
Qed.

End DecimalFacts.

Module ParseFacts.
Import PyStr PyStrFacts ReFacts PatternFacts PyFloat DecimalFacts.

Lemma number_of_app (a b : list digit) :
  number_of (a ++ b) = (number_of a * 10 ^ Z.of_nat (List.length b) + number_of b)%Z.
Proof.
  unfold number_of at 1. rewrite fold_left_app, fold_digits. reflexivity.
Qed.

Lemma ten_power_nonzero (z : Z) : ~ (Qpower 10 z == 0)%Q.
Proof. apply Qpower_not_0. discriminate. Qed.

(** Shifting the point: [(i * 10^k + f) * 10^(e-k) = (i + f / 10^k) * 10^e]. *)
Lemma shift_point (sgn i f e : Z) (k : nat) :
  (inject_Z (sgn * (i * 10 ^ Z.of_nat k + f)) * Qpower 10 (e - Z.of_nat k)
   == inject_Z sgn * ((inject_Z i + inject_Z f / inject_Z (10 ^ Z.of_nat k)) * Qpower 10 e))%Q.
Proof.
  unfold Z.sub. rewrite Qpower_plus by discriminate.
  rewrite Qpower_opp, Zpower_Qpower by lia.
  rewrite !inject_Z_mult, inject_Z_plus, inject_Z_mult, Zpower_Qpower by lia.
  change (inject_Z 10) with 10%Q.
  pose proof (ten_power_nonzero (Z.of_nat k)) as NZ.
  set (P := Qpower 10 (Z.of_nat k)) in *.
  field. assumption.
Qed.

Lemma signed_factor (s : option sign) (m : Z) :
  signed (match s with Some Minus => true | _ => false end) m = (sign_factor s * m)%Z.
Proof. destruct s as [[|]|]; unfold signed, sign_factor; lia. Qed.

(** [float] of a numeral is the number the numeral denotes. *)
Lemma parse_render (n : decimal) : parse (render n) = Some (decimal_value n).
Proof.
  unfold parse. rewrite strip_render.
  destruct n as [s [d ds] F X]. unfold render, decimal_value.
  cbn [dec_sign dec_int dec_frac dec_exp].
  pose proof (exponent_render X) as HX.
  set (xs := match X with
             | Some (neg, e) =>
                 "e" ++ (if neg then "-" else EmptyString) ++ digits_string (row e)
             | None => EmptyString
             end) in *.
  set (xv := match X with
             | Some (neg, e) => if neg then (- number_of (row e))%Z else number_of (row e)
             | None => 0%Z
             end) in *.
  change (row (d, ds)) with (d :: ds).
  assert (SX : stops xs) by (subst xs; destruct X as [[neg e]|]; simpl; auto).
  cbn [digits_string].
  change (String (digit_char d) (digits_string ds) ++ ?r)
    with (String (digit_char d) (digits_string ds ++ r)).
  rewrite take_sign_render. cbv beta iota.
  change (String (digit_char d) (digits_string ds ++ ?r))
    with (digits_string (d :: ds) ++ r).
  destruct F as [f|].
  - rewrite span_digits_app by (simpl; auto). cbv beta iota.
    change (("." ++ digits_string (row f)) ++ xs)
      with (String "." (digits_string (row f) ++ xs)).
    cbv iota. change (Ascii.eqb "." ".") with true. cbv iota.
    rewrite span_digits_app by assumption. cbv beta iota.
    cbn [is_empty digits_string andb]. rewrite HX.
    f_equal. unfold scale10. apply Qred_complete.
    change (String (digit_char d) (digits_string ds)) with (digits_string (d :: ds)).
    rewrite <- digits_string_app, digits_val_string, digits_string_length.
    fold (number_of ((d :: ds) ++ row f)).
    rewrite number_of_app, signed_factor.
    apply shift_point.
  - cbn [append]. rewrite span_digits_app by assumption. cbv beta iota.
    assert (E : (let (fp, s3) :=
                   match xs with
                   | String c r => if Ascii.eqb c "." then span_digits r else (EmptyString, xs)
                   | EmptyString => (EmptyString, xs)
                   end in (fp, s3)) = (EmptyString, xs)).
    { subst xs. destruct X as [[neg e]|]; reflexivity. }
    destruct (match xs with
              | String c r => if Ascii.eqb c "." then span_digits r else (EmptyString, xs)
              | EmptyString => (EmptyString, xs)
              end) as [fp s3].
    injection E as -> ->.
    cbn [is_empty digits_string andb]. rewrite HX.
    f_equal. unfold scale10. apply Qred_complete.
    change (String (digit_char d) (digits_string ds)) with (digits_string (d :: ds)).
    rewrite append_nil_r, digits_val_string. fold (number_of (d :: ds)).
    rewrite signed_factor. cbn [String.length Z.of_nat].
    pose proof (shift_point (sign_factor s) (number_of (d :: ds)) 0 xv 0) as SP.
    cbn [Z.of_nat] in SP. rewrite Z.pow_0_r, Z.mul_1_r, Z.add_0_r in SP.
    rewrite SP. unfold sign_factor. 
    change (inject_Z 0 / inject_Z 1)%Q with (0 / 1)%Q. 
    apply Qmult_comp; [reflexivity |]. apply Qmult_comp; [| reflexivity].
    apply Qplus_comp; [reflexivity |]. reflexivity.
Qed.

End ParseFacts.

Module PlusFacts.
Import PyStr PyStrFacts ReFacts PatternFacts PyFloat DecimalFacts.

Lemma mem_digits (c : ascii) (ds : list digit) :
  is_digit c = false -> mem c (digits_string ds) = false.
Proof.
  intros N. induction ds as [|d ds IH]; cbn [digits_string mem]; [reflexivity |].
  destruct (Ascii.eqb c (digit_char d)) eqn:E; [| assumption].
  apply Ascii.eqb_eq in E. subst c. now rewrite digit_is_digit in N.
Qed.

Lemma mem_plus_exponent (c : ascii) (a b : digits1) :
  is_digit c = false ->
  mem c (plus_exponent a b) = (Ascii.eqb c "e" || Ascii.eqb c "+").
Proof.
  intros N. unfold plus_exponent.
  rewrite mem_app, (@mem_digits c (row a) N). cbn [orb append mem].
  rewrite (@mem_digits c (row b) N).
  destruct (Ascii.eqb c "e"), (Ascii.eqb c "+"); reflexivity.
Qed.

Lemma matches_sign_inv (s : string) :
  matches (Opt (Alt (Chr "-") (Chr "+"))) s -> s = EmptyString \/ s = "-" \/ s = "+".
Proof.
  inversion 1 as [| | | | ? ? ? M | ? ? ? M | |]; subst.
  - inversion M as [| | | | ? ? ? M' | ? ? ? M' | |]; subst;
      apply matches_Chr_inv in M'; auto.
  - inversion M; auto.
Qed.

(** The pattern of a number admits a plus at the very start only. *)
Lemma number_regex_plus (s : string) :
  matches number_regex s ->
  exists s1 s2, s = s1 ++ s2
    /\ (s1 = EmptyString \/ s1 = "-" \/ s1 = "+") /\ mem "+" s2 = false.
Proof.
  intros M. unfold number_regex in M.
  apply matches_Cat_inv in M as (s1 & s2 & -> & M1 & M2).
  exists s1, s2. split; [reflexivity |]. split; [now apply matches_sign_inv |].
  apply (@avoids_matches "+"%char _ _ M2). reflexivity.
Qed.

Lemma plus_exponent_not_number (a b : digits1) :
  fullmatch re_number (plus_exponent a b) = false.
Proof.
  destruct (fullmatch re_number (plus_exponent a b)) eqn:E; [| reflexivity].
  exfalso. apply fullmatch_iff in E. unfold re_number in E.
  apply matches_Cat_inv in E as (u & v & Huv & Mu & Mv).
  assert (NL : mem newline (plus_exponent a b) = false)
    by (now rewrite mem_plus_exponent).
  assert (PL : mem "+" (plus_exponent a b) = true)
    by (now rewrite mem_plus_exponent).
  apply matches_Opt_Chr_inv in Mv as [-> | ->].
  - rewrite append_nil_r in Huv. subst u.
    apply number_regex_plus in Mu as (s1 & s2 & E & S1 & P2).
    destruct S1 as [-> | [-> | ->]]; cbn [append] in E.
    + rewrite E in PL. congruence.
    + destruct a as [d ds]. unfold plus_exponent, row in E.
      cbn [fst snd digits_string append] in E. destruct d; discriminate.
    + destruct a as [d ds]. unfold plus_exponent, row in E.
      cbn [fst snd digits_string append] in E. destruct d; discriminate.
  - rewrite Huv, mem_app in NL. cbn [mem] in NL.
    rewrite Ascii.eqb_refl, orb_true_r in NL. discriminate.
Qed.

(** The strings digits e+ digits follow the grammar of the specification. *)
Lemma plus_exponent_in_grammar (a b : digits1) :
  fullmatch spec_decimal_grammar (plus_exponent a b) = true.
Proof.
  apply fullmatch_iff. unfold spec_decimal_grammar, plus_exponent. cbv zeta.
  change (digits_string (row a) ++ "e+" ++ digits_string (row b))
    with (EmptyString ++ digits_string (row a) ++ EmptyString
          ++ String "e" EmptyString ++ String "+" EmptyString
          ++ digits_string (row b)).
  constructor; [apply matches_opt_none |].
  constructor; [apply matches_digits_plus |].
  constructor; [apply matches_opt_none |].
  apply MAltL.
  constructor; [constructor |].
  constructor; [apply MAltL, MAltR; constructor |].
  rewrite <- (append_nil_r (digits_string (row b))).
  constructor; [apply matches_digits_plus | apply matches_opt_none].
Qed.

Lemma strip_plus_exponent (a b : digits1) :
  strip whitespace (plus_exponent a b) = plus_exponent a b.
Proof.
  unfold strip.
  assert (L : lstrip whitespace (plus_exponent a b) = plus_exponent a b).
  { destruct a as [d ds]. unfold plus_exponent, row.
    cbn [fst snd digits_string append]. destruct d; reflexivity. }
  rewrite L.
  assert (E : ends_digit (plus_exponent a b)).
  { unfold plus_exponent. do 2 apply ends_digit_app. apply ends_digit_row. }
  destruct E as (pre & d & ->).
  apply rstrip_app; [discriminate |].
  apply rstrip_last, digit_not_space.
Qed.

(** [float] reads digits e+ digits as the digits before the letter times
    ten to the digits after the sign. *)
Lemma parse_plus_exponent (a b : digits1) :
  parse (plus_exponent a b) = Some (scale10 (number_of (row a)) (number_of (row b))).
Proof.
  unfold parse. rewrite strip_plus_exponent.
  destruct a as [d ds]. destruct b as [d' ds']. unfold plus_exponent, row.
  cbn [fst snd].
  assert (T : take_sign (digits_string (d :: ds) ++ "e+" ++ digits_string (d' :: ds'))
              = (false, digits_string (d :: ds) ++ "e+" ++ digits_string (d' :: ds'))).
  { cbn [digits_string append]. destruct d; reflexivity. }
  rewrite T. cbv beta iota.
  rewrite span_digits_app by reflexivity. cbv beta iota.
  change ("e+" ++ digits_string (d' :: ds'))
    with (String "e" (String "+" (digits_string (d' :: ds')))).
  cbv beta iota. change (Ascii.eqb "e" ".") with false. cbv beta iota.
  assert (N : is_empty (digits_string (d :: ds)) = false) by reflexivity.
  rewrite N. cbn [andb].
  unfold exponent.
  change (Ascii.eqb "e" "e" || Ascii.eqb "e" "E") with true. cbv iota.
  change (take_sign (String "+" (digits_string (d' :: ds'))))
    with (false, digits_string (d' :: ds')).
  cbv beta iota. rewrite span_digits_all. cbv beta iota.
  assert (N' : is_empty (digits_string (d' :: ds')) = false) by reflexivity.
  rewrite N'. cbn [orb negb is_empty].
  rewrite append_nil_r, !digits_val_string. unfold signed.
  fold (number_of (d :: ds)). fold (number_of (d' :: ds')).
  cbn [String.length Z.of_nat]. now rewrite Z.sub_0_r.
Qed.

End PlusFacts.

(** C5 on the code.  A string digits e+ digits follows the grammar of the
    specification, and [float] -- which the [number] formatter applies to
    the text, and the [array] formatter to every item -- reads it as the
    number it denotes.  [process_auto] does not: its pattern of a number
    takes a plus before the mantissa and none in the exponent, so the
    string is not classified as a number and comes back unchanged, as text.
    So 1e+5 is text for [process_auto] and 100000 for the [number] formatter;
    the item 1e+5 is read inside an array by the [array] formatter; and with
    the plus before the mantissa, +1e5, [process_auto] returns 100000. *)
Theorem plus_exponent_is_text :
  (forall a b : digits1,
     Re.fullmatch spec_decimal_grammar (plus_exponent a b) = true
     /\ dict_get formatters (Some "number") _default_formatter (Some (plus_exponent a b))
        = Return (VFloat (PyFloat.scale10 (number_of (row a)) (number_of (row b))))
     /\ Re.fullmatch re_number (plus_exponent a b) = false
     /\ process_auto (Some (plus_exponent a b)) = Return (VStr (plus_exponent a b)))
  /\ process_auto (Some "1e+5") = Return (VStr "1e+5")
  /\ dict_get formatters (Some "number") _default_formatter (Some "1e+5")
     = Return (VFloat (100000 # 1))
  /\ process_array (Some "[1e+5;2]") = Return (VArray [100000 # 1; 2 # 1])
  /\ process_auto (Some "[1e+5;2]") = Return (VStr "[1e+5;2]")
  /\ process_auto (Some "+1e5") = Return (VFloat (100000 # 1)).
Proof.
  split.
  - intros a b.
    pose proof (PlusFacts.plus_exponent_not_number a b) as M.
    split; [apply PlusFacts.plus_exponent_in_grammar |].
    split.
    { change (dict_get formatters (Some "number") _default_formatter)
        with (fun x : raw => rbind (py_float x) (fun q => Return (VFloat q))).
      cbv beta. unfold py_float.
      now rewrite PlusFacts.parse_plus_exponent. }
    split; [assumption |].
    assert (B : PyStr.mem "[" (plus_exponent a b) = false)
      by (now rewrite PlusFacts.mem_plus_exponent).
    assert (NL : PyStr.mem PyStr.newline (plus_exponent a b) = false)
      by (now rewrite PlusFacts.mem_plus_exponent).
    destruct (PatternFacts.no_bracket_no_matrix _ B) as [M1 M2].
    unfold process_auto. now rewrite M1, M2, M, NL.
  - repeat split; vm_compute; reflexivity.
Qed.

(** An exponent with a fraction is taken by the pattern and refused by
    [float]. *)
Remark fractional_exponent_raises :
  Re.fullmatch re_number "1e2.5" = true
  /\ process_auto (Some "1e2.5") = Raise ValueError.
Proof. split; vm_compute; reflexivity. Qed.

(* ================================================================== *)
(** * The serial number: packing and unpacking *)

Module SerialFacts.
Local Open Scope Z_scope.

Lemma testbit_small (x k i : Z) : 0 <= x < 2 ^ k -> k <= i -> Z.testbit x i = false.
Proof.
  intros [H0 H1] Hi.
  destruct (Z.eq_dec x 0) as [-> | N]; [apply Z.bits_0 |].
  apply Z.bits_above_log2; [assumption |].
  assert (0 <= k) by (destruct (Z.le_gt_cases 0 k); [assumption |];
                      rewrite Z.pow_neg_r in H1 by assumption; lia).
  assert (Z.log2 x < k) by (apply Z.log2_lt_pow2; lia).
  lia.
Qed.

Lemma land_ones_small (x k : Z) : 0 <= k -> 0 <= x < 2 ^ k -> Z.land x (Z.ones k) = x.
Proof. intros Hk H. rewrite Z.land_ones by assumption. apply Z.mod_small. assumption. Qed.

(** Bit [n] of the mask of a field of width [w] at position [k]. *)
Lemma mask_bit (w k n : Z) :
  0 <= w -> 0 <= k -> 0 <= n ->
  Z.testbit (Z.shiftl (Z.ones w) k) n = (k <=? n) && (n <? k + w).
Proof.
  intros Hw Hk Hn. rewrite Z.shiftl_spec by assumption.
  destruct (Z.leb_spec k n).
  - rewrite Z.testbit_ones_nonneg by lia.
    destruct (Z.ltb_spec (n - k) w), (Z.ltb_spec n (k + w)); auto; lia.
  - apply Z.testbit_neg_r. lia.
Qed.

(** A field is read back when the word carries its bits at its position. *)
Lemma field_extract (word f k w : Z) :
  0 <= k -> 0 <= w -> 0 <= f < 2 ^ w ->
  (forall i, k <= i < k + w -> Z.testbit word i = Z.testbit f (i - k)) ->
  Z.shiftr (Z.land word (Z.shiftl (Z.ones w) k)) k = f.
Proof.
  intros Hk Hw Hf Hbits. apply Z.bits_inj'. intros n Hn.
  rewrite Z.shiftr_spec, Z.land_spec, mask_bit by lia.
  destruct (Z.ltb_spec (n + k) (k + w)).
  - rewrite Hbits by lia.
    replace (k <=? n + k) with true by (symmetry; apply Z.leb_le; lia).
    rewrite andb_true_r. f_equal. lia.
  - rewrite andb_false_r, andb_false_r. symmetry.
    apply (testbit_small Hf). lia.
Qed.

Section Packed.
Variables b w y m p : Z.
Hypothesis Hb : 0 <= b < 2 ^ 16.
Hypothesis Hw : 0 <= w < 2 ^ 6.
Hypothesis Hy : 0 <= y < 2 ^ 8.
Hypothesis Hm : 0 <= m < 2 ^ 8.
Hypothesis Hp : 0 <= p < 2 ^ 10.
Variables now_week now_year : Z.

Lemma word_bits (i : Z) :
  0 <= i ->
  Z.testbit (packed_word b w y m p now_week now_year) i
  = Z.testbit b i || Z.testbit w (i - 16) || Z.testbit y (i - 22)
    || Z.testbit m (i - 30) || Z.testbit p (i - 38).
Proof.
  intros Hi. unfold packed_word, serial_encode, dict_of_fields, get_or.
  cbn [sd_board_number sd_week sd_year sd_model sd_product
       board_number week year model product].
  change 0xffff with (Z.ones 16). change 0x3f with (Z.ones 6).
  change 0xff with (Z.ones 8). change 0x3ff with (Z.ones 10).
  rewrite !land_ones_small by (assumption || lia).
  rewrite !Z.lor_spec, !Z.shiftl_spec by assumption.
  rewrite Z.bits_0. reflexivity.
Qed.

Lemma word_round_trip : serial_decode (packed_word b w y m p now_week now_year) = mkSerial b w y m p.
Proof.
  unfold serial_decode.
  change 0x00000000FFFF with (Z.shiftl (Z.ones 16) 0).
  change 0x0000003F0000 with (Z.shiftl (Z.ones 6) 16).
  change 0x00003FC00000 with (Z.shiftl (Z.ones 8) 22).
  change 0x003FC0000000 with (Z.shiftl (Z.ones 8) 30).
  change 0xFFC000000000 with (Z.shiftl (Z.ones 10) 38).
  rewrite <- (Z.shiftr_0_r (Z.land (packed_word b w y m p now_week now_year) (Z.shiftl (Z.ones 16) 0))).
  f_equal; apply field_extract; try lia; try assumption;
    intros i Hi; rewrite word_bits by lia.
  - rewrite (Z.testbit_neg_r w), (Z.testbit_neg_r y), (Z.testbit_neg_r m),
      (Z.testbit_neg_r p) by lia.
    rewrite !orb_false_r. f_equal. lia.
  - rewrite (testbit_small Hb), (Z.testbit_neg_r y), (Z.testbit_neg_r m),
      (Z.testbit_neg_r p) by (assumption || lia).
    rewrite !orb_false_r. reflexivity.
  - rewrite (testbit_small Hb), (testbit_small Hw),
      (Z.testbit_neg_r m), (Z.testbit_neg_r p) by (assumption || lia).
    rewrite !orb_false_r. reflexivity.
  - rewrite (testbit_small Hb), (testbit_small Hw),
      (testbit_small Hy), (Z.testbit_neg_r p) by (assumption || lia).
    rewrite !orb_false_r. reflexivity.
  - rewrite (testbit_small Hb), (testbit_small Hw),
      (testbit_small Hy), (testbit_small Hm) by (assumption || lia).
    reflexivity.
Qed.

Lemma word_48_bits : 0 <= (packed_word b w y m p now_week now_year) < 2 ^ 48.
Proof.
  assert (N : 0 <= (packed_word b w y m p now_week now_year)).
  { apply Z.bits_iff_nonneg_ex. exists 48. intros i Hi.
    rewrite word_bits by lia.
    rewrite (testbit_small Hb), (testbit_small Hw),
      (testbit_small Hy), (testbit_small Hm),
      (testbit_small Hp) by (assumption || lia).
    reflexivity. }
  split; [assumption |].
  destruct (Z.eq_dec (packed_word b w y m p now_week now_year) 0) as [E | E]; [rewrite E; reflexivity |].
  apply Z.log2_lt_pow2; [lia |].
  destruct (Z.lt_ge_cases (Z.log2 (packed_word b w y m p now_week now_year)) 48) as [L | L]; [assumption |].
  exfalso.
  assert (T : Z.testbit (packed_word b w y m p now_week now_year) (Z.log2 (packed_word b w y m p now_week now_year)) = true) by (apply Z.bit_log2; lia).
  rewrite word_bits in T by lia.
  rewrite (testbit_small Hb), (testbit_small Hw),
    (testbit_small Hy), (testbit_small Hm),
    (testbit_small Hp) in T by (assumption || lia).
  discriminate.
Qed.

End Packed.

End SerialFacts.

(** C6.  For fields within their widths -- board number 16 bits, week 6,
    year 8, model 8, product 10 -- the word packed by the setter is a 48-bit
    word, and the getter unpacks every field of it exactly; so it is for
    board 1, week 10, year 24, model 2, product 5. *)
Theorem serial_round_trip :
  (forall b w y m p now_week now_year : Z,
     (0 <= b < 2 ^ 16)%Z -> (0 <= w < 2 ^ 6)%Z -> (0 <= y < 2 ^ 8)%Z ->
     (0 <= m < 2 ^ 8)%Z -> (0 <= p < 2 ^ 10)%Z ->
     let word := serial_encode now_week now_year (dict_of_fields (mkSerial b w y m p)) in
     (0 <= word < 2 ^ 48)%Z /\ serial_decode word = mkSerial b w y m p)
  /\ (forall now_week now_year : Z,
        serial_decode (serial_encode now_week now_year
                         (dict_of_fields (mkSerial 1 10 24 2 5)))
        = mkSerial 1 10 24 2 5).
Proof.
  split.
  - intros. split.
    + apply SerialFacts.word_48_bits; assumption.
    + apply SerialFacts.word_round_trip; assumption.
  - intros. reflexivity.
Qed.

(** C6 at the fields of the specification's example. *)
Lemma serial_round_trip_witness :
  serial_decode (serial_encode 44 2026 (dict_of_fields (mkSerial 1 10 24 2 5)))
  = mkSerial 1 10 24 2 5.
Proof.
  destruct serial_round_trip as [H _].
  apply (H 1 10 24 2 5 44 2026)%Z; lia.
Defined.

(* ================================================================== *)
(** * The dispatch pipeline *)

Module DeviceFacts.

Lemma stream_send_id (c : Connection) : conn_id (snd (stream_send c)) = conn_id c.
Proof.
  unfold stream_send. destruct (negb (conn_open c)); [reflexivity |].
  destruct (conn_send c) as [|[|e] k]; reflexivity.
Qed.

Lemma conn_write_id (c c1 : Connection) (cmd : string) (r : result unit) :
  conn_write c cmd = (r, c1) -> conn_id c1 = conn_id c.
Proof.
  unfold conn_write. intros E.
  pose proof (stream_send_id c) as H. now rewrite E in H.
Qed.

Lemma conn_read_id (c c2 : Connection) (wait : bool) (r : result string) :
  conn_read c wait = (r, c2) -> conn_id c2 = conn_id c.
Proof.
  unfold conn_read, SocketConnection_read, SerialConnection_read.
  destruct (conn_end c).
  - destruct (negb (conn_open c)); [intros [= _ <-]; reflexivity |].
    destruct (if wait then socket_wait (conn_recv c) else (Return EmptyString, conn_recv c))
      as [[retval | e |] k].
    + destruct (socket_drain retval k). intros [= _ <-]. reflexivity.
    + intros [= _ <-]. reflexivity.
    + intros [= _ <-]. reflexivity.
  - destruct wait; [| intros [= _ <-]; reflexivity].
    destruct (negb (conn_open c)); [intros [= _ <-]; reflexivity |].
    destruct (conn_recv c) as [|[s | e] k]; intros [= _ <-]; reflexivity.
Qed.

Lemma remove_head (c : Connection) (rest : list Connection) :
  remove_conn (conn_id c) (conn_close c :: rest) = rest.
Proof. simpl. now rewrite Nat.eqb_refl. Qed.

Lemma rested_connections (st : option N) (d : Device) :
  connections (rested st d) = connections d.
Proof. destruct st; reflexivity. Qed.

Lemma rested_sent (st : option N) (d : Device) : sent (rested st d) = sent d.
Proof. destruct st; reflexivity. Qed.

Lemma rested_closed (st : option N) (d : Device) : closed (rested st d) = closed d.
Proof. destruct st; reflexivity. Qed.

Lemma rested_logged (st : option N) (d : Device) : logged (rested st d) = logged d.
Proof. destruct st; reflexivity. Qed.

Lemma command_unfold (cmd : string) (returns : bool) (st : option N) (d : Device) :
  command cmd returns st d =
  match connections d with
  | [] => (Return None, log_error (no_connection_message cmd) (rested st d))
  | conn :: rest =>
      match conn_write conn cmd with
      | (Return _, c1) =>
          let d1 := record_sent (conn_id conn) cmd (rested st d) in
          match conn_read c1 returns with
          | (Return text, c2) => (Return (Some text), set_connections (c2 :: rest) d1)
          | (Raise e, c2) => command_failed e c2 rest d1
          | (Hang, c2) => (Hang, set_connections (c2 :: rest) d1)
          end
      | (Raise e, c1) => command_failed e c1 rest (rested st d)
      | (Hang, c1) => (Hang, set_connections (c1 :: rest) (rested st d))
      end
  end.
Proof. unfold command. fold (rested st d). now rewrite rested_connections. Qed.

(** No transport: nothing is sent, the failure is logged, [None] comes
    back. *)
Lemma command_no_transport (cmd : string) (returns : bool) (st : option N) (d : Device) :
  connections d = [] ->
  command cmd returns st d
  = (Return None, log_error (no_connection_message cmd) (rested st d)).
Proof. intros E. now rewrite command_unfold, E. Qed.

Lemma command_failed_sent (A : Type) (e : exn) (c : Connection)
    (rest : list Connection) (d : Device) :
  sent (snd (command_failed (A := A) e c rest d)) = sent d.
Proof. unfold command_failed. destruct (is_connection_error e); reflexivity. Qed.

(** The lead transport takes the write: the command string is what is
    sent, once. *)
Lemma command_sent (cmd : string) (returns : bool) (st : option N) (d : Device)
    (conn c1 : Connection) (rest : list Connection) :
  connections d = conn :: rest ->
  conn_write conn cmd = (Return tt, c1) ->
  sent (snd (command cmd returns st d)) = (sent d ++ [(conn_id conn, cmd)])%list.
Proof.
  intros E W. rewrite command_unfold, E, W. cbv zeta.
  destruct (conn_read c1 returns) as [[text | e |] c2]; cbn [snd].
  - cbn. now rewrite rested_sent.
  - rewrite command_failed_sent. cbn. now rewrite rested_sent.
  - cbn. now rewrite rested_sent.
Qed.

(** Whatever the device: [command] sends the command string once, or
    nothing. *)
Lemma command_sent_any (cmd : string) (returns : bool) (st : option N) (d : Device) :
  sent (snd (command cmd returns st d)) = sent d
  \/ exists id, sent (snd (command cmd returns st d)) = (sent d ++ [(id, cmd)])%list.
Proof.
  rewrite command_unfold.
  destruct (connections d) as [|conn rest].
  - left. cbn. apply rested_sent.
  - destruct (conn_write conn cmd) as [[[] | e |] c1].
    + right. exists (conn_id conn). cbv zeta.
      destruct (conn_read c1 returns) as [[text | e |] c2]; cbn [snd].
      * cbn. now rewrite rested_sent.
      * rewrite command_failed_sent. cbn. now rewrite rested_sent.
      * cbn. now rewrite rested_sent.
    + left. rewrite command_failed_sent. apply rested_sent.
    + left. cbn. apply rested_sent.
Qed.

Lemma with_lock_sent (A : Type) (body : Device -> result A * Device) (d : Device)
    (P : list (nat * string) -> Prop) :
  P (sent d) ->
  (forall d0, sent d0 = sent d -> P (sent (snd (body d0)))) ->
  P (sent (snd (with_lock body d))).
Proof.
  intros H0 H. unfold with_lock. destruct (lock_held d); [exact H0 |].
  specialize (H (set_lock true d) eq_refl).
  destruct (body (set_lock true d)) as [[a | e |] d']; exact H.
Qed.

Lemma with_lock_free_sent (A : Type) (body : Device -> result A * Device) (d : Device) :
  lock_held d = false ->
  sent (snd (with_lock body d)) = sent (snd (body (set_lock true d))).
Proof.
  intros L. unfold with_lock. rewrite L.
  destruct (body (set_lock true d)) as [[a | e |] d']; reflexivity.
Qed.

End DeviceFacts.

(** C3.  When the write, or the read after it, raises a connection error
    in [Device.command], the error is re-raised, the transport is closed
    and taken out of the list of transports; a command attempted with an
    empty list returns [None] without raising, the failure being logged. *)
Theorem command_drops_failed_transport :
  (forall cmd returns st d conn rest c1 e,
     connections d = conn :: rest ->
     is_connection_error e = true ->
     conn_write conn cmd = (Raise e, c1) ->
     let out := command cmd returns st d in
     fst out = Raise e
     /\ connections (snd out) = rest
     /\ closed (snd out) = (closed d ++ [conn_id conn])%list)
  /\ (forall cmd returns st d conn rest c1 c2 e,
     connections d = conn :: rest ->
     is_connection_error e = true ->
     conn_write conn cmd = (Return tt, c1) ->
     conn_read c1 returns = (Raise e, c2) ->
     let out := command cmd returns st d in
     fst out = Raise e
     /\ connections (snd out) = rest
     /\ closed (snd out) = (closed d ++ [conn_id conn])%list)
  /\ (forall cmd returns st d,
     connections d = [] ->
     let out := command cmd returns st d in
     fst out = Return None
     /\ connections (snd out) = []
     /\ logged (snd out) = (logged d ++ [no_connection_message cmd])%list).
Proof.
  split; [| split].
  - intros cmd returns st d conn rest c1 e E CE W out. subst out.
    rewrite DeviceFacts.command_unfold, E, W.
    unfold command_failed. rewrite CE. cbn [fst snd].
    rewrite DeviceFacts.remove_head, (DeviceFacts.conn_write_id _ _ W).
    repeat split. cbn. now rewrite DeviceFacts.rested_closed.
  - intros cmd returns st d conn rest c1 c2 e E CE W R out. subst out.
    rewrite DeviceFacts.command_unfold, E, W. cbv zeta. rewrite R.
    unfold command_failed. rewrite CE. cbn [fst snd].
    rewrite DeviceFacts.remove_head, (DeviceFacts.conn_read_id _ _ R),
      (DeviceFacts.conn_write_id _ _ W).
    repeat split. cbn. now rewrite DeviceFacts.rested_closed.
  - intros cmd returns st d E out. subst out.
    rewrite DeviceFacts.command_no_transport by assumption. cbn [fst snd].
    split; [reflexivity |]. split; cbn.
    + now rewrite DeviceFacts.rested_connections.
    + now rewrite DeviceFacts.rested_logged.
Qed.

(** C3 on a device whose only transport breaks at the write: the transport
    goes, and the next command returns [None]. *)
Lemma command_drops_failed_transport_witness :
  (fst (command "cloi" true default_sleep broken_device) = Raise ConnectionError
   /\ connections (snd (command "cloi" true default_sleep broken_device)) = []
   /\ closed (snd (command "cloi" true default_sleep broken_device)) = [0%nat])
  /\ fst (command "cloi" true default_sleep
            (snd (command "cloi" true default_sleep broken_device)))
     = Return None.
Proof.
  destruct command_drops_failed_transport as (H1 & _ & H3).
  split.
  - apply (H1 "cloi" true default_sleep broken_device
              (mkConnection 0 (SocketEnd "10.0.0.5" 8888) true
                            [SendRaise ConnectionError] [])
              [] (mkConnection 0 (SocketEnd "10.0.0.5" 8888) true [] [])
              ConnectionError);
      reflexivity.
  - apply (H3 "cloi" true default_sleep
              (snd (command "cloi" true default_sleep broken_device))).
    reflexivity.
Defined.

(** C10.  With no transport, a synchronous call with the format [auto]
    returns [None] and does not raise: [command] logs and returns [None],
    and [process_auto] maps [None] to [None].  With the format [number] and
    a response expected the call raises, [float(None)] being a type error. *)
Theorem call_without_transport (d : Device) (args : list token) (resp : bool)
    (st : option N) :
  connections d = [] ->
  lock_held d = false ->
  let auto := Device_call args (mkOpts (Some "auto") resp None false st) d in
  fst auto = Return (Value VNone)
  /\ logged (snd auto) = (logged d ++ [no_connection_message (command_string args)])%list
  /\ sent (snd auto) = sent d
  /\ process_auto None = Return VNone
  /\ fst (Device_call args (mkOpts (Some "number") true None false st) d)
     = Raise TypeError.
Proof.
  intros E L auto. subst auto.
  unfold Device_call, sync_call, with_lock, chosen_formatter.
  cbn [spawn_thread callback response format sleep_time is_some orb].
  rewrite L, !orb_false_r.
  rewrite !DeviceFacts.command_no_transport by assumption.
  unfold apply_formatter. cbn [fst snd rbind].
  repeat split.
  - destruct resp; reflexivity.
  - destruct resp; cbn; now rewrite DeviceFacts.rested_logged.
  - destruct resp; cbn; now rewrite DeviceFacts.rested_sent.
Qed.

(** C10 on the device that [Device()] builds, called as [device.cloi()]. *)
Lemma call_without_transport_witness :
  fst (Device_call [TStr "cloi"] default_opts bare_device) = Return (Value VNone)
  /\ fst (Device_call [TStr "cloi"]
            (mkOpts (Some "number") true None false default_sleep) bare_device)
     = Raise TypeError.
Proof.
  destruct (@call_without_transport bare_device [TStr "cloi"] true default_sleep
              eq_refl eq_refl) as (H1 & _ & _ & _ & H5).
  split; assumption.
Defined.

(** C1.  Invoking a builder that holds the tokens t1..tn with the
    arguments a1..am sends the one string made of str(t1)..str(tn),
    str(a1)..str(am) joined by single spaces, the tokens first and in the
    order they were appended.  Whatever the device, nothing else is ever
    sent.  On a device whose lead transport takes the write, that string is
    sent, once: at once by a synchronous call, and by the task that an
    asynchronous call queues when a worker runs it. *)
Theorem builder_call_transmits (h : heap) (b : CommandBuilder) (args : list token)
    (o : call_opts) (d : Device) :
  let cmd := PyStr.join " " (map str (tokens h b ++ args)) in
  (sent (snd (builder_call b args o h d)) = sent d
   \/ exists id, sent (snd (builder_call b args o h d)) = (sent d ++ [(id, cmd)])%list)
  /\ (forall conn rest c1,
        spawn_thread o = false -> callback o = None ->
        lock_held d = false ->
        connections d = conn :: rest ->
        conn_write conn cmd = (Return tt, c1) ->
        sent (snd (builder_call b args o h d)) = (sent d ++ [(conn_id conn, cmd)])%list)
  /\ (spawn_thread o = true \/ callback o <> None ->
      pool_shutdown d = false ->
      exists t,
        builder_call b args o h d = (Return (Future t), enqueue t d)
        /\ task_command t = cmd
        /\ forall d2 conn rest c1,
             lock_held d2 = false ->
             connections d2 = conn :: rest ->
             conn_write conn cmd = (Return tt, c1) ->
             sent (snd (run_task t d2)) = (sent d2 ++ [(conn_id conn, cmd)])%list).
Proof.
  intros cmd. unfold builder_call, Device_call.
  fold (command_string (tokens h b ++ args)).
  change (command_string (tokens h b ++ args)) with cmd.
  split; [| split].
  - destruct (spawn_thread o || is_some (callback o)).
    + left. unfold submit. destruct (pool_shutdown d); reflexivity.
    + destruct (sync_call _ _ _ _ d) as [r d'] eqn:E. cbn [snd].
      replace d' with (snd (sync_call cmd (chosen_formatter o)
                              (response o || is_some (callback o)) (sleep_time o) d))
        by now rewrite E.
      unfold sync_call. apply DeviceFacts.with_lock_sent; [now left |].
      intros d0 E0. unfold apply_formatter. cbn [snd]. rewrite <- E0.
      apply DeviceFacts.command_sent_any.
  - intros conn rest c1 S C L E W. rewrite S, C. cbn [is_some orb].
    destruct (sync_call _ _ _ _ d) as [r d'] eqn:E'. cbn [snd].
    replace d' with (snd (sync_call cmd (chosen_formatter o) (response o || false)
                            (sleep_time o) d))
      by now rewrite E'.
    unfold sync_call. rewrite DeviceFacts.with_lock_free_sent by assumption.
    unfold apply_formatter. cbn [snd].
    now rewrite DeviceFacts.command_sent with (conn := conn) (c1 := c1) (rest := rest).
  - intros A P.
    assert (T : spawn_thread o || is_some (callback o) = true).
    { destruct A as [-> | A]; [reflexivity |].
      destruct (callback o); [apply orb_true_r | congruence]. }
    rewrite T. unfold submit. rewrite P.
    eexists. split; [reflexivity |]. split; [reflexivity |].
    intros d2 conn rest c1 L E W. unfold run_task, _async_call. cbn [task_command task_formatter].
    rewrite DeviceFacts.with_lock_free_sent by assumption.
    unfold apply_formatter. cbn [snd].
    now rewrite DeviceFacts.command_sent with (conn := conn) (c1 := c1) (rest := rest).
Qed.

(** C1 on [device.measure.voltage(5)], the device on a working socket. *)
Lemma builder_call_transmits_witness :
  sent (snd (builder_call (fst chain) [TInt 5] default_opts (snd chain) ready_device))
  = [(0%nat, "measure voltage 5")].
Proof.
  destruct (builder_call_transmits (snd chain) (fst chain) [TInt 5] default_opts
              ready_device) as (_ & H & _).
  apply (H (mkConnection 0 (SocketEnd "10.0.0.5" 8888) true [] [RecvData "4.98"]) []
           (mkConnection 0 (SocketEnd "10.0.0.5" 8888) true [] [RecvData "4.98"]));
    reflexivity.
Defined.

(** C4 on the code.  With [response=False] the synchronous call does not
    wait for an answer and sleeps for the delay it was given, while the task
    queued by the same call with [spawn_thread=True] waits for the answer,
    returns it, and sleeps for the default delay. *)
Theorem async_ignores_response_and_delay :
  fst (Device_call [TStr "x"] quiet_opts serial_device) = Return (Value (VStr EmptyString))
  /\ slept (snd (Device_call [TStr "x"] quiet_opts serial_device)) = [5000%N]
  /\ option_map fst (run_next (snd (Device_call [TStr "x"] quiet_async_opts serial_device)))
     = Some (Return (VStr (String "o" (String "k" (String PyStr.newline EmptyString)))))
  /\ option_map (fun out => slept (snd out))
       (run_next (snd (Device_call [TStr "x"] quiet_async_opts serial_device)))
     = Some [1000%N].
Proof. repeat split. Qed.

(** When a response is expected and the delay is the default one, the task
    of the pool and the synchronous branch are the same computation. *)
Remark async_agrees_when_reading (cmd : string) (f : formatter) (d : Device) :
  sync_call cmd f true default_sleep d = _async_call cmd f d.
Proof. reflexivity. Qed.

(* ================================================================== *)
(** * Builders and the lists they hold *)

Module BuilderFacts.
Local Open Scope nat_scope.

Lemma tokens_append_at (h : heap) (l : nat) (t : token) (b : CommandBuilder) :
  tokens (append_at l t h) b
  = if Nat.eqb (cb_command b) l then (tokens h b ++ [t])%list else tokens h b.
Proof.
  unfold tokens, append_at. cbn [cells].
  destruct (Nat.eqb (cb_command b) l) eqn:E; [| reflexivity].
  apply Nat.eqb_eq in E. now rewrite E.
Qed.

(** A step on [b] appends to the list of [b] and to no other list. *)
Lemma tokens_step (h : heap) (b b' : CommandBuilder) (op : step_op) :
  tokens (step b op h) b'
  = if Nat.eqb (cb_command b') (cb_command b)
    then (tokens h b' ++ appended op)%list else tokens h b'.
Proof.
  destruct op as [name | v]; unfold step, appended,
    CommandBuilder_getattribute, CommandBuilder_getitem.
  - destruct (has_dunder name || name_in name builder_dir); cbn [snd].
    + rewrite app_nil_r. now destruct (Nat.eqb _ _).
    + apply tokens_append_at.
  - cbn [snd]. apply tokens_append_at.
Qed.

(** Two builders on different lists grow independently, whatever the order
    of the steps. *)
Lemma steps_independent (b1 b2 : CommandBuilder) (ops : list (bool * step_op)) :
  cb_command b1 <> cb_command b2 ->
  forall h,
    tokens (steps b1 b2 ops h) b1 = (tokens h b1 ++ appended_to true ops)%list
    /\ tokens (steps b1 b2 ops h) b2 = (tokens h b2 ++ appended_to false ops)%list.
Proof.
  intros D. induction ops as [|[which op] ops IH]; intros h.
  - cbn. now rewrite !app_nil_r.
  - cbn [steps]. destruct (IH (step (if which then b1 else b2) op h)) as [I1 I2].
    rewrite I1, I2, !tokens_step.
    unfold appended_to. cbn [flat_map fst snd].
    assert (N12 : Nat.eqb (cb_command b1) (cb_command b2) = false)
      by now apply Nat.eqb_neq.
    assert (N21 : Nat.eqb (cb_command b2) (cb_command b1) = false)
      by (apply Nat.eqb_neq; congruence).
    destruct which; cbn [Bool.eqb]; rewrite ?Nat.eqb_refl, ?N12, ?N21;
      rewrite ?app_nil_l, ?app_assoc; split; reflexivity.
Qed.

(** What [dup] builds: a builder on a list that did not exist before, equal
    to the list of the original, every older list being left as it was. *)
Lemma dup_fresh (b : CommandBuilder) (h : heap) :
  next h <= cb_command (fst (dup b h))
  /\ tokens (snd (dup b h)) (fst (dup b h)) = tokens h b
  /\ forall l, l < next h -> cells (snd (dup b h)) l = cells h l.
Proof.
  unfold dup, CommandBuilder_init, alloc, tokens. cbn [fst snd cells next].
  rewrite Nat.eqb_refl.
  destruct (cells h (cb_command b)) as [|t ts] eqn:E; cbn [fst snd cells next cb_command].
  - rewrite Nat.eqb_refl. repeat split; [lia |].
    intros l L.
    replace (Nat.eqb l (S (next h))) with false by (symmetry; apply Nat.eqb_neq; lia).
    replace (Nat.eqb l (next h)) with false by (symmetry; apply Nat.eqb_neq; lia).
    reflexivity.
  - rewrite Nat.eqb_refl. repeat split; [lia |].
    intros l L.
    replace (Nat.eqb l (next h)) with false by (symmetry; apply Nat.eqb_neq; lia).
    reflexivity.
Qed.

End BuilderFacts.

(** C7.  [b.dup()] gives a builder on a copy of the tokens of [b]: it holds
    the same tokens, [b] still holds its own, and from then on every step
    (by attribute or by index) on the one leaves the tokens of the other
    unchanged, whatever the order of the steps: each holds the common
    tokens followed by what was appended to it alone. *)
Theorem dup_is_independent (h : heap) (b : CommandBuilder) (ops : list (bool * step_op)) :
  (cb_command b < next h)%nat ->
  let b' := fst (dup b h) in
  let h1 := snd (dup b h) in
  tokens h1 b' = tokens h b
  /\ tokens h1 b = tokens h b
  /\ tokens (steps b b' ops h1) b = (tokens h b ++ appended_to true ops)%list
  /\ tokens (steps b b' ops h1) b' = (tokens h b ++ appended_to false ops)%list.
Proof.
  intros L b' h1.
  destruct (BuilderFacts.dup_fresh b h) as (F & C & O).
  fold b' in F, C. fold h1 in C, O.
  assert (B : tokens h1 b = tokens h b) by (unfold tokens; now apply O).
  assert (D : cb_command b <> cb_command b') by lia.
  destruct (BuilderFacts.steps_independent b b' ops D h1) as [S1 S2].
  rewrite S1, S2, B, C. auto.
Qed.

(** C7 on [device.measure.voltage]: the copy takes [.dc[1]], the original
    [.ac], in turn. *)
Lemma dup_is_independent_witness :
  tokens (steps (fst chain) (fst (dup (fst chain) (snd chain)))
                [(false, ByAttr "dc"); (true, ByAttr "ac"); (false, ByIndex (TInt 1))]
                (snd (dup (fst chain) (snd chain))))
         (fst chain)
  = [TStr "measure"; TStr "voltage"; TStr "ac"]
  /\ tokens (steps (fst chain) (fst (dup (fst chain) (snd chain)))
                [(false, ByAttr "dc"); (true, ByAttr "ac"); (false, ByIndex (TInt 1))]
                (snd (dup (fst chain) (snd chain))))
         (fst (dup (fst chain) (snd chain)))
  = [TStr "measure"; TStr "voltage"; TStr "dc"; TInt 1].
Proof.
  assert (L : (cb_command (fst chain) < next (snd chain))%nat) by (vm_compute; lia).
  destruct (@dup_is_independent (snd chain) (fst chain)
              [(false, ByAttr "dc"); (true, ByAttr "ac"); (false, ByIndex (TInt 1))] L)
    as (_ & _ & H3 & H4).
  split; [exact H3 | exact H4].
Defined.

(** Without [dup], a step returns the builder itself: a second name for it
    sees every later append. *)
Remark step_returns_same_builder (b : CommandBuilder) (v : token) (h : heap) :
  fst (CommandBuilder_getitem b v h) = b
  /\ tokens (snd (CommandBuilder_getitem b v h)) b = (tokens h b ++ [v])%list.
Proof.
  split; [reflexivity |].
  unfold CommandBuilder_getitem. cbn [snd].
  now rewrite BuilderFacts.tokens_append_at, Nat.eqb_refl.
Qed.

(* ================================================================== *)
(** * Discovery *)

Module DiscoverFacts.
Local Open Scope Z_scope.

Lemma Device_init_socket (host : string) :
  Device_init (Some host) (Some 8888) = Return (device_at host).
Proof. reflexivity. Qed.

Lemma discover_loop_paced (timeout : Z) (inbox : list reply) :
  forall now start_time devices,
    now <= start_time + timeout ->
    paced timeout now inbox ->
    discover_loop timeout now start_time inbox devices
    = Return (devices ++ map (fun r => device_at (fst (reply_from r))) inbox)%list.
Proof.
  induction inbox as [|r inbox IH]; intros now start_time devices W P.
  - cbn [discover_loop map].
    replace (now >? start_time + timeout) with false
      by (symmetry; rewrite Z.gtb_ltb; apply Z.ltb_ge; lia).
    now rewrite app_nil_r.
  - destruct P as (A & C & F & P').
    cbn [discover_loop map].
    replace (now >? start_time + timeout) with false
      by (symmetry; rewrite Z.gtb_ltb; apply Z.ltb_ge; lia).
    replace (reply_at r >? now + timeout) with false
      by (symmetry; rewrite Z.gtb_ltb; apply Z.ltb_ge; lia).
    rewrite F, Device_init_socket. cbn [rbind].
    rewrite IH by (assumption || lia).
    now rewrite <- app_assoc.
Qed.

End DiscoverFacts.

(** C8, as the code has it.  When the replies keep coming within the
    window, and each connection is made within it, [discover] returns one
    device per reply datagram, in the order of arrival, each connected to
    the sender of its datagram on TCP port 8888.  A host gets as many devices
    as it sent datagrams; the list has one device per host exactly when no
    host is heard twice. *)
Theorem discover_one_device_per_reply (timeout t0 : Z) (inbox : list reply) :
  (0 <= timeout)%Z ->
  paced timeout t0 inbox ->
  exists devices,
    discover timeout t0 inbox = Return devices
    /\ map device_host devices
       = map (fun r => Some (fst (reply_from r), 8888%Z)) inbox
    /\ List.length devices = List.length inbox
    /\ (NoDup (map (fun r => fst (reply_from r)) inbox) ->
        List.length devices = List.length (distinct_hosts inbox)).
Proof.
  intros T P. unfold discover.
  rewrite DiscoverFacts.discover_loop_paced by (assumption || lia).
  eexists. split; [reflexivity |]. cbn [app].
  split; [| split].
  - rewrite map_map. reflexivity.
  - now rewrite length_map.
  - intros ND. unfold distinct_hosts. rewrite nodup_fixed_point by assumption.
    now rewrite !length_map.
Qed.

(** C8 at one host that answers twice: two devices, both for that host. *)
Lemma discover_one_device_per_reply_witness :
  exists devices,
    discover 100 0 two_replies_one_host = Return devices
    /\ map device_host devices
       = [Some ("192.168.0.7", 8888%Z); Some ("192.168.0.7", 8888%Z)].
Proof.
  destruct (@discover_one_device_per_reply 100 0 two_replies_one_host) as (ds & E & M & _).
  - lia.
  - cbn. repeat split; lia.
  - exists ds. split; [exact E | exact M].
Defined.

(** C8 fails as stated: a host that sends two datagrams within the window
    is given two devices, not one. *)
Lemma discover_repeats_a_host :
  discover 100 0 two_replies_one_host
  = Return [device_at "192.168.0.7"; device_at "192.168.0.7"]
  /\ distinct_hosts two_replies_one_host = ["192.168.0.7"]
  /\ ~ (forall devices,
          discover 100 0 two_replies_one_host = Return devices ->
          List.length devices = List.length (distinct_hosts two_replies_one_host)).
Proof.
  split; [reflexivity |]. split; [reflexivity |].
  intros H. specialize (H _ eq_refl). discriminate H.
Qed.

(* ================================================================== *)
(** * One command at a time *)

Module InterleavingFacts.
Import Interleaving.
Local Open Scope nat_scope.

Lemma nth_error_update (A : Type) (l : list A) (i j : nat) (x : A) :
  nth_error (update i x l) j
  = if Nat.eqb i j then
      match nth_error l j with Some _ => Some x | None => None end
    else nth_error l j.
Proof.
  revert i j. induction l as [|y l IH]; intros i j.
  - destruct i, j; cbn; try reflexivity. now destruct (Nat.eqb i j).
  - destruct i as [|i], j as [|j]; cbn; try reflexivity. apply IH.
Qed.

Lemma scan_snoc (tr : list event) (evs : list event) :
  scan (tr ++ evs) = fold_left scan_event evs (scan tr).
Proof. unfold scan. apply fold_left_app. Qed.

Lemma invariant_initial (paths : list path) : invariant (initial paths).
Proof.
  split; [| reflexivity].
  intros i. unfold caller_inside, initial. cbn [callers lock].
  rewrite nth_error_map. destruct (nth_error paths i); cbn; split; discriminate.
Qed.

(** A caller that is inside moves on, stays inside or leaves by the
    release. *)
Lemma advance_inside (i : nat) (p : path) (at_ : pc) (ok has_conn : bool) :
  inside at_ = true ->
  exists at' evs,
    advance i p at_ ok has_conn = Some (at', evs)
    /\ fold_left scan_event evs (Some (Some i))
       = Some (match at_ with AtRelease => None | _ => Some i end)
    /\ inside at' = match at_ with AtRelease => false | _ => true end.
Proof.
  destruct at_; cbn; try discriminate; intros _;
    try (destruct ok); try (destruct has_conn);
    eexists; eexists; (split; [reflexivity |]); cbn; rewrite ?Nat.eqb_refl; auto.
Qed.

Lemma caller_inside_update (s : state) (i j : nat) (p : path) (at_ at' : pc)
    (l : option nat) (tr : list event) :
  nth_error (callers s) i = Some (p, at_) ->
  caller_inside (mkState (update i (p, at') (callers s)) l tr) j
  = if Nat.eqb i j then inside at' else caller_inside s j.
Proof.
  intros E. unfold caller_inside. cbn [callers].
  rewrite nth_error_update.
  destruct (Nat.eqb i j) eqn:N; [| reflexivity].
  apply Nat.eqb_eq in N. subst j. now rewrite E.
Qed.

Lemma invariant_step (i : nat) (ok has_conn : bool) (s : state) :
  invariant s -> invariant (step i ok has_conn s).
Proof.
  intros Inv. pose proof Inv as [I T]. unfold step.
  destruct (nth_error (callers s) i) as [[p at_]|] eqn:E; [| exact Inv].
  assert (Ii := I i). unfold caller_inside in Ii. rewrite E in Ii.
  destruct (inside at_) eqn:IN.
  - (* the caller holds the lock *)
    assert (L : lock s = Some i) by now apply Ii.
    destruct (advance_inside i p at_ ok has_conn IN) as (at' & evs & A & S & IN').
    assert (NA : at_ <> AtAcquire) by (intros ->; discriminate).
    replace (match at_ with
             | AtAcquire => match lock s with
                            | Some _ => s
                            | None => _
                            end
             | _ => _
             end)
      with (mkState (update i (p, at') (callers s))
                    (match at_ with AtRelease => None | _ => Some i end)
                    (trace s ++ evs)).
    2:{ rewrite A, L. destruct at_; try reflexivity; congruence. }
    split.
    + intros j. rewrite (@caller_inside_update s i j p at_ _ _ _ E).
      destruct (Nat.eqb i j) eqn:N.
      * apply Nat.eqb_eq in N. subst j. rewrite IN'.
        destruct at_; cbn; split; congruence.
      * apply Nat.eqb_neq in N. rewrite (I j), L.
        destruct at_; cbn; split; congruence.
    + cbn [trace lock]. rewrite scan_snoc, T, L. exact S.
  - (* the caller is outside: at the [with], or done *)
    destruct at_; try discriminate.
    + destruct (lock s) as [k|] eqn:L; [exact Inv |].
      cbn [advance]. split.
      * intros j. rewrite (@caller_inside_update s i j p AtAcquire _ _ _ E).
        destruct (Nat.eqb i j) eqn:N.
        -- apply Nat.eqb_eq in N. subst j. cbn. split; congruence.
        -- apply Nat.eqb_neq in N. rewrite (I j). cbn [lock].
           split; congruence.
      * cbn [trace lock]. now rewrite scan_snoc, T.
    + destruct (lock s); exact Inv.
Qed.

Lemma invariant_run (sch : schedule) (s : state) :
  invariant s -> invariant (run sch s).
Proof.
  revert s. induction sch as [|[[i ok] has_conn] sch IH]; intros s I; [exact I |].
  apply IH, invariant_step, I.
Qed.

End InterleavingFacts.

(** C9.  Callers that reach the transport through the synchronous branch of
    [__call__] or through [_async_call] hold the lock from before the write
    until after the read.  So, however their steps are interleaved, at most
    one caller is inside its write+read cycle at any moment, and every call
    of [write] or [read] recorded on the transport lies between the taking
    and the release of the lock by the caller that made it, no step of
    another caller falling in between. *)
Theorem one_command_at_a_time (paths : list Interleaving.path)
    (sch : Interleaving.schedule) :
  let s := Interleaving.run sch (Interleaving.initial paths) in
  (forall i j,
     Interleaving.caller_inside s i = true ->
     Interleaving.caller_inside s j = true -> i = j)
  /\ Interleaving.exclusive (Interleaving.trace s) = true.
Proof.
  intros s.
  destruct (InterleavingFacts.invariant_run sch
              (InterleavingFacts.invariant_initial paths)) as [I T].
  fold s in I, T. split.
  - intros i j Hi Hj. apply I in Hi, Hj. congruence.
  - unfold Interleaving.exclusive. now rewrite T.
Qed.

(* ================================================================== *)
(** * Framed numeric responses are read back *)

Module FramedFacts.
Import PyStr PyStrFacts ReFacts PatternFacts PyFloat DecimalFacts.

Lemma rstrip_dropped (chars a b : string) :
  rstrip chars b = EmptyString -> rstrip chars (a ++ b) = rstrip chars a.
Proof.
  intros H. induction a as [|c a IH]; cbn [append rstrip]; [assumption |].
  now rewrite IH.
Qed.

Lemma rstrip_clean (chars s : string) : ends_digit s ->
  (forall d, mem (digit_char d) chars = false) -> rstrip chars s = s.
Proof.
  intros (pre & d & ->) H.
  apply rstrip_app; [discriminate | apply rstrip_last, H].
Qed.

Lemma lstrip_clean (chars s : string) : starts_clean chars s -> lstrip chars s = s.
Proof. destruct s as [|c s]; cbn; [tauto |]. now intros ->. Qed.

(** [split] undoes [join] when no piece holds the separator. *)
Lemma split_join (sep : ascii) (l : list string) :
  l <> [] ->
  (forall s, In s l -> mem sep s = false) ->
  split sep (join (String sep EmptyString) l) = l.
Proof.
  induction l as [|s l IH]; [congruence |]. intros _ H.
  destruct l as [|t l].
  - cbn [join]. apply split_no_sep, H. now left.
  - cbn [join]. change (String sep EmptyString ++ ?x) with (String sep x).
    rewrite split_app by (apply H; now left).
    f_equal. apply IH; [discriminate |]. intros u Hu. apply H. now right.
Qed.

Lemma join_ends_digit (sep : string) (l : list string) :
  l <> [] -> (forall s, In s l -> ends_digit s) -> ends_digit (join sep l).
Proof.
  induction l as [|s l IH]; [congruence |]. intros _ H.
  destruct l as [|t l].
  - apply H. now left.
  - cbn [join]. do 2 apply ends_digit_app.
    apply IH; [discriminate |]. intros u Hu. apply H. now right.
Qed.

Lemma join_starts_clean (chars sep : string) (l : list string) :
  l <> [] -> (forall s, In s l -> starts_clean chars s) ->
  starts_clean chars (join sep l).
Proof.
  destruct l as [|s l]; [congruence |]. intros _ H.
  assert (S : starts_clean chars s) by (apply H; now left).
  destruct l as [|t l]; [exact S |].
  cbn [join]. destruct s; [contradiction | exact S].
Qed.

(** The characters of a numeral. *)
Lemma mem_render (c : ascii) (n : decimal) :
  numeral_char c = false -> mem c (render n) = false.
Proof.
  unfold numeral_char. intros N.
  apply orb_false_elim in N as [N Ne]. apply orb_false_elim in N as [N Np].
  apply orb_false_elim in N as [N Nm]. apply orb_false_elim in N as [Nd Npl].
  unfold render. rewrite !mem_app, (@PlusFacts.mem_digits c _ Nd).
  assert (S : mem c (sign_string (dec_sign n)) = false).
  { destruct (dec_sign n) as [[|]|]; cbn [sign_string mem]; rewrite ?Nm, ?Npl; reflexivity. }
  rewrite S. cbn [orb].
  assert (F : mem c match dec_frac n with
                    | Some f => "." ++ digits_string (row f)
                    | None => EmptyString
                    end = false).
  { destruct (dec_frac n) as [f|]; [| reflexivity].
    cbn [append mem]. now rewrite Np, (@PlusFacts.mem_digits c _ Nd). }
  rewrite F. cbn [orb].
  destruct (dec_exp n) as [[neg e]|]; [| reflexivity].
  cbn [append mem]. rewrite Ne, mem_app, (@PlusFacts.mem_digits c _ Nd).
  destruct neg; cbn [mem]; rewrite ?Nm; reflexivity.
Qed.

Lemma render_starts_clean (chars : string) (n : decimal) :
  (forall c, numeral_char c = true -> mem c chars = false) ->
  starts_clean chars (render n).
Proof.
  intros H. destruct (render_tail n) as [body E]. rewrite E.
  destruct (dec_sign n) as [[|]|]; cbn [sign_string append starts_clean];
    apply H; try reflexivity.
  destruct (fst (dec_int n)); reflexivity.
Qed.

Lemma framing_not_numeral (c : ascii) : numeral_char c = true -> mem c framing = false.
Proof.
  intros N. cbn [framing mem].
  destruct (Ascii.eqb c newline) eqn:E1; [apply Ascii.eqb_eq in E1; now subst c |].
  destruct (Ascii.eqb c "[") eqn:E2; [apply Ascii.eqb_eq in E2; now subst c |].
  destruct (Ascii.eqb c "]") eqn:E3; [apply Ascii.eqb_eq in E3; now subst c |].
  destruct (Ascii.eqb c ";") eqn:E4; [apply Ascii.eqb_eq in E4; now subst c |].
  reflexivity.
Qed.

Lemma rstrip_closing (nl : bool) : rstrip framing ("]" ++ terminator nl) = EmptyString.
Proof. destruct nl; reflexivity. Qed.

(** Stripping the frame leaves what is between the brackets. *)
Lemma strip_framed (inner : string) (nl : bool) :
  starts_clean framing inner -> ends_digit inner ->
  strip framing ("[" ++ inner ++ "]" ++ terminator nl) = inner.
Proof.
  intros S E. unfold strip.
  change ("[" ++ ?x) with (String "[" x). cbn [lstrip].
  change (mem "[" framing) with true. cbv iota.
  assert (S' : starts_clean framing (inner ++ "]" ++ terminator nl))
    by (destruct inner; [contradiction | exact S]).
  rewrite (lstrip_clean _ _ S'), rstrip_dropped by apply rstrip_closing.
  apply rstrip_clean; [assumption |]. intros d. now destruct d.
Qed.

Lemma floats_of_renders (ns : list decimal) :
  rmap (fun y => py_float (Some y)) (map render ns) = Return (map decimal_value ns).
Proof.
  induction ns as [|n ns IH]; [reflexivity |].
  cbn [map rmap]. unfold py_float at 1. rewrite ParseFacts.parse_render.
  cbn [rbind]. now rewrite IH.
Qed.

Lemma renders_nonempty (A : Type) (f : A -> string) (l : list A) :
  l <> [] -> map f l <> [].
Proof. destruct l; [congruence | discriminate]. Qed.

(** [process_array] on the text of an array. *)
Lemma process_array_text (ns : list decimal) (nl : bool) :
  ns <> [] ->
  process_array (Some (array_text ns nl)) = Return (VArray (map decimal_value ns)).
Proof.
  intros N. unfold process_array, array_text. cbn [as_str rbind].
  rewrite strip_framed.
  - rewrite split_join.
    + now rewrite floats_of_renders.
    + now apply renders_nonempty.
    + intros s Hs. apply in_map_iff in Hs as (n & <- & _). now apply mem_render.
  - apply join_starts_clean; [now apply renders_nonempty |].
    intros s Hs. apply in_map_iff in Hs as (n & <- & _).
    apply render_starts_clean, framing_not_numeral.
  - apply join_ends_digit; [now apply renders_nonempty |].
    intros s Hs. apply in_map_iff in Hs as (n & <- & _). apply render_ends_digit.
Qed.

End FramedFacts.

Module FramedFacts2.
Import PyStr PyStrFacts ReFacts PatternFacts PyFloat DecimalFacts FramedFacts.

Lemma map_not_nil (A B : Type) (f : A -> B) (l : list A) : l <> [] -> map f l <> [].
Proof. destruct l; [congruence | discriminate]. Qed.

Lemma mem_join (c : ascii) (sep : string) (l : list string) :
  mem c sep = false -> (forall s, In s l -> mem c s = false) ->
  mem c (join sep l) = false.
Proof.
  intros Hs. induction l as [|s l IH]; intros H; [reflexivity |].
  destruct l as [|t l].
  - apply H. now left.
  - cbn [join]. rewrite !mem_app, Hs, (H s) by now left.
    cbn [orb]. apply IH. intros u Hu. apply H. now right.
Qed.

Lemma mem_row_text (c : ascii) (ns : list decimal) :
  numeral_char c = false -> Ascii.eqb c "," = false -> mem c (row_text ns) = false.
Proof.
  intros N C. apply mem_join.
  - cbn [mem]. now rewrite C.
  - intros s Hs. apply in_map_iff in Hs as (n & <- & _). now apply mem_render.
Qed.

Lemma row_text_starts_clean (ns : list decimal) :
  ns <> [] -> starts_clean framing (row_text ns).
Proof.
  intros N. apply join_starts_clean; [now apply renders_nonempty |].
  intros s Hs. apply in_map_iff in Hs as (n & <- & _).
  apply render_starts_clean, framing_not_numeral.
Qed.

Lemma row_text_ends_digit (ns : list decimal) : ns <> [] -> ends_digit (row_text ns).
Proof.
  intros N. apply join_ends_digit; [now apply renders_nonempty |].
  intros s Hs. apply in_map_iff in Hs as (n & <- & _). apply render_ends_digit.
Qed.

Lemma floats_of_rows (rows : list (list decimal)) :
  (forall r, In r rows -> r <> []) ->
  rmap (fun y => rmap (fun z => py_float (Some z)) (split "," y)) (map row_text rows)
  = Return (map (map decimal_value) rows).
Proof.
  induction rows as [|r rows IH]; intros H; [reflexivity |].
  cbn [map rmap]. unfold row_text at 1.
  rewrite split_join.
  - rewrite floats_of_renders. cbn [rbind].
    rewrite IH by (intros u Hu; apply H; now right). reflexivity.
  - apply renders_nonempty, H. now left.
  - intros s Hs. apply in_map_iff in Hs as (n & <- & _). now apply mem_render.
Qed.

(** [process_matrix] on the text of a matrix, the rows of any lengths. *)
Lemma process_matrix_text (rows : list (list decimal)) (nl : bool) :
  rows <> [] -> (forall r, In r rows -> r <> []) ->
  process_matrix (Some (matrix_text rows nl))
  = Return (VMatrix (map (map decimal_value) rows)).
Proof.
  intros N R. unfold process_matrix, matrix_text. cbn [as_str rbind].
  rewrite strip_framed.
  - rewrite split_join.
    + now rewrite floats_of_rows.
    + now apply renders_nonempty.
    + intros s Hs. apply in_map_iff in Hs as (r & <- & _). now apply mem_row_text.
  - apply join_starts_clean; [now apply renders_nonempty |].
    intros s Hs. apply in_map_iff in Hs as (r & <- & Hr).
    apply row_text_starts_clean, R, Hr.
  - apply join_ends_digit; [now apply renders_nonempty |].
    intros s Hs. apply in_map_iff in Hs as (r & <- & Hr).
    apply row_text_ends_digit, R, Hr.
Qed.

(** *** The patterns *)

Lemma plus_star (r : regex) (s : string) : matches (Plus r) s -> matches (Star r) s.
Proof.
  intros M. apply matches_Cat_inv in M as (s1 & s2 & -> & M1 & M2).
  now apply MStarS.
Qed.

Lemma matches_sep (c : ascii) : matches (Opt (Chr c)) (String c EmptyString).
Proof. apply MAltL. constructor. Qed.

(** Pieces that each match [piece], joined by [;], match [(piece;?)+]. *)
Lemma matches_joined (piece : regex) (l : list string) :
  l <> [] -> (forall s, In s l -> matches piece s) ->
  matches (Plus (Cat piece (Opt (Chr ";")))) (join ";" l).
Proof.
  induction l as [|s l IH]; [congruence |]. intros _ H.
  destruct l as [|t l].
  - cbn [join]. rewrite <- (append_nil_r s). unfold Plus.
    constructor; [| constructor].
    rewrite <- (append_nil_r s). constructor; [apply H; now left | apply matches_opt_none].
  - cbn [join]. rewrite <- append_assoc. unfold Plus.
    constructor.
    + constructor; [apply H; now left | apply matches_sep].
    + apply plus_star, IH; [discriminate |]. intros u Hu. apply H. now right.
Qed.

Lemma matches_framed (group : regex) (inner : string) (nl : bool) :
  matches (Plus group) inner ->
  fullmatch (Cat (Cat (Chr "[") (Cat (Plus group) (Chr "]"))) (Opt (Chr newline)))
            ("[" ++ inner ++ "]" ++ terminator nl) = true.
Proof.
  intros M. apply fullmatch_iff.
  replace ("[" ++ inner ++ "]" ++ terminator nl)
    with (("[" ++ inner ++ "]") ++ terminator nl)
    by (cbn [append]; now rewrite append_assoc).
  constructor.
  - change ("[" ++ ?x) with (String "[" EmptyString ++ x).
    constructor; [constructor |]. constructor; [assumption | constructor].
  - destruct nl; [apply matches_sep | apply matches_opt_none].
Qed.

Lemma array_text_matches (ns : list decimal) (nl : bool) :
  ns <> [] -> fullmatch re_array (array_text ns nl) = true.
Proof.
  intros N. apply (matches_framed (group := array_group)).
  apply matches_joined; [now apply renders_nonempty |].
  intros s Hs. apply in_map_iff in Hs as (n & <- & _). apply matches_number_regex.
Qed.

Lemma matches_pair (p : decimal * decimal) :
  matches (Cat number_regex (Cat (Chr ",") number_regex)) (row_text (pair_row p)).
Proof.
  unfold row_text, pair_row. cbn [map join].
  constructor; [apply matches_number_regex |].
  change ("," ++ ?x) with (String "," EmptyString ++ x).
  constructor; [constructor | apply matches_number_regex].
Qed.

(** The matrix pattern groups [n,n;?]; regrouping [(n,n);?] gives the same
    language. *)
Lemma regroup (r1 r2 r3 r4 : regex) (s : string) :
  matches (Cat (Cat r1 (Cat r2 r3)) r4) s -> matches (Cat r1 (Cat r2 (Cat r3 r4))) s.
Proof.
  intros M. apply matches_Cat_inv in M as (a & d & -> & Ma & Md).
  apply matches_Cat_inv in Ma as (a1 & a2 & -> & M1 & Ma2).
  apply matches_Cat_inv in Ma2 as (b & c & -> & Mb & Mc).
  rewrite !append_assoc. repeat constructor; assumption.
Qed.

Lemma star_map (r r' : regex) (s : string) :
  (forall t, matches r t -> matches r' t) -> matches (Star r) s -> matches (Star r') s.
Proof.
  intros H M. remember (Star r) as q eqn:Q. induction M; try discriminate.
  - constructor.
  - injection Q as ->. constructor; auto.
Qed.

Lemma matrix_text_matches (rows : list (decimal * decimal)) (nl : bool) :
  rows <> [] -> fullmatch re_matrix (matrix_text (map pair_row rows) nl) = true.
Proof.
  intros N. apply (matches_framed (group := matrix_group)).
  assert (M : matches (Plus (Cat (Cat number_regex (Cat (Chr ",") number_regex))
                                 (Opt (Chr ";"))))
                      (join ";" (map row_text (map pair_row rows)))).
  { apply matches_joined; [now apply renders_nonempty, map_not_nil |].
    intros s Hs. apply in_map_iff in Hs as (r & <- & Hr).
    apply in_map_iff in Hr as (p & <- & _). apply matches_pair. }
  apply matches_Cat_inv in M as (s1 & s2 & -> & M1 & M2).
  constructor; [now apply regroup |].
  apply (star_map (r := Cat (Cat number_regex (Cat (Chr ",") number_regex))
                            (Opt (Chr ";")))); [apply regroup | assumption].
Qed.

(** A text that the matrix pattern matches holds a comma. *)
Lemma matrix_has_comma (s : string) : fullmatch re_matrix s = true -> mem "," s = true.
Proof.
  intros M. apply fullmatch_iff in M.
  apply matches_Cat_inv in M as (a & o & -> & Ma & _).
  apply matches_Cat_inv in Ma as (b & c & -> & _ & Mc).
  apply matches_Cat_inv in Mc as (p & q & -> & Mp & _).
  apply matches_Cat_inv in Mp as (g & st & -> & Mg & _).
  apply matches_Cat_inv in Mg as (n1 & t & -> & _ & Mt).
  apply matches_Cat_inv in Mt as (cm & u & -> & Mcm & _).
  apply matches_Chr_inv in Mcm as ->.
  rewrite !mem_app. cbn [mem]. rewrite Ascii.eqb_refl.
  repeat (rewrite ?orb_true_r, ?orb_true_l). reflexivity.
Qed.

Lemma array_text_no_comma (ns : list decimal) (nl : bool) :
  mem "," (array_text ns nl) = false.
Proof.
  unfold array_text. rewrite !mem_app.
  rewrite (@mem_join "," ";" (map render ns)); [destruct nl; reflexivity | reflexivity |].
  intros s Hs. apply in_map_iff in Hs as (n & <- & _). now apply mem_render.
Qed.

End FramedFacts2.

(** X1.  The text [n1;n2;...;nk] of one or more numerals, with or without
    a final newline, is read by the [array] formatter, and classified and
    read by [process_auto], as the sequence of the numbers that the numerals
    denote, in order. *)
Theorem array_text_is_read (ns : list decimal) (nl : bool) :
  ns <> [] ->
  process_array (Some (array_text ns nl)) = Return (VArray (map decimal_value ns))
  /\ process_auto (Some (array_text ns nl)) = Return (VArray (map decimal_value ns)).
Proof.
  intros N.
  pose proof (FramedFacts.process_array_text nl N) as P.
  split; [exact P |].
  unfold process_auto.
  destruct (Re.fullmatch re_matrix (array_text ns nl)) eqn:M.
  - apply FramedFacts2.matrix_has_comma in M.
    now rewrite FramedFacts2.array_text_no_comma in M.
  - now rewrite FramedFacts2.array_text_matches.
Qed.

(** X1 at the text [1.5e-3;-2;10] followed by a newline. *)
Lemma array_text_is_read_witness :
  process_auto (Some (array_text [num_1_5e_3; num_minus_2; num_10] true))
  = Return (VArray (map decimal_value [num_1_5e_3; num_minus_2; num_10])).
Proof.
  destruct (@array_text_is_read [num_1_5e_3; num_minus_2; num_10] true) as [_ H];
    [discriminate | exact H].
Defined.

(** X2.  The [matrix] formatter reads the text [r1;r2;...;rk] of one or
    more rows, each of the same number of numerals separated by commas --
    one column, two, or more -- as the rows of the numbers denoted, in
    order. *)
Theorem matrix_formatter_reads_rows (rows : list (list decimal)) (nl : bool)
    (width : nat) :
  rows <> [] ->
  (0 < width)%nat ->
  (forall r, In r rows -> List.length r = width) ->
  process_matrix (Some (matrix_text rows nl))
  = Return (VMatrix (map (map decimal_value) rows)).
Proof.
  intros N W R. apply FramedFacts2.process_matrix_text; [assumption |].
  intros r Hr E. apply R in Hr. subst r. cbn in Hr. subst width.
  now apply Nat.lt_irrefl in W.
Qed.

(** X2 at the text [1.5e-3,-2,10;10,10,-2] of two rows of three numbers. *)
Lemma matrix_formatter_reads_rows_witness :
  process_matrix
    (Some (matrix_text [[num_1_5e_3; num_minus_2; num_10]; [num_10; num_10; num_minus_2]]
             false))
  = Return (VMatrix (map (map decimal_value)
                       [[num_1_5e_3; num_minus_2; num_10]; [num_10; num_10; num_minus_2]])).
Proof.
  apply (@matrix_formatter_reads_rows
           [[num_1_5e_3; num_minus_2; num_10]; [num_10; num_10; num_minus_2]] false 3%nat).
  - discriminate.
  - repeat constructor.
  - intros r [<- | [<- | []]]; reflexivity.
Defined.

(** X3.  [process_auto] classifies as a matrix, and reads as such, every
    text [a1,b1;a2,b2;...;ak,bk] of one or more rows of two numerals. *)
Theorem auto_reads_two_column_matrix (rows : list (decimal * decimal)) (nl : bool) :
  rows <> [] ->
  process_auto (Some (matrix_text (map pair_row rows) nl))
  = Return (VMatrix (map (fun p => [decimal_value (fst p); decimal_value (snd p)]) rows)).
Proof.
  intros N. unfold process_auto.
  rewrite FramedFacts2.matrix_text_matches by assumption.
  rewrite FramedFacts2.process_matrix_text.
  - now rewrite map_map.
  - now apply FramedFacts2.map_not_nil.
  - intros r Hr. apply in_map_iff in Hr as (p & <- & _). discriminate.
Qed.

(** X3 at the text [1.5e-3,-2;10,10]. *)
Lemma auto_reads_two_column_matrix_witness :
  process_auto (Some (matrix_text
                        (map pair_row [(num_1_5e_3, num_minus_2); (num_10, num_10)]) false))
  = Return (VMatrix [[decimal_value num_1_5e_3; decimal_value num_minus_2];
                     [decimal_value num_10; decimal_value num_10]]).
Proof.
  apply (@auto_reads_two_column_matrix [(num_1_5e_3, num_minus_2); (num_10, num_10)] false).
  discriminate.
Defined.

(* ================================================================== *)
(** * What [strip] removes *)

Module StripFacts.
Import PyStr PyStrFacts.

Lemma lstrip_split (chars s : string) :
  exists a, s = a ++ lstrip chars s /\ all_in chars a = true.
Proof.
  induction s as [|c s (a & E & A)]; cbn [lstrip].
  - now exists EmptyString.
  - destruct (mem c chars) eqn:M.
    + exists (String c a). cbn [append all_in]. now rewrite <- E, M, A.
    + now exists EmptyString.
Qed.

Lemma rstrip_split (chars s : string) :
  exists b, s = rstrip chars s ++ b /\ all_in chars b = true.
Proof.
  induction s as [|c s (b & E & A)]; cbn [rstrip].
  - now exists EmptyString.
  - destruct (rstrip chars s) as [|c' r'] eqn:R; cbn [is_empty andb].
    + destruct (mem c chars) eqn:M.
      * exists (String c s). cbn [append all_in]. cbn [append] in E.
        now rewrite M, E, A.
      * exists b. cbn [append]. cbn [append] in E. split; [now rewrite <- E | exact A].
    + exists b. cbn [append]. cbn [append] in E. split; [now rewrite <- E | exact A].
Qed.

Lemma lstrip_starts (chars s : string) :
  lstrip chars s = EmptyString \/ starts_clean chars (lstrip chars s).
Proof.
  induction s as [|c s IH]; cbn [lstrip]; [now left |].
  destruct (mem c chars) eqn:M; [exact IH | right; exact M].
Qed.

Lemma rstrip_ends (chars s : string) :
  rstrip chars s = EmptyString \/ ends_clean chars (rstrip chars s).
Proof.
  induction s as [|c s IH]; cbn [rstrip]; [now left |].
  destruct (rstrip chars s) as [|c' r'] eqn:R; cbn [is_empty andb].
  - destruct (mem c chars) eqn:M; [now left |].
    right. now exists EmptyString, c.
  - right. destruct IH as [IH | (pre & x & E & X)]; [discriminate |].
    exists (String c pre), x. cbn [append]. now rewrite E.
Qed.

Lemma rstrip_keeps_start (chars s : string) :
  starts_clean chars s -> starts_clean chars (rstrip chars s).
Proof.
  destruct s as [|c s]; cbn [starts_clean rstrip]; [tauto |].
  intros M. rewrite M, andb_false_r. exact M.
Qed.

Lemma rstrip_fixed (chars s : string) : ends_clean chars s -> rstrip chars s = s.
Proof.
  intros (pre & c & -> & M).
  apply rstrip_app; [discriminate | now apply rstrip_last].
Qed.

Lemma lstrip_fixed (chars s : string) : starts_clean chars s -> lstrip chars s = s.
Proof. destruct s as [|c s]; cbn; [tauto |]. now intros ->. Qed.

Lemma strip_shape (chars s : string) :
  strip chars s = EmptyString
  \/ (starts_clean chars (strip chars s) /\ ends_clean chars (strip chars s)).
Proof.
  unfold strip.
  destruct (rstrip_ends chars (lstrip chars s)) as [E | E]; [now left |].
  right. split; [| exact E].
  destruct (lstrip_starts chars s) as [L | L].
  - rewrite L in *. destruct E as (pre & c & E & _).
    cbn in E. destruct pre; discriminate.
  - now apply rstrip_keeps_start.
Qed.

Lemma strip_idempotent (chars s : string) :
  strip chars (strip chars s) = strip chars s.
Proof.
  destruct (strip_shape chars s) as [E | [S E]].
  - rewrite E. reflexivity.
  - unfold strip at 1. now rewrite lstrip_fixed, rstrip_fixed.
Qed.

Lemma strip_split (chars s : string) :
  exists a b, s = a ++ strip chars s ++ b
    /\ all_in chars a = true /\ all_in chars b = true.
Proof.
  destruct (lstrip_split chars s) as (a & Ea & Aa).
  destruct (rstrip_split chars (lstrip chars s)) as (b & Eb & Ab).
  exists a, b. unfold strip. now rewrite <- Eb.
Qed.

End StripFacts.

(** X4.  The [strip] formatter removes framing characters (newline, the two
    brackets, the semicolon) from the two ends of the text and nothing else:
    the text is a run of framing characters, the result, and a run of
    framing characters.  The result is empty or has a character that is
    not framing at each end, and formatting it again changes nothing. *)
Theorem strip_formatter_trims_ends (s : string) :
  exists t,
    process_strip (Some s) = Return (VStr t)
    /\ (exists a b, s = a ++ t ++ b /\ all_in framing a = true /\ all_in framing b = true)
    /\ (t = EmptyString \/ (starts_clean framing t /\ ends_clean framing t))
    /\ process_strip (Some t) = Return (VStr t).
Proof.
  exists (PyStr.strip framing s). split; [reflexivity |].
  split; [apply StripFacts.strip_split |].
  split; [apply StripFacts.strip_shape |].
  unfold process_strip. cbn [as_str rbind].
  now rewrite StripFacts.strip_idempotent.
Qed.

(* ================================================================== *)
(** * More on the dispatch pipeline *)

Module PipelineFacts.
Import DeviceFacts.

Lemma dict_get_unknown (V : Type) (d : list (string * V)) (k : string) (default : V) :
  ~ In k (map fst d) -> dict_get d (Some k) default = default.
Proof.
  induction d as [|[k' v] d IH]; intros N; [reflexivity |].
  cbn [dict_get]. destruct (String.eqb k k') eqn:E.
  - apply String.eqb_eq in E. subst k'. exfalso. apply N. now left.
  - apply IH. intros H. apply N. now right.
Qed.

Lemma with_lock_released (A : Type) (body : Device -> result A * Device) (d : Device) :
  lock_held d = false ->
  fst (with_lock body d) <> Hang ->
  lock_held (snd (with_lock body d)) = false.
Proof.
  unfold with_lock. intros L. rewrite L.
  destruct (body (set_lock true d)) as [[a | e |] d']; cbn [fst snd];
    [reflexivity | reflexivity | congruence].
Qed.

Lemma with_lock_blocked (A : Type) (body : Device -> result A * Device) (d : Device) :
  lock_held d = true -> with_lock body d = (Hang, d).
Proof. unfold with_lock. now intros ->. Qed.

Lemma auto_call_no_transport (d : Device) (args : list token) (resp : bool)
    (st : option N) :
  connections d = [] -> lock_held d = false ->
  fst (Device_call args (mkOpts (Some "auto") resp None false st) d)
  = Return (Value VNone).
Proof.
  intros E L. unfold Device_call, sync_call, with_lock, chosen_formatter.
  cbn [spawn_thread callback response format sleep_time is_some orb].
  rewrite L, !orb_false_r, command_no_transport by assumption.
  destruct resp; reflexivity.
Qed.

(** One call of [command] on a device that has a transport, with and
    without a transport added behind. *)
Lemma added_transport_untouched (cmd : string) (returns : bool) (st : option N)
    (d : Device) (c : Connection) :
  connections d <> [] ->
  fst (command cmd returns st (add_connection c d)) = fst (command cmd returns st d)
  /\ connections (snd (command cmd returns st (add_connection c d)))
     = (connections (snd (command cmd returns st d)) ++ [c])%list
  /\ sent (snd (command cmd returns st (add_connection c d)))
     = sent (snd (command cmd returns st d))
  /\ closed (snd (command cmd returns st (add_connection c d)))
     = closed (snd (command cmd returns st d))
  /\ logged (snd (command cmd returns st (add_connection c d)))
     = logged (snd (command cmd returns st d)).
Proof.
  intros N.
  destruct (connections d) as [|conn rest] eqn:E; [congruence |].
  rewrite !DeviceFacts.command_unfold. unfold add_connection.
  cbn [connections set_connections]. rewrite E. cbn [app].
  destruct (conn_write conn cmd) as [[[] | e |] c1]; cbv zeta.
  - destruct (conn_read c1 returns) as [[text | e |] c2].
    + destruct st; repeat split.
    + unfold command_failed. destruct (is_connection_error e); cbn [fst snd].
      * rewrite !DeviceFacts.remove_head. destruct st; repeat split.
      * destruct st; repeat split.
    + destruct st; repeat split.
  - unfold command_failed. destruct (is_connection_error e); cbn [fst snd].
    + rewrite !DeviceFacts.remove_head. destruct st; repeat split.
    + destruct st; repeat split.
  - destruct st; repeat split.
Qed.

End PipelineFacts.

(** X5.  A format that is not one of the six registered names, [None]
    included, selects no formatter: the call returns the raw response.  So
    does any format when no response is expected and no callback is given. *)
Theorem unknown_format_is_raw (o : call_opts) (x : raw) :
  (format o = None
   \/ (exists k, format o = Some k /\ ~ In k formatter_names)
   \/ (response o = false /\ callback o = None)) ->
  chosen_formatter o x = Return (value_of_raw x).
Proof.
  unfold chosen_formatter. intros [N | [(k & E & N) | [R C]]].
  - rewrite N. destruct (response o || is_some (callback o)); reflexivity.
  - rewrite E, PipelineFacts.dict_get_unknown by exact N.
    destruct (response o || is_some (callback o)); reflexivity.
  - rewrite R, C. reflexivity.
Qed.

(** X5 at the misspelt format [numbr]. *)
Lemma unknown_format_is_raw_witness :
  chosen_formatter (mkOpts (Some "numbr") true None false default_sleep) (Some "4.98")
  = Return (VStr "4.98").
Proof.
  apply (@unknown_format_is_raw (mkOpts (Some "numbr") true None false default_sleep)).
  right. left. exists "numbr". split; [reflexivity |].
  cbn. intros H. repeat (destruct H as [H | H]; [discriminate |]). exact H.
Defined.

(** X6.  An error of the write, or of the read after it, that is not a
    connection error (a time-out, another OS error) is raised to the caller
    with the transport left in the list, in its place and not closed. *)
Theorem other_errors_keep_transport :
  (forall cmd returns st d conn rest c1 e,
     connections d = conn :: rest ->
     is_connection_error e = false ->
     conn_write conn cmd = (Raise e, c1) ->
     let out := command cmd returns st d in
     fst out = Raise e
     /\ connections (snd out) = c1 :: rest
     /\ conn_id c1 = conn_id conn /\ conn_open c1 = conn_open conn
     /\ closed (snd out) = closed d)
  /\ (forall cmd returns st d conn rest c1 c2 e,
     connections d = conn :: rest ->
     is_connection_error e = false ->
     conn_write conn cmd = (Return tt, c1) ->
     conn_read c1 returns = (Raise e, c2) ->
     let out := command cmd returns st d in
     fst out = Raise e
     /\ connections (snd out) = c2 :: rest
     /\ conn_id c2 = conn_id conn
     /\ closed (snd out) = closed d).
Proof.
  split.
  - intros cmd returns st d conn rest c1 e E NE W out. subst out.
    rewrite DeviceFacts.command_unfold, E, W. unfold command_failed. rewrite NE.
    cbn [fst snd]. repeat split.
    + apply (DeviceFacts.conn_write_id _ _ W).
    + unfold conn_write, stream_send in W.
      destruct (negb (conn_open conn)); [now injection W as _ <- |].
      destruct (conn_send conn) as [|[|e'] k]; injection W as _ <-; reflexivity.
    + cbn. apply DeviceFacts.rested_closed.
  - intros cmd returns st d conn rest c1 c2 e E NE W R out. subst out.
    rewrite DeviceFacts.command_unfold, E, W. cbv zeta. rewrite R.
    unfold command_failed. rewrite NE. cbn [fst snd]. repeat split.
    + rewrite (DeviceFacts.conn_read_id _ _ R). apply (DeviceFacts.conn_write_id _ _ W).
    + cbn. apply DeviceFacts.rested_closed.
Qed.

(** X6 on a socket whose write times out. *)
Lemma other_errors_keep_transport_witness :
  fst (command "cloi" true default_sleep stalled_device) = Raise SocketTimeout
  /\ connections (snd (command "cloi" true default_sleep stalled_device))
     = [mkConnection 0 (SocketEnd "10.0.0.5" 8888) true [] []].
Proof.
  destruct other_errors_keep_transport as [H _].
  destruct (H "cloi" true default_sleep stalled_device
              (mkConnection 0 (SocketEnd "10.0.0.5" 8888) true [SendRaise SocketTimeout] [])
              [] (mkConnection 0 (SocketEnd "10.0.0.5" 8888) true [] [])
              SocketTimeout eq_refl eq_refl eq_refl) as (H1 & H2 & _).
  split; assumption.
Defined.

(** X7.  A transport added to a device that already has one is a
    fallback, not a second channel.  A call of [command] that finds a
    transport ahead of it does not touch it: the result, what is sent, closed
    and logged are as without it, and it stays at the end of the list.  It
    is used once the transports ahead are gone: when that call dropped the
    last of them, after a connection error, the next command is written to
    the added transport. *)
Theorem added_transport_is_fallback (cmd : string) (returns : bool) (st : option N)
    (d : Device) (c : Connection) :
  connections d <> [] ->
  let out := command cmd returns st d in
  let out' := command cmd returns st (add_connection c d) in
  (fst out' = fst out
   /\ connections (snd out') = (connections (snd out) ++ [c])%list
   /\ sent (snd out') = sent (snd out)
   /\ closed (snd out') = closed (snd out)
   /\ logged (snd out') = logged (snd out))
  /\ (connections (snd out) = [] ->
      forall (cmd2 : string) (returns2 : bool) (st2 : option N) (c' : Connection),
        conn_write c cmd2 = (Return tt, c') ->
        sent (snd (command cmd2 returns2 st2 (snd out')))
        = (sent (snd out) ++ [(conn_id c, cmd2)])%list).
Proof.
  intros N out out'. subst out out'.
  pose proof (@PipelineFacts.added_transport_untouched cmd returns st d c N)
    as (R & K & S & C & L).
  split; [repeat split; assumption |].
  intros E cmd2 returns2 st2 c' W.
  rewrite E in K. cbn [app] in K.
  rewrite (@DeviceFacts.command_sent cmd2 returns2 st2 _ c c' [] K W).
  now rewrite S.
Qed.

(** X7 on a device whose socket breaks at the write, a serial port being
    added: the first command goes nowhere, the second to the serial port. *)
Lemma added_transport_is_fallback_witness :
  sent (snd (command "cloi" true default_sleep
               (add_connection (mkConnection 1 (SerialEnd "COM3") true [] []) broken_device)))
  = []
  /\ sent (snd (command "b" true default_sleep
                  (snd (command "cloi" true default_sleep
                          (add_connection (mkConnection 1 (SerialEnd "COM3") true [] [])
                             broken_device)))))
     = [(1%nat, "b")].
Proof.
  destruct (@added_transport_is_fallback "cloi" true default_sleep broken_device
              (mkConnection 1 (SerialEnd "COM3") true [] []))
    as ((_ & _ & H & _) & F).
  - discriminate.
  - split; [exact H |].
    apply (F eq_refl "b" true default_sleep (mkConnection 1 (SerialEnd "COM3") true [] [])).
    reflexivity.
Defined.

(** X8.  A synchronous call whose write breaks the only transport raises
    the connection error and leaves the device usable: the lock is free
    again and the transport is gone, so the next synchronous call with the
    format [auto] is not blocked and does not raise; it returns [None]. *)
Theorem call_after_broken_transport (args args2 : list token) (o : call_opts)
    (resp2 : bool) (st2 : option N) (d : Device) (conn c1 : Connection) (e : exn) :
  spawn_thread o = false -> callback o = None ->
  lock_held d = false ->
  connections d = [conn] ->
  is_connection_error e = true ->
  conn_write conn (command_string args) = (Raise e, c1) ->
  let out := Device_call args o d in
  fst out = Raise e
  /\ lock_held (snd out) = false
  /\ connections (snd out) = []
  /\ fst (Device_call args2 (mkOpts (Some "auto") resp2 None false st2) (snd out))
     = Return (Value VNone).
Proof.
  intros S C L E CE W out.
  assert (O : out = (Raise e,
                     set_lock false
                       (set_connections []
                          (record_closed (conn_id c1)
                             (rested (sleep_time o) (set_lock true d)))))).
  { subst out. unfold Device_call, sync_call, with_lock. rewrite S, C, L.
    cbn [is_some orb]. rewrite DeviceFacts.command_unfold.
    cbn [connections set_lock]. rewrite E, W.
    unfold command_failed. rewrite CE, DeviceFacts.remove_head. reflexivity. }
  rewrite O. cbn [fst snd]. repeat split.
  apply PipelineFacts.auto_call_no_transport; destruct (sleep_time o); reflexivity.
Qed.

(** X8 on the device whose only socket breaks at the next write. *)
Lemma call_after_broken_transport_witness :
  fst (Device_call [TStr "cloi"] default_opts broken_device) = Raise ConnectionError
  /\ fst (Device_call [TStr "cloi"] default_opts
            (snd (Device_call [TStr "cloi"] default_opts broken_device)))
     = Return (Value VNone).
Proof.
  destruct (@call_after_broken_transport [TStr "cloi"] [TStr "cloi"] default_opts true
              default_sleep broken_device
              (mkConnection 0 (SocketEnd "10.0.0.5" 8888) true [SendRaise ConnectionError] [])
              (mkConnection 0 (SocketEnd "10.0.0.5" 8888) true [] [])
              ConnectionError eq_refl eq_refl eq_refl eq_refl eq_refl eq_refl)
    as (H1 & _ & _ & H4).
  split; assumption.
Defined.

(* ================================================================== *)
(** * After [close] *)

Module CloseFacts.

Lemma closed_stream_send (c : Connection) :
  stream_send (conn_close c) = (Raise OSError, conn_close c).
Proof. reflexivity. Qed.

End CloseFacts.

(** X9.  After [Device.close()] the pool takes no work: the tasks that were
    queued are dropped and never run, and every call that asks for a thread
    or gives a callback raises [RuntimeError], sending and queueing
    nothing. *)
Theorem closed_device_refuses_tasks (d : Device) (args : list token) (o : call_opts) :
  run_next (Device_close d) = None
  /\ (spawn_thread o = true \/ callback o <> None ->
      Device_call args o (Device_close d) = (Raise RuntimeError, Device_close d)).
Proof.
  split; [reflexivity |].
  intros A. unfold Device_call.
  assert (T : spawn_thread o || is_some (callback o) = true).
  { destruct A as [-> | A]; [reflexivity |].
    destruct (callback o); [apply orb_true_r | congruence]. }
  rewrite T. reflexivity.
Qed.

(** X9 on a device that had a task queued. *)
Lemma closed_device_refuses_tasks_witness :
  run_next (Device_close busy_device) = None
  /\ Device_call [TStr "cloi"] (mkOpts (Some "auto") true None true default_sleep)
                 (Device_close busy_device)
     = (Raise RuntimeError, Device_close busy_device).
Proof.
  destruct (@closed_device_refuses_tasks busy_device [TStr "cloi"]
              (mkOpts (Some "auto") true None true default_sleep)) as [H1 H2].
  split; [exact H1 | apply H2; now left].
Defined.

(** X10.  [Device.close()] closes every transport and keeps them all in the
    list.  A synchronous call made afterwards on a device that has a
    transport raises an OS error, sends nothing, and, the error not being a
    connection error, leaves the list of transports as it is. *)
Theorem closed_device_keeps_transports (d : Device) (args : list token) (o : call_opts) :
  (List.length (connections (Device_close d)) = List.length (connections d)
   /\ forall c, In c (connections (Device_close d)) -> conn_open c = false)
  /\ (connections d <> [] ->
      spawn_thread o = false -> callback o = None -> lock_held d = false ->
      let out := Device_call args o (Device_close d) in
      fst out = Raise OSError
      /\ sent (snd out) = sent d
      /\ connections (snd out) = connections (Device_close d)).
Proof.
  split.
  - split.
    + cbn. apply length_map.
    + cbn. intros c H. apply in_map_iff in H as (c0 & <- & _). reflexivity.
  - intros N S C L out. subst out.
    destruct (connections d) as [|conn rest] eqn:E; [congruence |].
    unfold Device_call, sync_call, with_lock. rewrite S, C.
    cbn [is_some orb]. change (lock_held (Device_close d)) with (lock_held d).
    rewrite L. rewrite DeviceFacts.command_unfold.
    change (connections (set_lock true (Device_close d)))
      with (map conn_close (connections d)).
    rewrite E. cbn [map]. unfold conn_write.
    rewrite CloseFacts.closed_stream_send.
    unfold command_failed. cbn [is_connection_error apply_formatter fst snd rbind].
    repeat split.
    + cbn. now rewrite DeviceFacts.rested_sent.
    + cbn. now rewrite E.
Qed.

(** X10 on the device with a socket and a serial port. *)
Lemma closed_device_keeps_transports_witness :
  fst (Device_call [TStr "cloi"] default_opts (Device_close two_transport_device))
  = Raise OSError
  /\ List.length (connections (snd (Device_call [TStr "cloi"] default_opts
                                      (Device_close two_transport_device)))) = 2%nat.
Proof.
  destruct (@closed_device_keeps_transports two_transport_device [TStr "cloi"] default_opts)
    as [_ H].
  destruct H as (H1 & _ & H3); try reflexivity; [discriminate |].
  split; [exact H1 | now rewrite H3].
Defined.

(* ================================================================== *)
(** * Reading from a socket *)

Module SocketFacts.
Import PyStr PyStrFacts.

Lemma join_empty_cons (s : string) (l : list string) :
  join EmptyString (s :: l) = s ++ join EmptyString l.
Proof. destruct l; cbn [join append]; [now rewrite append_nil_r | reflexivity]. Qed.

(** The second loop gathers the chunks up to the next time-out. *)
Lemma socket_drain_chunks (chunks : list string) (rest : list recv_step) (acc : string) :
  socket_drain acc (map RecvData chunks ++ RecvRaise SocketTimeout :: rest)
  = (Return (acc ++ join EmptyString chunks), rest).
Proof.
  revert acc. induction chunks as [|s chunks IH]; intros acc.
  - cbn. now rewrite append_nil_r.
  - cbn [map app socket_drain]. rewrite IH, join_empty_cons. now rewrite append_assoc.
Qed.

(** The first loop passes over what brings no data. *)
Lemma socket_wait_skips (quiet : list recv_step) (s : string) (rest : list recv_step) :
  forallb brings_nothing quiet = true -> s <> EmptyString ->
  socket_wait (quiet ++ RecvData s :: rest) = (Return s, rest).
Proof.
  intros Q N. induction quiet as [|q quiet IH].
  - cbn. now rewrite (is_empty_false N).
  - cbn [forallb] in Q. apply andb_prop in Q as [Q1 Q2].
    cbn [app socket_wait].
    destruct q as [d | e]; cbn [brings_nothing] in Q1.
    + rewrite Q1. now apply IH.
    + destruct e; try discriminate. now apply IH.
Qed.

Lemma socket_wait_hangs (quiet : list recv_step) :
  forallb brings_nothing quiet = true -> socket_wait quiet = (Hang, []).
Proof.
  induction quiet as [|q quiet IH]; [reflexivity |].
  cbn [forallb]. intros Q. apply andb_prop in Q as [Q1 Q2].
  cbn [socket_wait]. destruct q as [d | e]; cbn [brings_nothing] in Q1.
  - rewrite Q1. now apply IH.
  - destruct e; try discriminate. now apply IH.
Qed.

Lemma socket_wait_nonempty (script k : list recv_step) (s : string) :
  socket_wait script = (Return s, k) -> s <> EmptyString.
Proof.
  induction script as [|q script IH]; cbn [socket_wait]; [discriminate |].
  destruct q as [d | e].
  - destruct (is_empty d) eqn:E; [exact IH |].
    intros [= <- _]. intros ->. discriminate.
  - destruct e; try discriminate; exact IH.
Qed.

Lemma socket_drain_grows (script k : list recv_step) (acc s : string) :
  socket_drain acc script = (Return s, k) -> exists more, s = acc ++ more.
Proof.
  revert acc. induction script as [|q script IH]; intros acc; cbn [socket_drain].
  - intros [= <- _]. exists EmptyString. now rewrite append_nil_r.
  - destruct q as [d | e].
    + intros H. apply IH in H as (more & ->). exists (d ++ more).
      now rewrite append_assoc.
    + destruct e; try discriminate.
      intros [= <- _]. exists EmptyString. now rewrite append_nil_r.
Qed.

End SocketFacts.

(** X11.  A waiting read on an open socket passes over the time-outs and
    the empty chunks that come first, then returns the chunks received up to
    the next time-out, joined in order; what comes after that time-out is
    left for the next read. *)
Theorem socket_read_gathers_chunks (c : Connection) (host : string) (port : Z)
    (quiet : list recv_step) (first : string) (chunks : list string)
    (rest : list recv_step) :
  conn_end c = SocketEnd host port ->
  conn_open c = true ->
  forallb brings_nothing quiet = true ->
  first <> EmptyString ->
  conn_recv c
  = (quiet ++ RecvData first :: map RecvData chunks ++ RecvRaise SocketTimeout :: rest)%list ->
  conn_read c true = (Return (first ++ PyStr.join EmptyString chunks), set_recv rest c).
Proof.
  intros E O Q N R. unfold conn_read. rewrite E.
  unfold SocketConnection_read. rewrite O, R. cbn [negb].
  rewrite SocketFacts.socket_wait_skips by assumption.
  now rewrite SocketFacts.socket_drain_chunks.
Qed.

(** X11 on the socket that, after two time-outs, receives 4., 9 and 8. *)
Lemma socket_read_gathers_chunks_witness :
  conn_read chunked_socket true
  = (Return "4.98", set_recv [RecvData "later"] chunked_socket).
Proof.
  apply (@socket_read_gathers_chunks chunked_socket "10.0.0.5" 8888 (timeouts 2)
           "4." ["9"; "8"] [RecvData "later"]); (reflexivity || discriminate).
Defined.

(** X12.  A waiting read on an open socket never returns the empty string;
    and when nothing but time-outs and empty chunks is to come, it never
    returns at all. *)
Theorem socket_read_waits_for_data (c : Connection) (host : string) (port : Z) :
  conn_end c = SocketEnd host port ->
  conn_open c = true ->
  (forall s c', conn_read c true = (Return s, c') -> s <> EmptyString)
  /\ (forallb brings_nothing (conn_recv c) = true -> fst (conn_read c true) = Hang).
Proof.
  intros E O. unfold conn_read. rewrite E.
  unfold SocketConnection_read. rewrite O. cbn [negb]. split.
  - intros s c'.
    destruct (socket_wait (conn_recv c)) as [[retval | e |] k] eqn:W; try discriminate.
    pose proof (SocketFacts.socket_wait_nonempty _ W) as NE.
    destruct (socket_drain retval k) as [r k'] eqn:D.
    intros [= -> _]. apply SocketFacts.socket_drain_grows in D as (more & ->).
    destruct retval; [congruence | discriminate].
  - intros Q. now rewrite SocketFacts.socket_wait_hangs.
Qed.

(** X12 on a socket on which nothing is to come. *)
Lemma socket_read_waits_for_data_witness :
  fst (conn_read (mkConnection 0 (SocketEnd "10.0.0.5" 8888) true [] (timeouts 3)) true)
  = Hang.
Proof.
  destruct (@socket_read_waits_for_data
              (mkConnection 0 (SocketEnd "10.0.0.5" 8888) true [] (timeouts 3))
              "10.0.0.5" 8888 eq_refl eq_refl) as [_ H].
  apply H. reflexivity.
Defined.

(* ================================================================== *)
(** * Discovery: where the loop stops *)

Module DiscoverFacts2.
Local Open Scope Z_scope.

(** Replies that keep the pace are all taken; the loop goes on with what
    follows them. *)
Lemma discover_loop_prefix (timeout : Z) (inbox tail : list reply) :
  forall now start_time devices,
    now <= start_time + timeout ->
    paced timeout now inbox ->
    discover_loop timeout now start_time (inbox ++ tail) devices
    = discover_loop timeout (clock_after now inbox) (start_after now start_time inbox)
        tail (devices ++ devices_for inbox)
    /\ clock_after now inbox <= start_after now start_time inbox + timeout.
Proof.
  induction inbox as [|r inbox IH]; intros now start_time devices W P.
  - cbn [app clock_after start_after devices_for map]. now rewrite app_nil_r.
  - destruct P as (A & C & F & P').
    cbn [app discover_loop clock_after start_after devices_for map].
    replace (now >? start_time + timeout) with false
      by (symmetry; rewrite Z.gtb_ltb; apply Z.ltb_ge; lia).
    replace (reply_at r >? now + timeout) with false
      by (symmetry; rewrite Z.gtb_ltb; apply Z.ltb_ge; lia).
    rewrite F, DiscoverFacts.Device_init_socket. cbn [rbind].
    destruct (IH (Z.max now (reply_at r) + connect_takes r) (Z.max now (reply_at r))
                 (devices ++ [device_at (fst (reply_from r))])%list) as [I1 I2];
      [lia | assumption |].
    rewrite I1. split; [| exact I2].
    unfold devices_for. now rewrite <- app_assoc.
Qed.

End DiscoverFacts2.

(** X13.  Discovery stops at the first silence longer than the window: a
    reply that arrives more than [timeout] after the moment the loop started
    to wait for it is not taken, nor is any reply after it, and the devices
    found before are returned.  With no reply in time the list is empty,
    which is a result, not an error. *)
Theorem discover_stops_at_silence (timeout t0 : Z) (inbox : list reply) (late : reply)
    (never : list reply) :
  (0 <= timeout)%Z ->
  paced timeout t0 inbox ->
  (reply_at late > clock_after t0 inbox + timeout)%Z ->
  discover timeout t0 (inbox ++ late :: never) = Return (devices_for inbox)
  /\ discover timeout t0 [] = Return [].
Proof.
  intros T P L. split.
  - unfold discover.
    destruct (@DiscoverFacts2.discover_loop_prefix timeout inbox (late :: never) t0 t0 [])
      as [E W]; [lia | assumption |].
    rewrite E. cbn [discover_loop app].
    replace (clock_after t0 inbox >? start_after t0 t0 inbox + timeout)%Z with false
      by (symmetry; rewrite Z.gtb_ltb; apply Z.ltb_ge; lia).
    replace (reply_at late >? clock_after t0 inbox + timeout)%Z with true
      by (symmetry; rewrite Z.gtb_ltb; apply Z.ltb_lt; lia).
    reflexivity.
  - unfold discover. cbn [discover_loop].
    now destruct (t0 >? t0 + timeout)%Z.
Qed.

(** X13 at two hosts in time and a third after a long silence. *)
Lemma discover_stops_at_silence_witness :
  discover 100 0 (early_replies ++ late_reply :: early_replies)
  = Return (devices_for early_replies).
Proof.
  destruct (@discover_stops_at_silence 100 0 early_replies late_reply early_replies)
    as [H _]; [lia | cbn; repeat split; lia | cbn; lia | exact H].
Defined.

(** X14.  When the connection to a host that replied in time cannot be
    made, [discover] raises that error: the devices already found are not
    returned and the replies still to come are not taken.  The one exception
    is a connection that times out: the [except socket.timeout] clause around
    the loop takes that error too, so discovery ends there without an error
    and returns the devices found before. *)
Theorem discover_on_failed_connection (timeout t0 : Z) (inbox : list reply)
    (r : reply) (others : list reply) (e : exn) :
  (0 <= timeout)%Z ->
  paced timeout t0 inbox ->
  (reply_at r <= clock_after t0 inbox + timeout)%Z ->
  connect_fails r = Some e ->
  (e <> SocketTimeout -> discover timeout t0 (inbox ++ r :: others) = Raise e)
  /\ (e = SocketTimeout ->
      discover timeout t0 (inbox ++ r :: others) = Return (devices_for inbox)).
Proof.
  intros T P A F. unfold discover.
  destruct (@DiscoverFacts2.discover_loop_prefix timeout inbox (r :: others) t0 t0 [])
    as [E W]; [lia | assumption |].
  rewrite E. cbn [discover_loop].
  replace (clock_after t0 inbox >? start_after t0 t0 inbox + timeout)%Z with false
    by (symmetry; rewrite Z.gtb_ltb; apply Z.ltb_ge; lia).
  replace (reply_at r >? clock_after t0 inbox + timeout)%Z with false
    by (symmetry; rewrite Z.gtb_ltb; apply Z.ltb_ge; lia).
  rewrite F. split.
  - intros N. destruct e; try reflexivity. now contradiction N.
  - intros ->. reflexivity.
Qed.

(** X14 at two hosts found and a third that refuses the connection, and at
    a third the connection to which times out. *)
Lemma discover_on_failed_connection_witness :
  discover 100 0 (early_replies ++ refusing_reply :: early_replies) = Raise ConnectionError
  /\ discover 100 0 (early_replies ++ unreachable_reply :: early_replies)
     = Return (devices_for early_replies).
Proof.
  split.
  - apply (@discover_on_failed_connection 100 0 early_replies refusing_reply
             early_replies ConnectionError);
      [lia | cbn; repeat split; lia | cbn; lia | reflexivity | discriminate].
  - apply (@discover_on_failed_connection 100 0 early_replies unreachable_reply
             early_replies SocketTimeout);
      [lia | cbn; repeat split; lia | cbn; lia | reflexivity | reflexivity].
Defined.

(** X15.  The window is measured from the arrival of a reply, before the
    connection to its sender is made: when that connection takes longer
    than [timeout], the device is added and the loop ends there, the replies
    behind it being left, however early they arrived. *)
Theorem discover_ends_after_slow_connection (timeout t0 : Z) (inbox : list reply)
    (r : reply) (others : list reply) :
  (0 <= timeout)%Z ->
  paced timeout t0 inbox ->
  (reply_at r <= clock_after t0 inbox + timeout)%Z ->
  connect_fails r = None ->
  (connect_takes r > timeout)%Z ->
  discover timeout t0 (inbox ++ r :: others) = Return (devices_for (inbox ++ [r])).
Proof.
  intros T P A F S. unfold discover.
  destruct (@DiscoverFacts2.discover_loop_prefix timeout inbox (r :: others) t0 t0 [])
    as [E W]; [lia | assumption |].
  rewrite E. cbn [discover_loop].
  replace (clock_after t0 inbox >? start_after t0 t0 inbox + timeout)%Z with false
    by (symmetry; rewrite Z.gtb_ltb; apply Z.ltb_ge; lia).
  replace (reply_at r >? clock_after t0 inbox + timeout)%Z with false
    by (symmetry; rewrite Z.gtb_ltb; apply Z.ltb_ge; lia).
  rewrite F, DiscoverFacts.Device_init_socket. cbn [rbind app].
  destruct others as [|r' others]; cbn [discover_loop].
  - destruct (_ >? _)%Z; unfold devices_for; now rewrite map_app.
  - replace (Z.max (clock_after t0 inbox) (reply_at r) + connect_takes r
             >? Z.max (clock_after t0 inbox) (reply_at r) + timeout)%Z with true
      by (symmetry; rewrite Z.gtb_ltb; apply Z.ltb_lt; lia).
    unfold devices_for. now rewrite map_app.
Qed.

(** X15 at a third host that takes 150 ticks to connect to, two more
    replies being at hand. *)
Lemma discover_ends_after_slow_connection_witness :
  discover 100 0 (early_replies ++ slow_reply :: early_replies)
  = Return (devices_for (early_replies ++ [slow_reply])).
Proof.
  apply (@discover_ends_after_slow_connection 100 0 early_replies slow_reply early_replies);
    [lia | cbn; repeat split; lia | cbn; lia | reflexivity | cbn; lia].
Defined.

(* ================================================================== *)
(** * The serial number in memory *)

Module EepromFacts.
Local Open Scope Z_scope.

Lemma eeprom_writes_bytes (n : nat) :
  forall i w,
    0 <= w < 256 ^ Z.of_nat n ->
    Forall (fun b => 0 <= b < 256) (map snd (eeprom_writes n i w))
    /\ bytes_value (map snd (eeprom_writes n i w)) = w.
Proof.
  induction n as [|n IH]; intros i w H.
  - cbn. split; [constructor | ]. cbn in H. lia.
  - cbn [eeprom_writes map snd bytes_value].
    change 0xff with (Z.ones 8). rewrite Z.land_ones, Z.shiftr_div_pow2 by lia.
    change (2 ^ 8) with 256.
    assert (D : 0 <= w / 256 < 256 ^ Z.of_nat n).
    { rewrite Nat2Z.inj_succ, Z.pow_succ_r in H by lia.
      split; [apply Z.div_pos; lia | apply Z.div_lt_upper_bound; lia]. }
    destruct (IH (i + 1) (w / 256) D) as [F V].
    split.
    + constructor; [apply Z.mod_pos_bound; lia | exact F].
    + rewrite V. rewrite (Z.div_mod w 256) at 3 by lia. lia.
Qed.

Lemma eeprom_writes_addresses (n : nat) :
  forall i w, map fst (eeprom_writes n i w)
              = map (fun k => 16383 - (i + Z.of_nat k)) (seq 0 n).
Proof.
  induction n as [|n IH]; intros i w; [reflexivity |].
  cbn [eeprom_writes map fst seq]. rewrite IH, <- seq_shift, map_map.
  f_equal; [f_equal; lia |].
  apply map_ext. intros k. lia.
Qed.

End EepromFacts.

(** X16.  The setter writes six bytes at the addresses 16383 down to
    16378, the least significant byte of the word first.  For a word of 48
    bits every value written is a byte, and the six bytes, read back with the
    byte at 16383 as the least significant, give the word. *)
Theorem eeprom_bytes_rebuild_word (w : Z) :
  (0 <= w < 2 ^ 48)%Z ->
  map fst (eeprom_writes 6 0 w) = [16383; 16382; 16381; 16380; 16379; 16378]%Z
  /\ Forall (fun b => 0 <= b < 256)%Z (map snd (eeprom_writes 6 0 w))
  /\ eeprom_word (eeprom_after (eeprom_writes 6 0 w) (fun _ => 0%Z)) = w.
Proof.
  intros H.
  destruct (@EepromFacts.eeprom_writes_bytes 6 0%Z w H) as [F V].
  split; [reflexivity |]. split; [exact F |].
  rewrite <- V at 2. reflexivity.
Qed.

(** X16 at the word 0x0102030405FF. *)
Lemma eeprom_bytes_rebuild_word_witness :
  eeprom_word (eeprom_after (eeprom_writes 6 0 0x0102030405FF) (fun _ => 0%Z))
  = 0x0102030405FF%Z.
Proof.
  destruct (@eeprom_bytes_rebuild_word 0x0102030405FF%Z) as (_ & _ & H); [lia | exact H].
Defined.

(** X17.  What the setter writes to memory is what the getter decodes: for
    fields within their widths, the word held by the six bytes that the
    setter writes unpacks to the fields that were given. *)
Theorem serial_fields_survive_memory (b w y m p now_week now_year : Z) :
  (0 <= b < 2 ^ 16)%Z -> (0 <= w < 2 ^ 6)%Z -> (0 <= y < 2 ^ 8)%Z ->
  (0 <= m < 2 ^ 8)%Z -> (0 <= p < 2 ^ 10)%Z ->
  serial_decode
    (eeprom_word
       (eeprom_after
          (eeprom_writes 6 0 (serial_encode now_week now_year
                                (dict_of_fields (mkSerial b w y m p))))
          (fun _ => 0%Z)))
  = mkSerial b w y m p.
Proof.
  intros Hb Hw Hy Hm Hp.
  pose proof (SerialFacts.word_48_bits Hb Hw Hy Hm Hp now_week now_year) as B.
  destruct (@EepromFacts.eeprom_writes_bytes 6 0%Z _ B) as [_ V].
  change (eeprom_word (eeprom_after (eeprom_writes 6 0 ?x) (fun _ => 0%Z)))
    with (bytes_value (map snd (eeprom_writes 6 0 x))).
  unfold packed_word in V. rewrite V.
  now apply SerialFacts.word_round_trip.
Qed.

(** X17 at the fields board 1, week 10, year 24, model 2, product 5. *)
Lemma serial_fields_survive_memory_witness :
  serial_decode
    (eeprom_word
       (eeprom_after
          (eeprom_writes 6 0 (serial_encode 44 2026
                                (dict_of_fields (mkSerial 1 10 24 2 5))))
          (fun _ => 0%Z)))
  = mkSerial 1 10 24 2 5.
Proof.
  apply (@serial_fields_survive_memory 1 10 24 2 5 44 2026)%Z; lia.
Defined.

(* ================================================================== *)
(** * From a chain of attributes to the wire *)

Module ChainFacts.
Local Open Scope nat_scope.

Lemma chain_from_tokens (names : list string) :
  forall b h,
    forallb builder_token names = true ->
    fst (chain_from b names h) = Builder b
    /\ tokens (snd (chain_from b names h)) b = (tokens h b ++ map TStr names)%list
    /\ forall l, l <> cb_command b -> cells (snd (chain_from b names h)) l = cells h l.
Proof.
  induction names as [|n names IH]; intros b h A.
  - cbn. now rewrite app_nil_r.
  - cbn [forallb] in A. apply andb_prop in A as [A1 A2].
    unfold builder_token in A1. apply negb_true_iff in A1.
    cbn [chain_from]. unfold CommandBuilder_getattribute. rewrite A1.
    destruct (IH b (append_at (cb_command b) (TStr n) h) A2) as (I1 & I2 & I3).
    split; [exact I1 |]. split.
    + rewrite I2, BuilderFacts.tokens_append_at, Nat.eqb_refl.
      cbn [map]. now rewrite <- app_assoc.
    + intros l N. rewrite (I3 l N). unfold append_at. cbn [cells].
      apply Nat.eqb_neq in N. now rewrite N.
Qed.

Lemma Device_getattribute_fresh (x : string) (h : heap) :
  device_token x = true ->
  exists b, Device_getattribute x h = (Builder b, snd (Device_getattribute x h))
    /\ cb_command b = next h
    /\ tokens (snd (Device_getattribute x h)) b = [TStr x]
    /\ forall l, l < next h -> cells (snd (Device_getattribute x h)) l = cells h l.
Proof.
  intros A. unfold device_token in A. apply negb_true_iff in A.
  unfold Device_getattribute. rewrite A.
  unfold Device_getitem, CommandBuilder_init, alloc, tokens.
  cbn [cells next fst snd]. rewrite Nat.eqb_refl.
  exists (mkBuilder (next h)). cbn [cb_command fst snd cells].
  rewrite Nat.eqb_refl. repeat split.
  intros l L. replace (Nat.eqb l (next h)) with false
    by (symmetry; apply Nat.eqb_neq; lia).
  reflexivity.
Qed.

End ChainFacts.

(** X18.  A chain [device.first.n1...nk] of names that are not members
    (no double underscore, not a name of the object) gives a new builder
    whose tokens are the names in order, and leaves every list that existed
    untouched; invoking it with arguments is the call of the device on the
    names followed by the arguments. *)
Theorem attribute_chain_builds_command (first : string) (names : list string) (h : heap) :
  device_token first = true ->
  forallb builder_token names = true ->
  exists b,
    fst (device_chain first names h) = Builder b
    /\ tokens (snd (device_chain first names h)) b = map TStr (first :: names)
    /\ (forall l, (l < next h)%nat -> cells (snd (device_chain first names h)) l = cells h l)
    /\ forall args o d,
         builder_call b args o (snd (device_chain first names h)) d
         = Device_call (map TStr (first :: names) ++ args)%list o d.
Proof.
  intros A B.
  destruct (@ChainFacts.Device_getattribute_fresh first h A) as (b & E & L & T & O).
  unfold device_chain. rewrite E.
  destruct (@ChainFacts.chain_from_tokens names b (snd (Device_getattribute first h)) B)
    as (C1 & C2 & C3).
  exists b. split; [exact C1 |].
  assert (TT : tokens (snd (chain_from b names (snd (Device_getattribute first h)))) b
               = map TStr (first :: names)) by (now rewrite C2, T).
  split; [exact TT |]. split.
  - intros l Hl. rewrite C3 by lia. now apply O.
  - intros args o d. unfold builder_call. now rewrite TT.
Qed.

(** X18 at [device.measure.voltage.dc]. *)
Lemma attribute_chain_builds_command_witness :
  exists b,
    fst (device_chain "measure" ["voltage"; "dc"] empty_heap) = Builder b
    /\ tokens (snd (device_chain "measure" ["voltage"; "dc"] empty_heap)) b
       = [TStr "measure"; TStr "voltage"; TStr "dc"].
Proof.
  destruct (@attribute_chain_builds_command "measure" ["voltage"; "dc"] empty_heap
              eq_refl eq_refl) as (b & H1 & H2 & _).
  exists b. split; assumption.
Defined.

(** X19.  The command string is the strings of the tokens with one space
    between two of them and nothing else, no quoting: when no token holds a
    space, splitting the command at the spaces gives the tokens back. *)
Theorem command_string_splits_back (args : list token) :
  args <> [] ->
  (forall t, In t args -> PyStr.mem " " (str t) = false) ->
  PyStr.split " " (command_string args) = map str args.
Proof.
  intros N H. unfold command_string. apply FramedFacts.split_join.
  - now apply FramedFacts2.map_not_nil.
  - intros s Hs. apply in_map_iff in Hs as (t & <- & Ht). now apply H.
Qed.

(** X19 at the tokens eeprom, set, 16383, 255. *)
Lemma command_string_splits_back_witness :
  PyStr.split " " (command_string [TStr "eeprom"; TStr "set"; TInt 16383; TInt 255])
  = ["eeprom"; "set"; "16383"; "255"].
Proof.
  apply (@command_string_splits_back [TStr "eeprom"; TStr "set"; TInt 16383; TInt 255]).
  - discriminate.
  - intros t [<- | [<- | [<- | [<- | []]]]]; reflexivity.
Defined.

(* ================================================================== *)
(** * A call that never returns *)

Module StuckFacts.

Lemma rested_lock (st : option N) (d : Device) : lock_held (rested st d) = lock_held d.
Proof. now destruct st. Qed.

(** A waiting read on an open socket with no data to come. *)
Lemma silent_socket_read (c : Connection) (host : string) (port : Z) :
  conn_end c = SocketEnd host port -> conn_open c = true ->
  forallb brings_nothing (conn_recv c) = true ->
  conn_read c true = (Hang, set_recv [] c).
Proof.
  intros K O Q. unfold conn_read. rewrite K. unfold SocketConnection_read.
  rewrite O. cbn [negb]. now rewrite (SocketFacts.socket_wait_hangs _ Q).
Qed.

End StuckFacts.

(** X20.  A synchronous call that expects a response, on a socket that
    takes the write and then stays silent, never returns and never gives
    the lock back: the command has been sent, and from then on every
    synchronous call and every task of the pool on that device blocks for
    ever, sending nothing. *)
Theorem silent_socket_blocks_device (args : list token) (o : call_opts) (d : Device)
    (conn c1 : Connection) (rest : list Connection) (host : string) (port : Z) :
  spawn_thread o = false -> callback o = None -> response o = true ->
  lock_held d = false ->
  connections d = conn :: rest ->
  conn_write conn (command_string args) = (Return tt, c1) ->
  conn_end c1 = SocketEnd host port -> conn_open c1 = true ->
  forallb brings_nothing (conn_recv c1) = true ->
  let out := Device_call args o d in
  fst out = Hang
  /\ lock_held (snd out) = true
  /\ sent (snd out) = (sent d ++ [(conn_id conn, command_string args)])%list
  /\ (forall args2 o2,
        spawn_thread o2 = false -> callback o2 = None ->
        Device_call args2 o2 (snd out) = (Hang, snd out))
  /\ (forall t, run_task t (snd out) = (Hang, snd out)).
Proof.
  intros S C R L E W K O Q out.
  assert (X : out = (Hang,
                     set_connections (set_recv [] c1 :: rest)
                       (record_sent (conn_id conn) (command_string args)
                          (rested (sleep_time o) (set_lock true d))))).
  { subst out. unfold Device_call. rewrite S, C, R. cbn [is_some orb].
    unfold sync_call, with_lock. rewrite L.
    rewrite DeviceFacts.command_unfold. cbn [connections set_lock]. rewrite E, W.
    cbv zeta. rewrite (@StuckFacts.silent_socket_read c1 host port K O Q).
    reflexivity. }
  rewrite X. cbn [fst snd].
  assert (H : lock_held
                (set_connections (set_recv [] c1 :: rest)
                   (record_sent (conn_id conn) (command_string args)
                      (rested (sleep_time o) (set_lock true d)))) = true).
  { cbn [lock_held set_connections record_sent].
    now rewrite StuckFacts.rested_lock. }
  split; [reflexivity |]. split; [exact H |]. split.
  - cbn [sent set_connections record_sent].
    now rewrite DeviceFacts.rested_sent.
  - split.
    + intros args2 o2 S2 C2. unfold Device_call. rewrite S2, C2. cbn [is_some orb].
      unfold sync_call. now rewrite (@PipelineFacts.with_lock_blocked _ _ _ H).
    + intros t. unfold run_task, _async_call.
      now rewrite (@PipelineFacts.with_lock_blocked _ _ _ H).
Qed.

(** X20 on a device whose socket stays silent: the call never returns, and
    the next call is blocked. *)
Lemma silent_socket_blocks_device_witness :
  fst (Device_call [TStr "cloi"] default_opts silent_device) = Hang
  /\ fst (Device_call [TStr "b"] default_opts
            (snd (Device_call [TStr "cloi"] default_opts silent_device))) = Hang.
Proof.
  destruct (@silent_socket_blocks_device [TStr "cloi"] default_opts silent_device
              (mkConnection 0 (SocketEnd "10.0.0.5" 8888) true [] (timeouts 3))
              (mkConnection 0 (SocketEnd "10.0.0.5" 8888) true [] (timeouts 3))
              [] "10.0.0.5" 8888%Z
              eq_refl eq_refl eq_refl eq_refl eq_refl eq_refl eq_refl eq_refl eq_refl)
    as (H1 & _ & _ & H2 & _).
  split; [exact H1 |].
  now rewrite (H2 [TStr "b"] default_opts eq_refl eq_refl).
Defined.

(* ================================================================== *)
(** * A line with its terminator *)

Module LineFacts.
Import PyStr PyStrFacts ReFacts PatternFacts.

(** A pattern [inner\n?] that matches a line with its newline matches the
    line without it. *)
Lemma newline_tail (inner : regex) (s : string) :
  newline_free inner = true -> mem newline s = false ->
  fullmatch (Cat inner (Opt (Chr newline))) (s ++ String newline EmptyString) = true ->
  fullmatch (Cat inner (Opt (Chr newline))) s = true.
Proof.
  intros F N M. apply fullmatch_iff in M. apply fullmatch_iff.
  apply matches_Cat_inv in M as (u & v & E & Mu & Mv).
  pose proof (newline_free_matches Mu F) as Nu.
  apply matches_Opt_Chr_inv in Mv as [-> | ->].
  - rewrite append_nil_r in E. subst u.
    rewrite mem_app in Nu. cbn [mem] in Nu.
    rewrite Ascii.eqb_refl, orb_true_r in Nu. discriminate.
  - assert (S : split newline (s ++ String newline EmptyString)
                = split newline (u ++ String newline EmptyString)) by now rewrite E.
    rewrite !split_app in S by assumption. injection S as ->.
    rewrite <- (append_nil_r u). constructor; [assumption |].
    apply MAltR. constructor.
Qed.

Lemma no_bracket_with_newline (s : string) :
  s <> EmptyString -> mem "[" s = false ->
  fullmatch re_matrix (s ++ String newline EmptyString) = false
  /\ fullmatch re_array (s ++ String newline EmptyString) = false.
Proof.
  intros N B. destruct s as [|c s]; [congruence |].
  cbn [mem] in B. destruct (Ascii.eqb "[" c) eqn:E; [discriminate |].
  apply Ascii.eqb_neq in E.
  split.
  - destruct (fullmatch re_matrix _) eqn:M; [| reflexivity].
    apply bracket_first in M as [s' M]. cbn [append] in M. congruence.
  - destruct (fullmatch re_array _) eqn:M; [| reflexivity].
    apply bracket_first in M as [s' M]. cbn [append] in M. congruence.
Qed.

End LineFacts.

(** X21.  A line of text that is not a number, with its newline, comes back
    from [process_auto] as the line without the newline -- a string, not a
    list of one string.  (The line is not empty, holds no opening bracket and
    has no framing character at either end.) *)
Theorem auto_returns_line_without_newline (s : string) :
  s <> EmptyString ->
  PyStr.mem PyStr.newline s = false ->
  PyStr.mem "[" s = false ->
  PyStr.lstrip text_framing s = s ->
  PyStr.rstrip text_framing s = s ->
  Re.fullmatch re_number s = false ->
  process_auto (Some (s ++ String PyStr.newline EmptyString)) = Return (VStr s).
Proof.
  intros N NL B L R M.
  destruct (LineFacts.no_bracket_with_newline N B) as [M1 M2].
  assert (M3 : Re.fullmatch re_number (s ++ String PyStr.newline EmptyString) = false).
  { destruct (Re.fullmatch re_number (s ++ _)) eqn:E; [| reflexivity].
    unfold re_number in E, M.
    apply LineFacts.newline_tail in E; [rewrite E in M; discriminate | reflexivity | assumption]. }
  unfold process_auto. rewrite M1, M2, M3.
  rewrite PyStrFacts.mem_app. cbn [PyStr.mem]. rewrite Ascii.eqb_refl, orb_true_r.
  unfold PyStr.strip.
  rewrite PyStrFacts.lstrip_app, FramedFacts.rstrip_dropped, R by (assumption || reflexivity).
  now rewrite PyStrFacts.split_no_sep.
Qed.

(** X21 at the line [Hello World]. *)
Lemma auto_returns_line_without_newline_witness :
  process_auto (Some ("Hello World" ++ String PyStr.newline EmptyString))
  = Return (VStr "Hello World").
Proof.
  apply auto_returns_line_without_newline; (reflexivity || discriminate).
Defined.

(* ================================================================== *)
(** * What [float] refuses *)

Module FloatFacts.
Import PyStr PyStrFacts PyFloat.

Lemma every_app (p : ascii -> bool) (a b : string) :
  every p (a ++ b) = every p a && every p b.
Proof.
  induction a as [|c a IH]; cbn [append every]; [reflexivity |].
  now rewrite IH, andb_assoc.
Qed.

Lemma space_is_float_char (c : ascii) : mem c whitespace = true -> float_char c = true.
Proof. unfold float_char. intros ->. apply orb_true_r. Qed.

Lemma digit_is_float_char (c : ascii) : is_digit c = true -> float_char c = true.
Proof. unfold float_char. now intros ->. Qed.

Lemma all_in_every (a : string) : all_in whitespace a = true -> every float_char a = true.
Proof.
  induction a as [|c a IH]; cbn [all_in every]; [reflexivity |].
  intros H. apply andb_prop in H as [H1 H2].
  now rewrite (space_is_float_char _ H1), IH.
Qed.

Lemma span_digits_every (s ds rest : string) :
  span_digits s = (ds, rest) -> s = ds ++ rest /\ every float_char ds = true.
Proof.
  revert ds rest. induction s as [|c s IH]; intros ds rest; cbn [span_digits].
  - intros [= <- <-]. now split.
  - destruct (is_digit c) eqn:D.
    + destruct (span_digits s) as [ds' rest'] eqn:E.
      intros [= <- <-]. destruct (IH _ _ eq_refl) as [-> H].
      cbn [append every]. now rewrite (digit_is_float_char _ D), H.
    + intros [= <- <-]. now split.
Qed.

Lemma take_sign_every (s s1 : string) (neg : bool) :
  take_sign s = (neg, s1) -> every float_char s = every float_char s1.
Proof.
  destruct s as [|c s]; cbn [take_sign]; [now intros [= _ <-] |].
  destruct (Ascii.eqb c "-") eqn:M.
  - intros [= _ <-]. apply Ascii.eqb_eq in M. now subst c.
  - destruct (Ascii.eqb c "+") eqn:P; intros [= _ <-]; [| reflexivity].
    apply Ascii.eqb_eq in P. now subst c.
Qed.

Lemma is_empty_true (s : string) : is_empty s = true -> s = EmptyString.
Proof. destruct s; [reflexivity | discriminate]. Qed.

Lemma exponent_every (s : string) (e : Z) :
  exponent s = Some e -> every float_char s = true.
Proof.
  destruct s as [|c r]; cbn [exponent every]; [reflexivity |].
  destruct (Ascii.eqb c "e" || Ascii.eqb c "E") eqn:C; [| discriminate].
  destruct (take_sign r) as [neg r1] eqn:T.
  destruct (span_digits r1) as [ds r2] eqn:S.
  destruct (is_empty ds || negb (is_empty r2)) eqn:G; [discriminate |].
  intros _. apply orb_false_elim in G as [_ G]. apply negb_false_iff in G.
  apply is_empty_true in G. subst r2.
  apply span_digits_every in S as [-> H].
  rewrite (take_sign_every _ T), append_nil_r, H, andb_true_r.
  unfold float_char. apply orb_prop in C as [-> | ->];
    repeat (rewrite ?orb_true_r, ?orb_true_l); reflexivity.
Qed.

(** What [float] accepts is written with the characters of a float. *)
Lemma parse_every (s : string) (q : Q) : parse s = Some q -> every float_char s = true.
Proof.
  unfold parse. intros P.
  destruct (StripFacts.strip_split whitespace s) as (a & b & E & A & B).
  rewrite E, !every_app, (all_in_every _ A), (all_in_every _ B), andb_true_r.
  cbn [andb].
  destruct (take_sign (strip whitespace s)) as [neg s1] eqn:T.
  rewrite (take_sign_every _ T).
  destruct (span_digits s1) as [ip s2] eqn:S1.
  apply span_digits_every in S1 as [-> Hip].
  rewrite every_app, Hip. cbn [andb].
  destruct s2 as [|c r].
  - reflexivity.
  - destruct (Ascii.eqb c ".") eqn:D.
    + destruct (span_digits r) as [fp s3] eqn:S2.
      apply span_digits_every in S2 as [-> Hfp].
      destruct (is_empty ip && is_empty fp); [discriminate |].
      destruct (exponent s3) as [e|] eqn:X; [| discriminate].
      cbn [every]. rewrite every_app, Hfp, (exponent_every _ X).
      apply Ascii.eqb_eq in D. now subst c.
    + destruct (is_empty ip && is_empty EmptyString); [discriminate |].
      destruct (exponent (String c r)) as [e|] eqn:X; [| discriminate].
      apply (exponent_every _ X).
Qed.

Lemma every_literal (s : string) :
  every float_char s = true -> every literal_char s = true.
Proof.
  induction s as [|c s IH]; cbn [every]; [reflexivity |].
  intros H. apply andb_prop in H as [H1 H2].
  unfold literal_char. rewrite H1. cbn [orb]. now apply IH.
Qed.

End FloatFacts.

(** X22.  The [number] formatter does not coerce: on a text that holds an
    ASCII character that no float literal is written with (anything but a
    digit, a sign, the point, the underscore, white space and the letters of
    [e], [inf], [infinity] and [nan]) it raises [ValueError]; and on [None]
    it raises [TypeError]. *)
Theorem number_formatter_refuses_text (s : string) :
  every literal_char s = false ->
  dict_get formatters (Some "number") _default_formatter (Some s) = Raise ValueError
  /\ dict_get formatters (Some "number") _default_formatter None = Raise TypeError.
Proof.
  intros H. split; [| reflexivity].
  cbn [dict_get formatters String.eqb]. cbn. unfold py_float.
  destruct (PyFloat.parse s) as [q|] eqn:P; [| reflexivity].
  apply FloatFacts.parse_every, FloatFacts.every_literal in P. congruence.
Qed.

(** X22 at the text [4.98 V]. *)
Lemma number_formatter_refuses_text_witness :
  dict_get formatters (Some "number") _default_formatter (Some "4.98 V")
  = Raise ValueError.
Proof.
  destruct (@number_formatter_refuses_text "4.98 V" eq_refl) as [H _]. exact H.
Defined.

(* ================================================================== *)
(** * The getter of the serial number *)

Module GetterFacts.
Import PyStr PyStrFacts.

Lemma hex_val_hexit (x : hexit) : PyInt.hex_val (hexit_char x) = Some (hexit_Z x).
Proof. destruct x; reflexivity. Qed.

Lemma hex_digits_string (xs : list hexit) (acc : Z) (seen : bool) :
  PyInt.hex_digits acc seen (hex_string xs)
  = if seen || negb (Nat.eqb (List.length xs) 0)
    then Some (fold_left (fun a x => (16 * a + hexit_Z x)%Z) xs acc) else None.
Proof.
  revert acc seen. induction xs as [|x xs IH]; intros acc seen.
  - cbn. now destruct seen.
  - cbn [hex_string PyInt.hex_digits]. rewrite hex_val_hexit, IH.
    cbn. now rewrite orb_true_r.
Qed.

Lemma hexit_not_space (x : hexit) : mem (hexit_char x) PyFloat.whitespace = false.
Proof. destruct x; reflexivity. Qed.

Lemma hex_string_ends_clean (x : hexit) (xs : list hexit) :
  ends_clean PyFloat.whitespace (hex_string (x :: xs)).
Proof.
  revert x. induction xs as [|y xs IH]; intros x.
  - exists EmptyString, (hexit_char x). split; [reflexivity | apply hexit_not_space].
  - destruct (IH y) as (pre & c & E & M).
    exists (String (hexit_char x) pre), c. split; [| exact M].
    cbn [hex_string append]. cbn [hex_string] in E. now rewrite E.
Qed.

(** The hexadecimal text of a number, with or without a newline, is read
    as that number. *)
Lemma parse_hex_string (x : hexit) (xs : list hexit) (nl : bool) :
  PyInt.parse_prefixed (hex_string (x :: xs) ++ terminator nl)
  = Some (hex_number (x :: xs)).
Proof.
  unfold PyInt.parse_prefixed.
  rewrite FramedFacts.rstrip_dropped by (destruct nl; reflexivity).
  rewrite (StripFacts.rstrip_fixed (hex_string_ends_clean x xs)).
  now rewrite hex_digits_string.
Qed.

(** A serial port with a line waiting: [command] sends and returns the
    line. *)
Lemma command_reads_line (cmd : string) (st : option N) (d : Device)
    (conn c1 : Connection) (rest : list Connection) (port text : string)
    (script : list recv_step) :
  connections d = conn :: rest ->
  conn_write conn cmd = (Return tt, c1) ->
  conn_end c1 = SerialEnd port -> conn_open c1 = true ->
  conn_recv c1 = RecvData text :: script ->
  command cmd true st d
  = (Return (Some text),
     set_connections (set_recv script c1 :: rest)
       (record_sent (conn_id conn) cmd (rested st d))).
Proof.
  intros E W K O R. rewrite DeviceFacts.command_unfold, E, W. cbv zeta.
  unfold conn_read. rewrite K. unfold SerialConnection_read. now rewrite O, R.
Qed.

End GetterFacts.

(** X23.  The getter sends the command [serial] and decodes the answer as
    a hexadecimal number, in either case of the letters and with or without a
    final newline: on a device whose serial port takes the write and answers
    with the hexadecimal text of a word, it returns the five fields of that
    word. *)
Theorem serial_getter_decodes_answer (d : Device) (conn c1 : Connection)
    (rest : list Connection) (port : string) (script : list recv_step)
    (x : hexit) (xs : list hexit) (nl : bool) :
  lock_held d = false ->
  connections d = conn :: rest ->
  conn_write conn "serial" = (Return tt, c1) ->
  conn_end c1 = SerialEnd port -> conn_open c1 = true ->
  conn_recv c1 = RecvData (hex_string (x :: xs) ++ terminator nl) :: script ->
  fst (serial_getter d) = Return (serial_decode (hex_number (x :: xs)))
  /\ sent (snd (serial_getter d)) = (sent d ++ [(conn_id conn, "serial")])%list.
Proof.
  intros L E W K O R. unfold serial_getter, Device_call.
  cbn [spawn_thread callback is_some orb response format sleep_time].
  change (command_string [TStr "serial"]) with "serial".
  unfold sync_call, with_lock. rewrite L.
  rewrite (@GetterFacts.command_reads_line "serial" default_sleep (set_lock true d)
             conn c1 rest port _ script E W K O R).
  unfold apply_formatter, chosen_formatter.
  cbn [fst snd response callback is_some orb format].
  change (dict_get formatters None _default_formatter) with _default_formatter.
  unfold _default_formatter. cbn [fst snd rbind value_of_raw].
  rewrite GetterFacts.parse_hex_string. split; reflexivity.
Qed.

(** X23 at the answer 0140060A0001 with its newline. *)
Lemma serial_getter_decodes_answer_witness :
  fst (serial_getter
         (answering_device
            (hex_string [X0; X1; X4; X0; X0; X6; X0; XA; X0; X0; X0; X1] ++ terminator true)))
  = Return (serial_decode (hex_number [X0; X1; X4; X0; X0; X6; X0; XA; X0; X0; X0; X1])).
Proof.
  destruct (@serial_getter_decodes_answer
              (answering_device
                 (hex_string [X0; X1; X4; X0; X0; X6; X0; XA; X0; X0; X0; X1]
                  ++ terminator true))
              (mkConnection 0 (SerialEnd "COM3") true []
                 [RecvData (hex_string [X0; X1; X4; X0; X0; X6; X0; XA; X0; X0; X0; X1]
                            ++ terminator true)])
              (mkConnection 0 (SerialEnd "COM3") true []
                 [RecvData (hex_string [X0; X1; X4; X0; X0; X6; X0; XA; X0; X0; X0; X1]
                            ++ terminator true)])
              [] "COM3" [] X0 [X1; X4; X0; X0; X6; X0; XA; X0; X0; X0; X1] true
              eq_refl eq_refl eq_refl eq_refl eq_refl eq_refl) as [H _].
  exact H.
Defined.

(** X24.  When the getter cannot read a number it raises.  On a device
    without a transport the call returns [None], which cannot be joined to
    the prefix: a type error.  On a serial port that takes the write, an
    empty answer (the line read timed out) or an answer that carries a
    prefix [0x] of its own is not a number after the prefix the getter adds:
    a value error. *)
Theorem serial_getter_failures (d : Device) :
  lock_held d = false ->
  (connections d = [] -> fst (serial_getter d) = Raise TypeError)
  /\ (forall (conn c1 : Connection) (rest : list Connection) (port text : string)
             (script : list recv_step),
        connections d = conn :: rest ->
        conn_write conn "serial" = (Return tt, c1) ->
        conn_end c1 = SerialEnd port -> conn_open c1 = true ->
        conn_recv c1 = RecvData text :: script ->
        text = EmptyString \/ (exists s, text = String "0" (String "x" s)) ->
        fst (serial_getter d) = Raise ValueError).
Proof.
  intros L. split.
  - intros E. unfold serial_getter, Device_call.
    cbn [spawn_thread callback is_some orb response format sleep_time].
    unfold sync_call, with_lock. rewrite L.
    rewrite DeviceFacts.command_no_transport by assumption. reflexivity.
  - intros conn c1 rest port text script E W K O R T.
    unfold serial_getter, Device_call.
    cbn [spawn_thread callback is_some orb response format sleep_time].
    change (command_string [TStr "serial"]) with "serial".
    unfold sync_call, with_lock. rewrite L.
    rewrite (@GetterFacts.command_reads_line "serial" default_sleep (set_lock true d)
               conn c1 rest port _ script E W K O R).
    unfold apply_formatter, chosen_formatter.
    cbn [fst snd response callback is_some orb format].
    change (dict_get formatters None _default_formatter) with _default_formatter.
    unfold _default_formatter. cbn [fst snd rbind value_of_raw].
    replace (PyInt.parse_prefixed text) with (@None Z); [reflexivity |].
    destruct T as [-> | [s ->]]; [reflexivity |].
    unfold PyInt.parse_prefixed. cbn [PyStr.rstrip].
    destruct (PyStr.rstrip PyFloat.whitespace s) as [|c r] eqn:X;
      cbn [PyStr.is_empty andb]; reflexivity.
Qed.

(** X24 on the device without a transport, and on a serial port whose
    line read timed out. *)
Lemma serial_getter_failures_witness :
  fst (serial_getter bare_device) = Raise TypeError
  /\ fst (serial_getter (answering_device EmptyString)) = Raise ValueError.
Proof.
  split.
  - destruct (@serial_getter_failures bare_device eq_refl) as [H _].
    now apply H.
  - destruct (@serial_getter_failures (answering_device EmptyString) eq_refl) as [_ H].
    apply (H (mkConnection 0 (SerialEnd "COM3") true [] [RecvData EmptyString])
             (mkConnection 0 (SerialEnd "COM3") true [] [RecvData EmptyString])
             [] "COM3" EmptyString []); try reflexivity.
    now left.
Defined.

(* ================================================================== *)
(** * The setter of the serial number on the wire *)

Module SetterFacts.

Lemma eeprom_chain (h : heap) :
  exists b h',
    device_chain "eeprom" ["set"] h = (Builder b, h')
    /\ tokens h' b = [TStr "eeprom"; TStr "set"].
Proof.
  destruct (@ChainFacts.Device_getattribute_fresh "eeprom" h eq_refl)
    as (b & E & _ & T & _).
  remember (snd (Device_getattribute "eeprom" h)) as h1 eqn:H1.
  destruct (@ChainFacts.chain_from_tokens ["set"] b h1 eq_refl) as (C1 & C2 & _).
  exists b, (snd (chain_from b ["set"] h1)).
  unfold device_chain. rewrite E. split.
  - rewrite <- C1. now destruct (chain_from b ["set"] h1).
  - now rewrite C2, T.
Qed.

(** One write of a byte on a steady serial port: the command goes out, and
    the device is as before but for what it sent and slept. *)
Lemma eeprom_set_steady (addr byte : Z) (h : heap) (d : Device)
    (conn : Connection) (rest : list Connection) :
  lock_held d = false -> connections d = conn :: rest -> steady_serial conn ->
  exists v h',
    eeprom_set addr byte h d
    = ((Return v,
        set_lock false
          (set_connections (conn :: rest)
             (record_sent (conn_id conn) (eeprom_command (addr, byte))
                (sleep 1000 (set_lock true d))))), h').
Proof.
  intros L E ((port & K) & O & S).
  destruct (eeprom_chain h) as (b & h' & C & T).
  unfold eeprom_set. rewrite C. unfold builder_call. rewrite T.
  unfold Device_call. cbn [spawn_thread callback is_some orb response sleep_time].
  change (command_string ([TStr "eeprom"; TStr "set"] ++ [TInt addr; TInt byte]))
    with (eeprom_command (addr, byte)).
  unfold sync_call, with_lock. rewrite L.
  rewrite DeviceFacts.command_unfold. cbn [connections set_lock]. rewrite E.
  unfold conn_write, stream_send. rewrite O, S. cbn [negb]. cbv zeta.
  unfold conn_read. rewrite K. unfold SerialConnection_read.
  unfold apply_formatter, chosen_formatter.
  cbn [fst snd response callback is_some orb]. unfold _default_formatter.
  cbn [rbind value_of_raw]. eexists. eexists. reflexivity.
Qed.

Lemma setter_loop_steady (writes : list (Z * Z)) :
  forall (h : heap) (d : Device) (conn : Connection) (rest : list Connection),
    lock_held d = false -> connections d = conn :: rest -> steady_serial conn ->
    exists d' h',
      setter_loop writes h d = ((Return tt, d'), h')
      /\ lock_held d' = false /\ connections d' = conn :: rest
      /\ sent d' = (sent d ++ map (fun w => (conn_id conn, eeprom_command w)) writes)%list
      /\ closed d' = closed d /\ logged d' = logged d.
Proof.
  induction writes as [|[addr byte] writes IH]; intros h d conn rest L E S.
  - exists d, h. cbn. now rewrite app_nil_r.
  - destruct (@eeprom_set_steady addr byte h d conn rest L E S) as (v & h1 & X).
    cbn [setter_loop]. rewrite X.
    match goal with
    | |- context [setter_loop writes h1 ?d1] =>
        destruct (IH h1 d1 conn rest eq_refl eq_refl S)
          as (d' & h' & Y & L' & E' & T' & C' & G')
    end.
    exists d', h'. rewrite Y. repeat split; try assumption.
    rewrite T'. cbn [sent record_sent sleep set_connections set_lock map].
    now rewrite <- app_assoc.
Qed.

End SetterFacts.

(** X25.  On a device whose lead transport is a serial port that takes
    every write, the setter sends, for the word packed from the fields, the
    six commands [eeprom set 16383 b0] ... [eeprom set 16378 b5], one per
    byte from the least significant, and then the command [serial] of the
    getter, all on that transport; it sends nothing else, whatever the
    device answers at the end. *)
Theorem serial_setter_commands (now_week now_year : Z) (sd : serial_dict) (h : heap)
    (d : Device) (conn : Connection) (rest : list Connection) :
  lock_held d = false -> connections d = conn :: rest -> steady_serial conn ->
  sent (snd (fst (serial_setter now_week now_year sd h d)))
  = (sent d
     ++ map (fun w => (conn_id conn, eeprom_command w))
            (eeprom_writes 6 0 (serial_encode now_week now_year sd))
     ++ [(conn_id conn, "serial")])%list.
Proof.
  intros L E S. unfold serial_setter.
  destruct (@SetterFacts.setter_loop_steady
              (eeprom_writes 6 0 (serial_encode now_week now_year sd)) h d conn rest L E S)
    as (d' & h' & X & L' & E' & T' & C' & _).
  rewrite X. cbn [fst snd].
  destruct S as ((port & K) & O & Sn).
  unfold serial_getter, Device_call.
  cbn [spawn_thread callback is_some orb response format sleep_time].
  change (command_string [TStr "serial"]) with "serial".
  unfold sync_call, with_lock. rewrite L'.
  rewrite DeviceFacts.command_unfold. cbn [connections set_lock]. rewrite E'.
  unfold conn_write, stream_send. rewrite O, Sn. cbn [negb]. cbv zeta.
  unfold conn_read. rewrite K. unfold SerialConnection_read. rewrite O. cbn [negb].
  destruct (conn_recv conn) as [|[text | e] script];
    unfold apply_formatter, chosen_formatter, command_failed;
    cbn [fst snd response callback is_some orb format];
    try (destruct (is_connection_error e));
    cbn; rewrite ?T', <- ?app_assoc; reflexivity.
Qed.

(** X25 on a serial port, for the fields board 1, week 10, year 24, model
    2, product 5. *)
(** X25 on a serial port, for the fields board 1, week 10, year 24, model
    2, product 5, whose word is 0x0140860A0001. *)
Lemma serial_setter_commands_witness :
  sent (snd (fst (serial_setter 44 2026 (dict_of_fields (mkSerial 1 10 24 2 5))
                    empty_heap (answering_device "0140860A0001"))))
  = [(0%nat, "eeprom set 16383 1"); (0%nat, "eeprom set 16382 0");
     (0%nat, "eeprom set 16381 10"); (0%nat, "eeprom set 16380 134");
     (0%nat, "eeprom set 16379 64"); (0%nat, "eeprom set 16378 1");
     (0%nat, "serial")].
Proof.
  apply (@serial_setter_commands 44 2026 (dict_of_fields (mkSerial 1 10 24 2 5))
           empty_heap (answering_device "0140860A0001")
           (mkConnection 0 (SerialEnd "COM3") true [] [RecvData "0140860A0001"]) []).
  - reflexivity.
  - reflexivity.
  - split; [now exists "COM3" | split; reflexivity].
Defined.

(* ================================================================== *)
(** * The numerals that [process_auto] reads *)

(** X26.  Every string of the shape [sign]digits[.digits][e[-]digits] --
    the sign of the number a plus or a minus, the sign of the exponent a
    minus only, the exponent a whole number -- is classified by
    [process_auto] as a bare number, and the result is the number that the
    string denotes. *)
Theorem process_auto_reads_numerals (n : decimal) :
  Re.fullmatch re_number (render n) = true
  /\ process_auto (Some (render n)) = Return (VFloat (decimal_value n)).
Proof.
  pose proof (DecimalFacts.fullmatch_re_number n) as M.
  destruct (DecimalFacts.render_no_bracket n) as [M1 M2].
  split; [assumption |].
  unfold process_auto, py_float.
  now rewrite M1, M2, M, ParseFacts.parse_render.
Qed.
